(** * Comment sentiment analyzer: positivity policy, URL synthesis,
      ingestion, aggregation and report writing

    A shallow embedding of [sentiment_analyzer.py].  Python values that
    come out of [json.load] are modelled by the type [json]; a Python
    [str] is the list of its Unicode code points; a [float] is a binary
    floating-point datum, compared by its exact value; exceptions are
    made explicit by the [result] type.  The neural model, numpy's
    [argmax], [str.lower] and [repr] of floats and containers are library
    code: they are section variables of the development, instantiated by
    executable stand-ins in the closed examples. *)

From Stdlib Require Import ZArith NArith QArith List String Ascii Lia SpecFloat.
From Stdlib Require Import DecimalString.
From stdpp Require Import base option list gmap sets sorting.

Set Warnings "-register-all".
Set Default Proof Using "Type".

(** ** Python strings *)

(** A [str] is a sequence of code points. *)
Abbreviation pystr := (list N).

Fixpoint bytes_of (s : string) : list N :=
  match s with
  | EmptyString => []
  | String c r => N_of_ascii c :: bytes_of r
  end.

(** UTF-8 decoding of the bytes of a source literal. *)
Fixpoint utf8_decode (bs : list N) : pystr :=
  match bs with
  | [] => []
  | b0 :: r0 =>
    if (b0 <? 128)%N then b0 :: utf8_decode r0
    else match r0 with
    | [] => []
    | b1 :: r1 =>
      if (b0 <? 224)%N
      then ((b0 - 192) * 64 + (b1 - 128))%N :: utf8_decode r1
      else match r1 with
      | [] => []
      | b2 :: r2 =>
        if (b0 <? 240)%N
        then ((b0 - 224) * 4096 + (b1 - 128) * 64 + (b2 - 128))%N
               :: utf8_decode r2
        else match r2 with
        | [] => []
        | b3 :: r3 =>
          ((b0 - 240) * 262144 + (b1 - 128) * 4096
           + (b2 - 128) * 64 + (b3 - 128))%N :: utf8_decode r3
        end
      end
    end
  end.

(** [u "..."] is the Python literal ['...']. *)
Definition u (s : string) : pystr := utf8_decode (bytes_of s).

(** [s.startswith(p)], returning what follows the prefix. *)
Fixpoint strip_prefix (p s : pystr) : option pystr :=
  match p, s with
  | [], _ => Some s
  | _ :: _, [] => None
  | a :: p', b :: s' => if (a =? b)%N then strip_prefix p' s' else None
  end.

(** [s.find(sep)] as the pair of what precedes and what follows the
    first occurrence of [sep]. *)
Fixpoint str_find (sep s : pystr) : option (pystr * pystr) :=
  match strip_prefix sep s with
  | Some rest => Some ([], rest)
  | None =>
    match s with
    | [] => None
    | c :: s' =>
      match str_find sep s' with
      | Some (a, b) => Some (c :: a, b)
      | None => None
      end
    end
  end.

(** [needle in hay] on two strings. *)
Definition str_in (needle hay : pystr) : bool :=
  bool_decide (is_Some (str_find needle hay)).

Fixpoint split_go (fuel : nat) (sep s : pystr) : list pystr :=
  match fuel with
  | O => [s]
  | S fuel' =>
    match str_find sep s with
    | None => [s]
    | Some (a, b) => a :: split_go fuel' sep b
    end
  end.

(** [s.split(sep)] for a non-empty [sep] (every call site passes a
    non-empty literal; Python raises [ValueError] on an empty one). *)
Definition str_split (sep s : pystr) : list pystr :=
  split_go (length s) sep s.

(** [l[-1]] and [l[0]] on the result of a split, which is never empty. *)
Definition py_last (l : list pystr) : pystr := List.last l [].
Definition py_first (l : list pystr) : pystr := List.hd [] l.

Fixpoint lstrip_by (p : N → bool) (s : pystr) : pystr :=
  match s with
  | [] => []
  | c :: s' => if p c then lstrip_by p s' else s
  end.

Definition rstrip_by (p : N → bool) (s : pystr) : pystr :=
  rev (lstrip_by p (rev s)).

Definition strip_by (p : N → bool) (s : pystr) : pystr :=
  rstrip_by p (lstrip_by p s).

Definition char_in (chars : pystr) (c : N) : bool :=
  bool_decide (c ∈ chars).

(** [s.rstrip(chars)] and [s.strip(chars)]. *)
Definition str_rstrip (chars s : pystr) : pystr := rstrip_by (char_in chars) s.
Definition str_strip_chars (chars s : pystr) : pystr := strip_by (char_in chars) s.

(** The code points Python treats as whitespace in [str.strip()]. *)
Definition is_space (c : N) : bool :=
  ((9 <=? c) && (c <=? 13) || (28 <=? c) && (c <=? 32)
   || (c =? 133) || (c =? 160) || (c =? 5760)
   || (8192 <=? c) && (c <=? 8202)
   || (c =? 8232) || (c =? 8233) || (c =? 8239) || (c =? 8287)
   || (c =? 12288))%N.

(** [s.strip()]. *)
Definition str_strip (s : pystr) : pystr := strip_by is_space s.

(** [a < b] on strings: lexicographic on code points. *)
Fixpoint str_lt (a b : pystr) : bool :=
  match a, b with
  | _, [] => false
  | [], _ :: _ => true
  | x :: a', y :: b' =>
    if (x <? y)%N then true else if (y <? x)%N then false else str_lt a' b'
  end.

(** [str(n)] for an integer. *)
Definition str_of_int (n : Z) : pystr :=
  bytes_of (NilEmpty.string_of_int (Z.to_int n)).

(** [str.lower] on the Latin and the Cyrillic alphabets, the stand-in for
    the section variable [str_lower] in the closed examples. *)
Definition lower_char (c : N) : N :=
  if ((65 <=? c) && (c <=? 90))%N then (c + 32)%N
  else if ((1040 <=? c) && (c <=? 1071))%N then (c + 32)%N
  else if ((1024 <=? c) && (c <=? 1039))%N then (c + 80)%N
  else c.

Definition lower_basic (s : pystr) : pystr := map lower_char s.

(** ** Values read by [json.load] *)

Inductive json :=
| JNull
| JBool (b : bool)
| JInt (z : Z)
| JFloat (f : spec_float)
| JStr (s : pystr)
| JArr (l : list json)
| JObj (m : gmap (list N) json).

(** Truth value of an object, as [not x] and [if x:] take it. *)
Definition truthy (v : json) : bool :=
  match v with
  | JNull => false
  | JBool b => b
  | JInt z => negb (z =? 0)%Z
  | JFloat f => match f with S754_zero _ => false | _ => true end
  | JStr s => match s with [] => false | _ => true end
  | JArr l => match l with [] => false | _ => true end
  | JObj m => negb (bool_decide (m = ∅))
  end.

(** ** Exceptions *)

(** [Unsupported] marks the one operation the embedding does not follow,
    a sort on keys that hold a NaN; no statement is made about what a run
    that reaches it does next. *)
Inductive exn :=
| TypeError | AttributeError | IndexError | KeyError | ValueError
| OSError | UnicodeEncodeError
| SystemExit (code : Z)
| Unsupported.

Inductive result (A : Type) :=
| Ok (a : A)
| Raise (e : exn).
Arguments Ok {A} a.
Arguments Raise {A} e.

#[export] Instance result_ret : MRet result := @Ok.
#[export] Instance result_bind : MBind result := λ A B f m,
  match m with
  | Ok a => f a
  | Raise e => Raise e
  end.

(** [d.get(k, default)]: only a dict has the method. *)
Definition dict_get (d : json) (k : pystr) (dflt : json) : result json :=
  match d with
  | JObj m => Ok (default dflt (m !! k))
  | _ => Raise AttributeError
  end.

(** [for x in v]: the items a [for] loop visits. *)
Definition py_iter (v : json) : result (list json) :=
  match v with
  | JArr l => Ok l
  | JStr s => Ok (map (λ c, JStr [c]) s)
  | JObj m => Ok (map (λ kv, JStr kv.1) (map_to_list m))
  | _ => Raise TypeError
  end.

(** [len(v)]. *)
Definition py_len (v : json) : result Z :=
  match v with
  | JStr s => Ok (Z.of_nat (length s))
  | JArr l => Ok (Z.of_nat (length l))
  | JObj m => Ok (Z.of_nat (size m))
  | _ => Raise TypeError
  end.

(** [v in s] for a set of strings: lists and dicts are unhashable, and no
    other value equals a string. *)
Definition py_in_set (v : json) (s : gset (list N)) : result bool :=
  match v with
  | JStr a => Ok (bool_decide (a ∈ s))
  | JArr _ | JObj _ => Raise TypeError
  | _ => Ok false
  end.

(** [needle in v] for a string [needle]. *)
Definition py_contains (needle : pystr) (v : json) : result bool :=
  match v with
  | JStr s => Ok (str_in needle s)
  | JArr l =>
    Ok (existsb (λ x, match x with
                      | JStr t => bool_decide (t = needle)
                      | _ => false
                      end) l)
  | JObj m => Ok (bool_decide (is_Some (m !! needle)))
  | _ => Raise TypeError
  end.

(** The receiver of a [str] method: anything else has no such attribute. *)
Definition as_str (v : json) : result pystr :=
  match v with
  | JStr s => Ok s
  | _ => Raise AttributeError
  end.

(** [l[i]] on an array. *)
Definition getitem {A} (l : list A) (i : nat) : result A :=
  match l !! i with
  | Some x => Ok x
  | None => Raise IndexError
  end.

(** [d[k]] on a dict. *)
Definition dict_getitem {A} (d : gmap nat A) (k : nat) : result A :=
  match d !! k with
  | Some x => Ok x
  | None => Raise KeyError
  end.

(** ** Paths *)

(** A relative [Path] is the list of its components. *)
Abbreviation Path := (list (list N)).

Definition path_name (p : Path) : pystr := List.last p [].
Definition path_join (p : Path) (name : pystr) : Path := p ++ [name].

(** ** Configuration *)

(** [os.getenv(key, default)]. *)
Definition getenv (environ : gmap (list N) (list N)) (key dflt : pystr) : pystr :=
  default dflt (environ !! key).

(** The double quote, written by its code point. *)
Definition dquote : pystr := [34%N].

(** Lines 47-49 of [Config.__init__]. *)
Definition exclude_authors (exclude_str : pystr) : gset (list N) :=
  let exclude_str :=
    str_strip_chars (u "'") (str_strip_chars dquote exclude_str) in
  list_to_set
    (map str_strip
       (filter (λ author, str_strip author ≠ [])
          (str_split (u ",") exclude_str))).

Definition EXCLUDE_AUTHORS_of (environ : gmap (list N) (list N)) : gset (list N) :=
  exclude_authors
    (getenv environ (u "EXCLUDE_AUTHORS") (u "empenoso,Михаил Шардин")).

Section Analyzer.

(** Scores are floats; only [>=] is used on them. *)
Context {score : Type}.
Variable score_geb : score → score → bool.
(** [numpy.ndarray.argmax]. *)
Variable argmax : list score → result nat.
(** [str.lower]. *)
Variable str_lower : pystr → pystr.
(** [str(v)] for a float, a list or a dict. *)
Variable py_repr : json → pystr.

Record Config := {
  POSITIVE_THRESHOLD : score;
  EXCLUDE_AUTHORS : gset (list N);
  MIN_COMMENT_LENGTH : Z;
  INPUT_DIRS : list Path
}.

(** The loaded model: [predict] is the tokenizer, the network and the
    sigmoid, returning row 0 of the scores; it is handed whatever the
    caller passes as [text]. *)
Record SentimentAnalyzer := {
  config : Config;
  predict : json → result (list score);
  id2label : gmap nat (list N)
}.

Definition praise_keywords : list pystr :=
  [ u "спасибо"; u "благодарю"; u "отлично"; u "прекрасно";
    u "замечательно"; u "великолепно";
    u "хорошо"; u "молодец"; u "браво"; u "супер"; u "класс"; u "круто";
    u "восхищен"; u "впечатлен";
    u "полезно"; u "помогло"; u "отличная статья"; u "хорошая работа" ].

Definition is_positive_comment (self : SentimentAnalyzer)
    (text author : json) : result bool :=
  excluded ← py_in_set author (EXCLUDE_AUTHORS (config self));
  if (excluded : bool) then Ok false else
  n ← py_len text;
  if (n <? MIN_COMMENT_LENGTH (config self))%Z then Ok false else
  proba ← predict self text;
  k ← argmax proba;
  label ← dict_getitem (id2label self) k;
  strong ← (if bool_decide (label = u "positive")
            then p2 ← getitem proba 2;
                 Ok (score_geb p2 (POSITIVE_THRESHOLD (config self)))
            else Ok false);
  if (strong : bool) then Ok true else
  praised ← (if bool_decide (label = u "neutral")
             then t ← as_str text;
                  Ok (existsb (λ keyword, str_in keyword (str_lower t))
                        praise_keywords)
             else Ok false);
  if (praised : bool) then Ok true else Ok false.

(** [str(v)], also what an f-string puts for [{v}]. *)
Definition py_str (v : json) : pystr :=
  match v with
  | JNull => u "None"
  | JBool true => u "True"
  | JBool false => u "False"
  | JInt z => str_of_int z
  | JStr s => s
  | _ => py_repr v
  end.

Definition get_comment_url (directory_name article_url : json)
    (comment_id : pystr) : result pystr :=
  dn ← as_str directory_name;
  if str_in (u "habr") (str_lower dn) then
    has ← py_contains (u "habr.com") article_url;
    if (has : bool) then
      url ← as_str article_url;
      let article_id :=
        py_first (str_split (u "/") (py_last (str_split (u "/articles/") url))) in
      Ok (u "https://habr.com/ru/articles/" ++ article_id
            ++ u "/comments/#comment_" ++ comment_id)
    else Ok (u "Unknown Habr URL: " ++ py_str article_url)
  else if str_in (u "smart-lab") (str_lower dn) then
    has ← py_contains (u "smart-lab.ru") article_url;
    if (has : bool) then
      url ← as_str article_url;
      let article_id :=
        py_first (str_split (u ".php") (py_last (str_split (u "/blog/") url))) in
      Ok (u "https://smart-lab.ru/blog/" ++ article_id
            ++ u ".php#comment" ++ comment_id)
    else Ok (u "Unknown Smart-Lab URL: " ++ py_str article_url)
  else if str_in (u "t-j") (str_lower dn) || str_in (u "tj") (str_lower dn) then
    if truthy article_url then
      url ← as_str article_url;
      let base_url := py_first (str_split (u "#") (str_rstrip (u "/") url)) in
      Ok (base_url ++ u "/#c" ++ comment_id)
    else Ok (u "Unknown TJ URL (comment: " ++ comment_id ++ u ")")
  else
    Ok (u "Unknown source (url: " ++ py_str article_url
          ++ u ", comment: " ++ comment_id ++ u ")").

(** ** Per-file processing *)

Definition newline : pystr := [10%N].

(** What [open] and [json.load] give for a file: an exception with its
    message, or the parsed document. *)
Inductive file_content :=
| Unreadable (e : pystr)
| Loaded (data : json).

(** [comment[k] = v]; the receiver is a dict at the only call sites. *)
Definition dict_set (d : json) (k : pystr) (v : json) : json :=
  match d with
  | JObj m => JObj (<[k := v]> m)
  | _ => d
  end.

(** The loop of lines 190-200 over the items still to visit. *)
Fixpoint scan_comments (analyzer : SentimentAnalyzer)
    (article_url : json) (directory_name : pystr)
    (comments positive_comments : list json) : result (list json) :=
  match comments with
  | [] => Ok positive_comments
  | comment :: rest =>
    text ← dict_get comment (u "text") (JStr []);
    author ← dict_get comment (u "author") (JStr []);
    if negb (truthy text) || negb (truthy author)
    then scan_comments analyzer article_url directory_name rest positive_comments
    else
      positive ← is_positive_comment analyzer text author;
      if (positive : bool) then
        let comment := dict_set comment (u "article_url") article_url in
        let comment := dict_set comment (u "directory_name") (JStr directory_name) in
        scan_comments analyzer article_url directory_name rest
          (positive_comments ++ [comment])
      else
        scan_comments analyzer article_url directory_name rest positive_comments
  end.

(** [process_json_file]: what is printed, and the value returned or the
    exception that escapes. *)
Definition process_json_file (content : file_content) (file_name : pystr)
    (analyzer : SentimentAnalyzer) (directory_name : pystr)
    : list pystr * result (list json) :=
  match content with
  | Unreadable e =>
    ([newline ++ u "⚠️  Ошибка чтения " ++ file_name ++ u ": " ++ e], Ok [])
  | Loaded data =>
    ([], article_url ← dict_get data (u "url") (JStr []);
         comments ← dict_get data (u "comments") (JArr []);
         items ← py_iter comments;
         scan_comments analyzer article_url directory_name items [])
  end.

(** ** Aggregation and report *)

(** [lambda c: c.get('id') if c.get('id') is not None else 0]. *)
Definition sort_key (c : json) : result json :=
  id ← dict_get c (u "id") JNull;
  Ok (match id with JNull => JInt 0 | _ => id end).

(** An integer key; [bool] is a subclass of [int]. *)
Definition int_of_key (k : json) : option Z :=
  match k with
  | JInt z => Some z
  | JBool b => Some (Z.b2z b)
  | _ => None
  end.

(** *** Comparison of values

    Numbers ([int], [bool], [float]) compare by their exact values; a
    NaN is neither less than, nor equal to, nor greater than any
    number. *)
Inductive number :=
| NaN
| NegInf
| Finite (q : Q)
| PosInf.

Definition float_value (f : spec_float) : number :=
  match f with
  | S754_zero _ => Finite (inject_Z 0)
  | S754_infinity s => if s then NegInf else PosInf
  | S754_nan => NaN
  | S754_finite s m e =>
    Finite (Qmult (inject_Z (if s then Z.neg m else Z.pos m))
              (Qpower (inject_Z 2) e))
  end.

Definition number_of (v : json) : option number :=
  match v with
  | JBool b => Some (Finite (inject_Z (Z.b2z b)))
  | JInt z => Some (Finite (inject_Z z))
  | JFloat f => Some (float_value f)
  | _ => None
  end.

Definition num_lt (a b : number) : bool :=
  match a, b with
  | Finite x, Finite y => negb (Qle_bool y x)
  | NegInf, (Finite _ | PosInf) => true
  | Finite _, PosInf => true
  | _, _ => false
  end.

Definition num_eq (a b : number) : bool :=
  match a, b with
  | Finite x, Finite y => Qeq_bool x y
  | NegInf, NegInf | PosInf, PosInf => true
  | _, _ => false
  end.

(** [json.load] gives one and the same object for every [NaN] of a
    document, and the items of two containers are first compared by
    identity: inside lists and dicts a NaN equals a NaN. *)
Definition is_nan (v : json) : bool :=
  match v with JFloat S754_nan => true | _ => false end.

Definition same_by (eq : json → json → bool) (x y : json) : bool :=
  is_nan x && is_nan y || eq x y.

Definition items_eq (eq : json → json → bool)
    : list json → list json → bool :=
  fix go l l' :=
    match l, l' with
    | [], [] => true
    | x :: l, y :: l' => same_by eq x y && go l l'
    | _, _ => false
    end.

Definition members_eq (eq : json → json → bool)
    (m m' : gmap (list N) json) : bool :=
  bool_decide (size m = size m')
  && map_fold (λ k v acc, acc && match m' !! k with
                                 | Some w => same_by eq v w
                                 | None => false
                                 end) true m.

(** [a == b]. *)
Fixpoint py_eq (a b : json) {struct a} : bool :=
  match a, b with
  | JNull, JNull => true
  | JStr s, JStr t => bool_decide (s = t)
  | JArr l, JArr l' => items_eq py_eq l l'
  | JObj m, JObj m' => members_eq py_eq m m'
  | _, _ =>
    match number_of a, number_of b with
    | Some x, Some y => num_eq x y
    | _, _ => false
    end
  end.

(** Two lists compare at their first pair of items that are not equal,
    and by their lengths when there is none. *)
Definition items_lt (lt : json → json → result bool)
    : list json → list json → result bool :=
  fix go l l' :=
    match l, l' with
    | [], [] => Ok false
    | [], _ :: _ => Ok true
    | _ :: _, [] => Ok false
    | x :: l, y :: l' => if same_by py_eq x y then go l l' else lt x y
    end.

(** [a < b]: numbers by value, strings and lists lexicographically;
    [None], dicts and operands of unrelated kinds raise [TypeError]. *)
Fixpoint py_lt (a b : json) {struct a} : result bool :=
  match a, b with
  | JStr s, JStr t => Ok (str_lt s t)
  | JArr l, JArr l' => items_lt py_lt l l'
  | _, _ =>
    match number_of a, number_of b with
    | Some x, Some y => Ok (num_lt x y)
    | _, _ => Raise TypeError
    end
  end.

(** [a < b] on two sort keys. *)
Definition key_lt (a b : json) : result bool := py_lt a b.

(** A NaN that [<] can reach in a key: the key itself or an item of a
    list key, at any depth. *)
Fixpoint lt_reaches_nan (v : json) : bool :=
  match v with
  | JFloat S754_nan => true
  | JArr l => existsb lt_reaches_nan l
  | _ => false
  end.

(** Stable insertion of a keyed item in front of a sorted list. *)
Fixpoint insert_keyed (x : json * json) (l : list (json * json))
    : result (list (json * json)) :=
  match l with
  | [] => Ok [x]
  | y :: l' =>
    lt ← key_lt y.1 x.1;
    if (lt : bool) then r ← insert_keyed x l'; Ok (y :: r)
    else Ok (x :: y :: l')
  end.

Fixpoint sort_keyed (l : list (json * json)) : result (list (json * json)) :=
  match l with
  | [] => Ok []
  | x :: l' => r ← sort_keyed l'; insert_keyed x r
  end.

Fixpoint with_keys (comments : list json) : result (list (json * json)) :=
  match comments with
  | [] => Ok []
  | c :: rest => k ← sort_key c; r ← with_keys rest; Ok ((k, c) :: r)
  end.

(** Keys on which the sort is followed: with a NaN where [<] reaches it,
    [<] is no order on the keys and the arrangement [list.sort] leaves
    depends on how it finds and merges its runs.  A list of at most one
    record is never compared. *)
Definition keys_ordered (keyed : list (json * json)) : bool :=
  (length keyed <=? 1)%nat || forallb (λ x, negb (lt_reaches_nan x.1)) keyed.

(** [comments.sort(key=...)]: the keys are computed first, then the list
    is sorted on them with [<] alone, equal keys keeping their order. *)
Definition sort_comments (comments : list json) : result (list json) :=
  keyed ← with_keys comments;
  if keys_ordered keyed then
    sorted ← sort_keyed keyed;
    Ok (map snd sorted)
  else Raise Unsupported.

(** ["=" * 100 + "\n"]. *)
Definition separator : pystr := replicate 100 61%N ++ newline.

(** The four [f.write] calls of one comment. *)
Definition comment_block (author datetime text comment_url : pystr)
    : list pystr :=
  [ u "Автор: " ++ author ++ newline;
    u "Дата: " ++ datetime ++ newline;
    u "Текст: " ++ text ++ newline;
    u "Ссылка: " ++ comment_url ++ newline ].

(** The report is opened with [encoding='utf-8']: a string with a
    surrogate code point (JSON can hold one, as "\ud800") cannot be
    encoded. *)
Definition utf8_encodable (s : pystr) : bool :=
  forallb (λ c, negb ((55296 <=? c) && (c <=? 57343))%N) s.

(** Successive [f.write] calls: a string is encoded when it is written,
    and the first that cannot be raises [UnicodeEncodeError]; what was
    written before reaches the file when the [with] block closes it. *)
Fixpoint write_all (strings written : list pystr) : list pystr * result unit :=
  match strings with
  | [] => (written, Ok ())
  | s :: rest =>
    if utf8_encodable s then write_all rest (written ++ [s])
    else (written, Raise UnicodeEncodeError)
  end.

(** The body of the [with open(...)] block: the strings that [f.write]
    took so far, and whether the loop ran to its end. *)
Fixpoint write_comments (comments : list json) (written : list pystr)
    : list pystr * result unit :=
  match comments with
  | [] => (written, Ok ())
  | comment :: rest =>
    let fields :=
      author ← dict_get comment (u "author") (JStr (u "Неизвестный автор"));
      datetime ← dict_get comment (u "datetime") (JStr (u "Дата неизвестна"));
      text ← dict_get comment (u "text") (JStr []);
      comment_id ← dict_get comment (u "id") (JStr (u "unknown"));
      article_url ← dict_get comment (u "article_url") (JStr []);
      directory_name ← dict_get comment (u "directory_name") (JStr []);
      comment_url ← get_comment_url directory_name article_url
                       (py_str comment_id);
      Ok (comment_block (py_str author) (py_str datetime) (py_str text)
            comment_url) in
    match fields with
    | Raise e => (written, Raise e)
    | Ok block =>
      let '(written, r) := write_all block written in
      match r with
      | Raise e => (written, Raise e)
      | Ok _ =>
        let written :=
          match rest with
          | [] => written
          | _ :: _ => written ++ [separator]
          end in
        write_comments rest written
      end
    end
  end.

(** ** The run *)

(** The part of the file system [main] looks at. *)
Record FileSystem := {
  is_dir : Path → bool;
  glob_json : Path → list Path;
  read_json : Path → file_content
}.

(** [total_files_to_process] after the first loop of [main]. *)
Fixpoint count_files (fs : FileSystem) (dirs : list Path) : nat :=
  match dirs with
  | [] => 0
  | directory :: rest =>
    (if is_dir fs directory then length (glob_json fs directory) else 0)
    + count_files fs rest
  end.

(** [grouped[directory].extend(items)] on a [defaultdict(list)], kept in
    insertion order. *)
Fixpoint extend_group (grouped : list (Path * list json)) (directory : Path)
    (items : list json) : list (Path * list json) :=
  match grouped with
  | [] => [(directory, items)]
  | (d, comments) :: rest =>
    if bool_decide (d = directory) then (d, comments ++ items) :: rest
    else (d, comments) :: extend_group rest directory items
  end.

(** What the processing loop has built: the warnings printed and
    [grouped_positive_comments]. *)
Record progress := {
  printed : list pystr;
  grouped : list (Path * list json)
}.

Fixpoint process_files (fs : FileSystem) (analyzer : SentimentAnalyzer)
    (directory : Path) (files : list Path) (st : progress)
    : progress * result unit :=
  match files with
  | [] => (st, Ok ())
  | file_path :: rest =>
    let '(out, r) :=
      process_json_file (read_json fs file_path) (path_name file_path)
        analyzer (path_name directory) in
    let st := {| printed := printed st ++ out; grouped := grouped st |} in
    match r with
    | Raise e => (st, Raise e)
    | Ok positive_comments =>
      let st :=
        match positive_comments with
        | [] => st
        | _ :: _ =>
          {| printed := printed st;
             grouped := extend_group (grouped st) directory positive_comments |}
        end in
      process_files fs analyzer directory rest st
    end
  end.

Fixpoint process_dirs (fs : FileSystem) (analyzer : SentimentAnalyzer)
    (dirs : list Path) (st : progress) : progress * result unit :=
  match dirs with
  | [] => (st, Ok ())
  | directory :: rest =>
    if negb (is_dir fs directory) then process_dirs fs analyzer rest st
    else
      let '(st, r) :=
        process_files fs analyzer directory (glob_json fs directory) st in
      match r with
      | Raise e => (st, Raise e)
      | Ok _ => process_dirs fs analyzer rest st
      end
  end.

Definition output_file (directory : Path) : Path :=
  path_join directory (path_name directory ++ u "_positive_comments.txt").

(** The saving loop: the files opened for writing with what reached them,
    in the order they were opened. *)
Fixpoint save_groups (groups : list (Path * list json))
    (files : list (Path * pystr)) : list (Path * pystr) * result unit :=
  match groups with
  | [] => (files, Ok ())
  | (directory, comments) :: rest =>
    match sort_comments comments with
    | Raise e => (files, Raise e)
    | Ok comments =>
      let '(written, r) := write_comments comments [] in
      let files := files ++ [(output_file directory, concat written)] in
      match r with
      | Raise e => (files, Raise e)
      | Ok _ => save_groups rest files
      end
    end
  end.

(** What a run leaves: the read warnings of [process_json_file] (the
    other console messages of [main] are not followed), the files opened
    for writing with their contents, and how [main] ended. *)
Record outcome := {
  read_warnings : list pystr;
  files_written : list (Path * pystr);
  status : result unit
}.

(** [main] once the model is loaded; an exception that escapes is the
    [status] ([__main__] turns it into exit code 1). *)
Definition main (fs : FileSystem) (analyzer : SentimentAnalyzer) : outcome :=
  let dirs := INPUT_DIRS (config analyzer) in
  if bool_decide (count_files fs dirs = 0)
  then {| read_warnings := []; files_written := [];
          status := Raise (SystemExit 1) |}
  else
    let '(st, r) := process_dirs fs analyzer dirs {| printed := []; grouped := [] |} in
    match r with
    | Raise e =>
      {| read_warnings := printed st; files_written := []; status := Raise e |}
    | Ok _ =>
      let '(files, r) := save_groups (grouped st) [] in
      {| read_warnings := printed st; files_written := files; status := r |}
    end.

End Analyzer.

(** ** Stand-ins for the closed examples *)

(** Scores in thousandths, compared as integers. *)
Definition score_geb_demo (a b : Z) : bool := (b <=? a)%Z.

Fixpoint argmax_from (best : Z) (best_index index : nat) (l : list Z) : nat :=
  match l with
  | [] => best_index
  | x :: rest =>
    if (best <? x)%Z then argmax_from x index (S index) rest
    else argmax_from best best_index (S index) rest
  end.

(** First index of the largest score; an empty array has none. *)
Definition argmax_demo (l : list Z) : result nat :=
  match l with
  | [] => Raise ValueError
  | x :: rest => Ok (argmax_from x 0 1 rest)
  end.

Definition repr_demo (v : json) : pystr := u "<repr>".

(** A toy model over the three labels. *)
Definition predict_demo (text : json) : result (list Z) :=
  match text with
  | JStr s =>
    if str_in (u "love") s then Ok [20; 30; 950]%Z
    else if str_in (u "hate") s then Ok [900; 50; 10]%Z
    else Ok [100; 800; 100]%Z
  | _ => Raise TypeError
  end.

Definition id2label_demo : gmap nat (list N) :=
  <[0 := u "negative"]> (<[1 := u "neutral"]> (<[2 := u "positive"]> ∅)).

Definition config_demo : Config := {|
  POSITIVE_THRESHOLD := 900%Z;
  EXCLUDE_AUTHORS := EXCLUDE_AUTHORS_of ∅;
  MIN_COMMENT_LENGTH := 20;
  INPUT_DIRS := [[u "habr_comments"]; [u "smart-lab_comments"]; [u "t-j_comments"]]
|}.

Definition analyzer_demo : SentimentAnalyzer := {|
  config := config_demo;
  predict := predict_demo;
  id2label := id2label_demo
|}.

(** A model that cannot be called. *)
Definition analyzer_broken : SentimentAnalyzer := {|
  config := config_demo;
  predict := λ _, Raise ValueError;
  id2label := ∅
|}.

Definition text_thanks : pystr := u "Это очень ПОЛЕЗНО, так держать".
Definition text_short : pystr := u "love it".

(** The excluded authors as the specification words them: whitespace and
    quote characters are trimmed from the whole string, then from each
    element in the same way. *)
Definition is_space_or_quote (c : N) : bool :=
  is_space c || (c =? 34)%N || (c =? 39)%N.

Definition exclude_authors_as_specified (exclude_str : pystr) : gset (list N) :=
  list_to_set
    (filter (λ author, author ≠ [])
       (map (strip_by is_space_or_quote)
          (str_split (u ",") (strip_by is_space_or_quote exclude_str)))).

(** The keys the sort is followed on: integers and strings. *)
Inductive sortable :=
| KInt (z : Z)
| KStr (s : pystr).

#[export] Instance sortable_eq_dec : EqDecision sortable.
Proof. solve_decision. Defined.

Definition sortable_of (k : json) : option sortable :=
  match k with
  | JInt z => Some (KInt z)
  | JBool b => Some (KInt (Z.b2z b))
  | JStr s => Some (KStr s)
  | _ => None
  end.

(** The key a record sorts by: an absent or null id counts as 0. *)
Definition record_key (c : json) : option sortable :=
  match sort_key c with
  | Ok k => sortable_of k
  | Raise _ => None
  end.

Definition has_int_id (c : json) : bool :=
  match record_key c with Some (KInt _) => true | _ => false end.

Definition has_str_id (c : json) : bool :=
  match record_key c with Some (KStr _) => true | _ => false end.

(** Ids that compare with each other: all integers (null and absent
    included), or all strings. *)
Definition uniform_ids (comments : list json) : Prop :=
  Forall (λ c, has_int_id c = true) comments
  ∨ Forall (λ c, has_str_id c = true) comments.

(** [a <= b] on keys of one kind, that is [not (b < a)]. *)
Definition sortable_le (a b : sortable) : Prop :=
  match a, b with
  | KInt x, KInt y => (x ≤ y)%Z
  | KStr s, KStr t => str_lt t s = false
  | _, _ => False
  end.

(** The order of records the sort aims at. *)
Definition by_id (a b : json) : Prop :=
  match record_key a, record_key b with
  | Some ka, Some kb => sortable_le ka kb
  | _, _ => False
  end.

Definition rank_int (c : json) : Z :=
  match record_key c with Some (KInt z) => z | _ => 0%Z end.

Definition rank_str (c : json) : pystr :=
  match record_key c with Some (KStr s) => s | _ => [] end.

Definition field (key : string) (v : json) : list N * json := (u key, v).
Definition record (fields : list (list N * json)) : json :=
  JObj (list_to_map fields).

Definition comment_5 : json := record [field "id" (JInt 5); field "text" (JStr (u "e"))].
Definition comment_null : json := record [field "id" (JNull); field "text" (JStr (u "n"))].
Definition comment_2a : json := record [field "id" (JInt 2); field "text" (JStr (u "first"))].
Definition comment_2b : json := record [field "id" (JInt 2); field "text" (JStr (u "second"))].
Definition comment_a : json := record [field "id" (JStr (u "a"))].
Definition comment_b : json := record [field "id" (JStr (u "b"))].
Definition comment_no_id : json := record [field "text" (JStr (u "m"))].

(** [c.get(k, dflt)] on a record. *)
Definition field_or (c : json) (k : pystr) (dflt : json) : json :=
  match c with
  | JObj m => default dflt (m !! k)
  | _ => dflt
  end.

(** The line feed that ends a line of the report. *)
Definition line_feed : pystr := [10%N].

(** Blocks of written lines with one separator between neighbours. *)
Fixpoint interleave (sep : pystr) (blocks : list (list pystr)) : list pystr :=
  match blocks with
  | [] => []
  | block :: rest =>
    match rest with
    | [] => block
    | _ :: _ => block ++ sep :: interleave sep rest
    end
  end.

Definition comment_hello : json :=
  record [field "id" (JInt 7); field "author" (JStr (u "reader"));
          field "datetime" (JStr (u "2025-10-04"));
          field "text" (JStr (u "I love this article a lot"));
          field "article_url" (JStr (u "https://habr.com/ru/articles/12345/"));
          field "directory_name" (JStr (u "habr_comments"))].

(** The block written for one record. *)
Definition block_of (str_lower : pystr → pystr) (py_repr : json → pystr)
    (c : json) (block : list pystr) : Prop :=
  ∃ comment_url,
    get_comment_url str_lower py_repr
      (field_or c (u "directory_name") (JStr []))
      (field_or c (u "article_url") (JStr []))
      (py_str py_repr (field_or c (u "id") (JStr (u "unknown"))))
    = Ok comment_url
    ∧ block =
      [ u "Автор: "
          ++ py_str py_repr
               (field_or c (u "author") (JStr (u "Неизвестный автор")))
          ++ line_feed;
        u "Дата: "
          ++ py_str py_repr
               (field_or c (u "datetime") (JStr (u "Дата неизвестна")))
          ++ line_feed;
        u "Текст: " ++ py_str py_repr (field_or c (u "text") (JStr []))
          ++ line_feed;
        u "Ссылка: " ++ comment_url ++ line_feed ].

Definition comment_thanks : json :=
  record [field "id" (JInt 3); field "author" (JStr (u "guest"));
          field "datetime" (JStr (u "2025-10-05"));
          field "text" (JStr text_thanks);
          field "article_url" (JStr (u "https://habr.com/ru/articles/12345/"));
          field "directory_name" (JStr (u "habr_comments"))].

(** A comment carrying a field the program does not know. *)
Definition comment_raw : json :=
  record [field "id" (JInt 7); field "author" (JStr (u "reader"));
          field "text" (JStr (u "I love this article a lot"));
          field "likes" (JInt 12)].

Definition file_demo : json :=
  record [field "url" (JStr (u "https://habr.com/ru/articles/12345/"));
          field "comments" (JArr [comment_raw])].

(** The warning printed for a file that cannot be read or parsed. *)
Definition read_warning (file_name e : pystr) : pystr :=
  newline ++ u "⚠️  Ошибка чтения " ++ file_name ++ u ": " ++ e.

(** A directory with a file from which some comment is accepted. *)
Definition accepts_some {score : Type} (score_geb : score → score → bool)
    (argmax : list score → result nat) (str_lower : pystr → pystr)
    (fs : FileSystem) (analyzer : SentimentAnalyzer) (directory : Path) : Prop :=
  ∃ file c cs,
    file ∈ glob_json fs directory
    ∧ (process_json_file score_geb argmax str_lower (read_json fs file)
         (path_name file) analyzer (path_name directory)).2 = Ok (c :: cs).

(** [comment_raw] as it is returned for [file_demo] in "habr_comments". *)
Definition comment_accepted : json :=
  record [field "id" (JInt 7); field "author" (JStr (u "reader"));
          field "text" (JStr (u "I love this article a lot"));
          field "likes" (JInt 12);
          field "article_url" (JStr (u "https://habr.com/ru/articles/12345/"));
          field "directory_name" (JStr (u "habr_comments"))].

(** A file whose only comment is too short. *)
Definition file_quiet : json :=
  record [field "url" (JStr (u "https://t-j.ru/some-article/"));
          field "comments"
            (JArr [record [field "id" (JInt 1); field "author" (JStr (u "guest"));
                           field "text" (JStr text_short)]])].

Definition habr_dir : Path := [u "habr_comments"].
Definition tj_dir : Path := [u "t-j_comments"].
Definition habr_file : Path := [u "habr_comments"; u "1.json"].
Definition broken_file : Path := [u "habr_comments"; u "broken.json"].
Definition tj_file : Path := [u "t-j_comments"; u "2.json"].
Definition parse_error : pystr := u "Expecting value: line 1 column 1 (char 0)".

(** Two directories: one with a good and a broken file, one whose only
    file yields nothing; the third input directory does not exist. *)
Definition fs_demo : FileSystem := {|
  is_dir := λ p, bool_decide (p = habr_dir) || bool_decide (p = tj_dir);
  glob_json := λ p,
    if bool_decide (p = habr_dir) then [broken_file; habr_file]
    else if bool_decide (p = tj_dir) then [tj_file]
    else [];
  read_json := λ f,
    if bool_decide (f = habr_file) then Loaded file_demo
    else if bool_decide (f = tj_file) then Loaded file_quiet
    else Unreadable parse_error
|}.

(** A written string that is one line of the file: a body without line
    break, and the line break. *)
Definition single_line (w : pystr) : Prop :=
  ∃ body, w = body ++ line_feed ∧ 10%N ∉ body.

(** The lines of a file, as [content.split("\n")] gives them. *)
Definition file_lines (content : pystr) : list pystr :=
  str_split line_feed content.

(** ** Values, their kinds and sizes *)

Fixpoint json_size (v : json) : nat :=
  match v with
  | JArr l => S (list_sum (map json_size l))
  | JObj m => S (map_fold (λ _ v acc, json_size v + acc) 0 m)
  | _ => 1
  end.

(** Equality of two items of containers. *)
Abbreviation py_same := (same_by py_eq).

(** A value in which [<] reaches no NaN. *)
Abbreviation nan_free v := (lt_reaches_nan v = false).

Definition is_object (v : json) : bool :=
  match v with JObj _ => true | _ => false end.

Definition is_number (v : json) : bool :=
  match v with JBool _ | JInt _ | JFloat _ => true | _ => false end.

Inductive kind := NullKind | NumberKind | StrKind | ArrKind | ObjKind.

#[export] Instance kind_eq_dec : EqDecision kind.
Proof. solve_decision. Defined.

Definition kind_of (v : json) : kind :=
  match v with
  | JNull => NullKind
  | JBool _ | JInt _ | JFloat _ => NumberKind
  | JStr _ => StrKind
  | JArr _ => ArrKind
  | JObj _ => ObjKind
  end.

(** ** The last piece of a split, in words

    [sep] ends [a ++ sep] and occurs nowhere before that in it: a scan
    from the left that has [a ++ sep] in front of it finds [sep] right
    after [a]. *)
Definition first_after (sep a : pystr) : Prop :=
  ∀ x y, a ++ sep = x ++ sep ++ y → y = [].

(** The string is cut at its first [sep], what follows at its first
    [sep], and so on; the last piece is what is left without [sep]. *)
Inductive last_piece (sep : pystr) : pystr → pystr → Prop :=
| last_piece_whole (s : pystr) :
    str_in sep s = false → last_piece sep s s
| last_piece_cut (a b t : pystr) :
    first_after sep a → last_piece sep b t →
    last_piece sep (a ++ sep ++ b) t.

(** What precedes the first "/" of a string, or all of it. *)
Definition up_to_slash (s a : pystr) : Prop :=
  (47%N ∉ a) ∧ (s = a ∨ ∃ b, s = a ++ 47%N :: b).

(** ** The order of ids, in words *)

(** The id a record sorts by: an absent or null id counts as 0. *)
Definition id_of (c : json) : json :=
  match field_or c (u "id") JNull with
  | JNull => JInt 0
  | id => id
  end.

(** [a <= b] on the values of two numbers. *)
Definition num_le (a b : number) : Prop :=
  match a, b with
  | NaN, _ | _, NaN => False
  | NegInf, _ | _, PosInf => True
  | Finite x, Finite y => Qle x y
  | _, _ => False
  end.

(** An id that is not after another: numbers by value, strings
    lexicographically by code point, lists as [<] orders them. *)
Definition id_le (a b : json) : Prop :=
  match number_of a, number_of b with
  | Some x, Some y => num_le x y
  | _, _ =>
    match a, b with
    | JStr s, JStr t => str_lt t s = false
    | JArr _, JArr _ => key_lt b a = Ok false
    | _, _ => False
    end
  end.

(** A keyed record that [<] does not put after another. *)
Definition key_le (x y : json * json) : Prop := key_lt y.1 x.1 = Ok false.

(** Two ids that [<] compares, either way round. *)
Definition comparable (a b : json) : Prop :=
  ∃ r r', key_lt a b = Ok r ∧ key_lt b a = Ok r'.

(** Records the sort puts in order: objects, each two ids comparable,
    and no NaN within reach of [<] unless the list is too short to be
    compared at all. *)
Definition sortable_ids (comments : list json) : Prop :=
  Forall (λ c, is_object c = true) comments
  ∧ (length comments ≤ 1 ∨ Forall (λ c, nan_free (id_of c)) comments)
  ∧ ForallOrdPairs (λ a b, comparable (id_of a) (id_of b)) comments.

Definition comment_2_5 : json :=
  record [field "id" (JFloat (S754_finite false 5 (-1)));
          field "text" (JStr (u "half"))].
Definition comment_2_0 : json :=
  record [field "id" (JFloat (S754_finite false 1 1));
          field "text" (JStr (u "float"))].
Definition comment_true : json :=
  record [field "id" (JBool true); field "text" (JStr (u "t"))].
Definition comment_nan : json :=
  record [field "id" (JFloat S754_nan); field "text" (JStr (u "x"))].
Definition comment_list_1_2 : json :=
  record [field "id" (JArr [JInt 1; JInt 2])].
Definition comment_list_1 : json :=
  record [field "id" (JArr [JFloat (S754_finite false 1 0)])].

(** ** The report of a directory, in words *)

(** The line of 100 "=", and the string that writes it. *)
Definition separator_line : pystr := replicate 100 61%N.
Definition report_separator : pystr := separator_line ++ line_feed.

(** The accepted comments of a directory: what [process_json_file]
    returns for its JSON files, in the order of the files. *)
Definition accepted_comments {score : Type} (score_geb : score → score → bool)
    (argmax : list score → result nat) (str_lower : pystr → pystr)
    (fs : FileSystem) (analyzer : SentimentAnalyzer) (directory : Path)
    : list json :=
  concat
    (map (λ file,
            match (process_json_file score_geb argmax str_lower
                     (read_json fs file) (path_name file) analyzer
                     (path_name directory)).2 with
            | Ok accepted => accepted
            | Raise _ => []
            end)
       (glob_json fs directory)).

(** The comments kept for a directory in [grouped_positive_comments]. *)
Definition group_of (groups : list (Path * list json)) (directory : Path)
    : list json :=
  concat (map snd (filter (λ g, g.1 = directory) groups)).

(** A record whose block goes into the report: it is an object, its
    link can be built and its four lines can be encoded. *)
Definition writable (str_lower : pystr → pystr) (py_repr : json → pystr)
    (c : json) : Prop :=
  is_object c = true
  ∧ ∃ block, block_of str_lower py_repr c block
             ∧ Forall (λ w, utf8_encodable w = true) block.

(** A text of three lines, the middle one being 100 "=". *)
Definition text_with_rule : pystr :=
  u "I love this article" ++ line_feed ++ separator_line ++ line_feed
  ++ u "and the next one".

Definition file_with_rule : json :=
  record [field "url" (JStr (u "https://habr.com/ru/articles/12345/"));
          field "comments"
            (JArr [record [field "id" (JInt 7);
                           field "author" (JStr (u "reader"));
                           field "datetime" (JStr (u "2025-10-04"));
                           field "text" (JStr text_with_rule)]])].

(** One directory with one file, whose only comment is accepted. *)
Definition fs_rule : FileSystem := {|
  is_dir := λ p, bool_decide (p = habr_dir);
  glob_json := λ p, if bool_decide (p = habr_dir) then [habr_file] else [];
  read_json := λ _, Loaded file_with_rule
|}.

(** A record whose author holds a lone surrogate. *)
Definition comment_surrogate : json :=
  record [field "id" (JInt 8); field "author" (JStr [55296%N]);
          field "text" (JStr text_thanks);
          field "article_url" (JStr (u "https://habr.com/ru/articles/12345/"));
          field "directory_name" (JStr (u "habr_comments"))].

(** ** The override file *)

(** [s.split(sep, 1)]. *)
Definition str_split1 (sep s : pystr) : list pystr :=
  match str_find sep s with
  | Some (a, b) => [a; b]
  | None => [s]
  end.

(** [sep.join(pieces)]. *)
Fixpoint str_join (sep : pystr) (pieces : list pystr) : pystr :=
  match pieces with
  | [] => []
  | piece :: rest =>
    match rest with
    | [] => piece
    | _ :: _ => piece ++ sep ++ str_join sep rest
    end
  end.

(** [os.environ[key] = value] (CPython 3.9 and later, on Linux): a NUL in
    the name or in the value is refused with [ValueError] when the two
    are converted, and an empty name with [OSError] by [setenv].  The
    name holds no "=" here, and a line decoded from UTF-8 holds no
    surrogate. *)
Definition environ_set (key value : pystr) (environ : gmap (list N) (list N))
    : result (gmap (list N) (list N)) :=
  if bool_decide (0%N ∈ key) || bool_decide (0%N ∈ value)
  then Raise ValueError
  else if bool_decide (key = []) then Raise OSError
  else Ok (<[key := value]> environ).

(** The body of the loop of [load_env_file] for one line of the file. *)
Definition load_env_line (line : pystr) (environ : gmap (list N) (list N))
    : result (gmap (list N) (list N)) :=
  let line := str_strip line in
  if bool_decide (line ≠ [])
     && negb (bool_decide (is_Some (strip_prefix (u "#") line)))
     && str_in (u "=") line
  then
    match str_split1 (u "=") line with
    | [key; value] =>
      let value :=
        str_strip_chars (u "'") (str_strip_chars dquote (str_strip value)) in
      environ_set (str_strip key) value environ
    | _ => Raise ValueError
    end
  else Ok environ.

Fixpoint load_env_lines (lines : list pystr)
    (environ : gmap (list N) (list N)) : result (gmap (list N) (list N)) :=
  match lines with
  | [] => Ok environ
  | line :: rest =>
    environ ← load_env_line line environ;
    load_env_lines rest environ
  end.

(** [load_env_file]: [None] when config.env does not exist, otherwise the
    lines of the file, which is read as UTF-8 text. *)
Definition load_env_file (env_file : option (list pystr))
    (environ : gmap (list N) (list N)) : result (gmap (list N) (list N)) :=
  match env_file with
  | None => Ok environ
  | Some lines => load_env_lines lines environ
  end.

(** A line that the loop acts on as [key=value], with what it stores. *)
Definition assignment_of (line : pystr) : option (pystr * pystr) :=
  let line := str_strip line in
  if bool_decide (line ≠ [])
     && negb (bool_decide (is_Some (strip_prefix (u "#") line)))
  then
    match str_find (u "=") line with
    | Some (key, value) =>
      Some (str_strip key,
            str_strip_chars (u "'") (str_strip_chars dquote (str_strip value)))
    | None => None
    end
  else None.

(** A name and a value the environment takes. *)
Definition storable (key value : pystr) : Prop :=
  key ≠ [] ∧ (0%N ∉ key) ∧ (0%N ∉ value).

(** ** Ingestion, restated on whole lists *)

(** A record with a text and an author that count as present. *)
Definition eligible (c : json) : bool :=
  truthy (field_or c (u "text") (JStr []))
  && truthy (field_or c (u "author") (JStr [])).

(** The two assignments of lines 198-199. *)
Definition annotate (article_url : json) (directory_name : pystr) (c : json)
    : json :=
  dict_set (dict_set c (u "article_url") article_url)
    (u "directory_name") (JStr directory_name).

(** The verdict on a record, when it is reached and given. *)
Definition accepts {score : Type} (score_geb : score → score → bool)
    (argmax : list score → result nat) (str_lower : pystr → pystr)
    (analyzer : SentimentAnalyzer) (c : json) : bool :=
  eligible c
  && match is_positive_comment score_geb argmax str_lower analyzer
             (field_or c (u "text") (JStr []))
             (field_or c (u "author") (JStr [])) with
     | Ok true => true
     | _ => false
     end.

(** A record on which the loop does not raise: an object, judged without
    exception when it is eligible. *)
Definition judged {score : Type} (score_geb : score → score → bool)
    (argmax : list score → result nat) (str_lower : pystr → pystr)
    (analyzer : SentimentAnalyzer) (c : json) : Prop :=
  (∃ m, c = JObj m)
  ∧ (eligible c = true →
     ∃ b, is_positive_comment score_geb argmax str_lower analyzer
            (field_or c (u "text") (JStr []))
            (field_or c (u "author") (JStr [])) = Ok b).

(** A record kept for a directory in [grouped_positive_comments]. *)
Definition holds (groups : list (Path * list json)) (directory : Path)
    (c : json) : Prop :=
  ∃ comments, (directory, comments) ∈ groups ∧ c ∈ comments.

(** ** More stand-ins *)

(** A comments array with a stray string after a good record. *)
Definition fields_stray : gmap (list N) json :=
  list_to_map [field "url" (JStr (u "https://habr.com/ru/articles/1/"));
               field "comments" (JArr [comment_raw; JStr (u "oops")])].

(** The directories of [fs_demo], with a JSON array in place of the
    document of the t-j file. *)
Definition fs_array : FileSystem := {|
  is_dir := is_dir fs_demo;
  glob_json := glob_json fs_demo;
  read_json := λ f,
    if bool_decide (f = tj_file) then Loaded (JArr []) else read_json fs_demo f
|}.

(** No input directory exists. *)
Definition fs_empty : FileSystem := {|
  is_dir := λ _, false;
  glob_json := λ _, [];
  read_json := λ _, Unreadable []
|}.

Definition fields_demo : gmap (list N) json :=
  list_to_map [field "url" (JStr (u "https://habr.com/ru/articles/12345/"));
               field "comments" (JArr [comment_raw; comment_no_id])].

(** A name as it is meant to be listed: not empty, without comma, and
    neither starting nor ending with whitespace. *)
Definition clean_name (name : pystr) : Prop :=
  name ≠ [] ∧ (44%N ∉ name)
  ∧ (∀ c, head name = Some c → is_space c = false)
  ∧ (∀ c, last name = Some c → is_space c = false).

Definition is_quote (c : N) : bool := (c =? 34)%N || (c =? 39)%N.

(** The assignments a list of lines makes, in order. *)
Definition assignments (lines : list pystr) : list (pystr * pystr) :=
  omap assignment_of lines.

(** The value the last assignment to [key] gives it, if any. *)
Definition last_assigned (key : pystr) (kvs : list (pystr * pystr))
    : option pystr :=
  snd <$> last (filter (λ kv, kv.1 = key) kvs).

Definition names_demo : list pystr := [u "empenoso"; u "Михаил Шардин"].

Definition env_lines_demo : list pystr :=
  [ u "# thresholds" ++ newline;
    newline;
    u "POSITIVE_THRESHOLD=0.5" ++ newline;
    u "  POSITIVE_THRESHOLD = '0.8'  " ++ newline;
    u "EXCLUDE_AUTHORS=" ++ dquote ++ u "bot, admin" ++ dquote ++ newline ].

Definition environ_demo : gmap (list N) (list N) :=
  <[u "POSITIVE_THRESHOLD" := u "1.0"]> (<[u "DEVICE" := u "cpu"]> ∅).

(** A model of two labels, for which index 2 is out of range. *)
Definition analyzer_two_labels : SentimentAnalyzer := {|
  config := config_demo;
  predict := λ _, Ok [100; 900]%Z;
  id2label := <[0 := u "negative"]> (<[1 := u "positive"]> ∅)
|}.

(** A record whose [article_url] is a number. *)
Definition comment_bad_url : json :=
  record [field "id" (JInt 9); field "author" (JStr (u "guest"));
          field "text" (JStr text_thanks);
          field "article_url" (JInt 5);
          field "directory_name" (JStr (u "habr_comments"))].

(** * Facts about the string operations *)

Lemma strip_prefix_Some (p s r : pystr) :
  strip_prefix p s = Some r ↔ s = p ++ r.
Proof.
  revert s. induction p as [|a p IH]; intros s; simpl.
  - split; congruence.
  - destruct s as [|b s]; [split; discriminate|].
    destruct (N.eqb_spec a b) as [->|Hne].
    + rewrite IH. split; congruence.
    + split; [discriminate|]. intros [= -> _]. done.
Qed.

Lemma strip_prefix_app (p s r t : pystr) :
  strip_prefix p s = Some r → strip_prefix p (s ++ t) = Some (r ++ t).
Proof.
  rewrite !strip_prefix_Some. intros ->. by rewrite <- app_assoc.
Qed.

Lemma str_find_Some (sep s a b : pystr) :
  str_find sep s = Some (a, b) → s = a ++ sep ++ b.
Proof.
  revert a. induction s as [|c s IH]; intros a; simpl.
  - destruct (strip_prefix sep []) eqn:E; [|discriminate].
    intros [= <- <-]. by apply strip_prefix_Some in E.
  - destruct (strip_prefix sep (c :: s)) eqn:E.
    + intros [= <- <-]. by apply strip_prefix_Some in E.
    + destruct (str_find sep s) as [[a' b']|]; [|discriminate].
      intros [= <- <-]. simpl. f_equal. by apply IH.
Qed.

Lemma str_find_unfold (sep s : pystr) :
  str_find sep s =
  match strip_prefix sep s with
  | Some rest => Some ([], rest)
  | None =>
    match s with
    | [] => None
    | c :: s' =>
      match str_find sep s' with
      | Some (a, b) => Some (c :: a, b)
      | None => None
      end
    end
  end.
Proof. by destruct s. Qed.

Lemma str_find_app (sep a b : pystr) :
  is_Some (str_find sep (a ++ sep ++ b)).
Proof.
  induction a as [|c a IH]; simpl.
  - rewrite str_find_unfold.
    assert (strip_prefix sep (sep ++ b) = Some b) as ->
      by by apply strip_prefix_Some.
    eauto.
  - destruct (strip_prefix sep (c :: a ++ sep ++ b)); [eauto|].
    destruct IH as [[a' b'] ->]. eauto.
Qed.

(** [needle in hay] holds exactly when [hay] has [needle] as a factor. *)
Lemma str_in_spec (needle hay : pystr) :
  str_in needle hay = true ↔ ∃ a b, hay = a ++ needle ++ b.
Proof.
  unfold str_in. rewrite bool_decide_eq_true. split.
  - intros [[a b] E]. exists a, b. by apply str_find_Some.
  - intros (a & b & ->). apply str_find_app.
Qed.

Lemma str_in_false (needle hay : pystr) :
  str_in needle hay = false ↔ str_find needle hay = None.
Proof.
  unfold str_in. rewrite bool_decide_eq_false, <- eq_None_not_Some. done.
Qed.

(** What precedes the first occurrence holds no occurrence. *)
Lemma str_find_first (sep s a b : pystr) :
  sep ≠ [] → str_find sep s = Some (a, b) → str_in sep a = false.
Proof.
  intros Hsep. revert a. induction s as [|c s IH]; intros a; simpl.
  - destruct (strip_prefix sep []) eqn:E.
    + apply strip_prefix_Some in E. by destruct sep.
    + discriminate.
  - destruct (strip_prefix sep (c :: s)) eqn:E.
    + intros [= <- <-]. apply str_in_false. by destruct sep.
    + destruct (str_find sep s) as [[a' b']|] eqn:F; [|discriminate].
      intros [= <- <-]. apply str_in_false. simpl.
      destruct (strip_prefix sep (c :: a')) eqn:E'.
      * apply str_find_Some in F. subst s.
        apply (strip_prefix_app _ _ _ (sep ++ b')) in E'.
        simpl in E'. congruence.
      * specialize (IH a' eq_refl). apply str_in_false in IH. by rewrite IH.
Qed.

Lemma split_go_nonempty fuel sep s : split_go fuel sep s ≠ [].
Proof. destruct fuel; simpl; [done|]. by destruct (str_find sep s) as [[??]|]. Qed.

(** A string without the separator is the only piece. *)
Lemma str_split_absent (sep s : pystr) :
  str_in sep s = false → str_split sep s = [s].
Proof.
  intros H%str_in_false. unfold str_split.
  destruct (length s); simpl; [done|]. by rewrite H.
Qed.

(** The first piece is what precedes the first separator. *)
Lemma str_split_first (sep s : pystr) :
  sep ≠ [] →
  let a := py_first (str_split sep s) in
  str_in sep a = false ∧ (s = a ∨ ∃ b, s = a ++ sep ++ b).
Proof.
  intros Hsep. unfold str_split.
  destruct (str_find sep s) as [[a b]|] eqn:F.
  - destruct (length s) eqn:L.
    + destruct s; [|done]. simpl in F.
      destruct (strip_prefix sep []) eqn:E; [|done].
      apply strip_prefix_Some in E. by destruct sep.
    + simpl. rewrite F. simpl. split; [by eapply str_find_first|].
      right. exists b. by apply str_find_Some.
  - assert (split_go (length s) sep s = [s]) as ->.
    { destruct (length s); simpl; [done|]. by rewrite F. }
    simpl. split; [by apply str_in_false|by left].
Qed.

Lemma split_go_pieces (fuel : nat) (sep s : pystr) :
  sep ≠ [] → length s ≤ fuel →
  Forall (λ piece, str_in sep piece = false) (split_go fuel sep s).
Proof.
  intros Hsep. revert s. induction fuel as [|fuel IH]; intros s Hlen; simpl.
  - destruct s; [|simpl in Hlen; lia]. constructor; [|done].
    apply str_in_false. by destruct sep.
  - destruct (str_find sep s) as [[a b]|] eqn:F.
    + constructor; [by eapply str_find_first|].
      apply IH. apply str_find_Some in F. subst s.
      rewrite !length_app in Hlen. destruct sep; [done|]. simpl in Hlen. lia.
    + constructor; [by apply str_in_false|done].
Qed.

(** No piece of a split holds the separator. *)
Lemma str_split_pieces (sep s : pystr) :
  sep ≠ [] → Forall (λ piece, str_in sep piece = false) (str_split sep s).
Proof. intros. by apply split_go_pieces. Qed.

(** A factor of a string without [sep] is without [sep]. *)
Lemma str_in_factor (sep l s r : pystr) :
  str_in sep (l ++ s ++ r) = false → str_in sep s = false.
Proof.
  intros H. apply not_true_is_false. intros (a & b & ->)%str_in_spec.
  assert (str_in sep (l ++ (a ++ sep ++ b) ++ r) = true) as E; [|congruence].
  apply str_in_spec. exists (l ++ a), (b ++ r). by rewrite <- !app_assoc.
Qed.

(** [lstrip_by] removes the longest prefix of characters satisfying [p]. *)
Lemma lstrip_by_spec (p : N → bool) (s : pystr) :
  ∃ l, s = l ++ lstrip_by p s
       ∧ Forall (λ c, p c = true) l
       ∧ ∀ c, head (lstrip_by p s) = Some c → p c = false.
Proof.
  induction s as [|c s (l & E & Hl & Hh)]; simpl.
  - exists []. split; [done|]. split; [done|]. intros c [=].
  - destruct (p c) eqn:Hc.
    + exists (c :: l). split; [by rewrite E at 1|]. split; [by constructor|done].
    + exists []. split; [done|]. split; [done|]. intros c' [= <-]. done.
Qed.

Lemma rstrip_by_spec (p : N → bool) (s : pystr) :
  ∃ r, s = rstrip_by p s ++ r
       ∧ Forall (λ c, p c = true) r
       ∧ ∀ c, last (rstrip_by p s) = Some c → p c = false.
Proof.
  unfold rstrip_by.
  destruct (lstrip_by_spec p (rev s)) as (l & E & Hl & Hh).
  exists (rev l). split; [|split].
  - rewrite <- rev_app_distr, <- E. by rewrite rev_involutive.
  - by apply Forall_rev.
  - intros c Hc. apply Hh. rewrite <- Hc.
    rewrite (rev_alt (lstrip_by p (rev s))). symmetry. apply last_reverse.
Qed.

(** [strip_by] removes such characters at both ends and nothing else. *)
Lemma strip_by_spec (p : N → bool) (s : pystr) :
  ∃ l r, s = l ++ strip_by p s ++ r
         ∧ Forall (λ c, p c = true) l
         ∧ Forall (λ c, p c = true) r
         ∧ (∀ c, head (strip_by p s) = Some c → p c = false)
         ∧ (∀ c, last (strip_by p s) = Some c → p c = false).
Proof.
  unfold strip_by.
  destruct (lstrip_by_spec p s) as (l & E & Hl & Hh).
  destruct (rstrip_by_spec p (lstrip_by p s)) as (r & E' & Hr & Hlast).
  exists l, r. split; [by rewrite <- E'|]. do 2 (split; [done|]).
  split; [|done]. intros c Hc. apply Hh.
  destruct (rstrip_by p (lstrip_by p s)) as [|c' t] eqn:Et; [done|].
  rewrite E'. simpl in *. done.
Qed.

Lemma str_find_char (c : N) (body rest : pystr) :
  c ∉ body → str_find [c] (body ++ c :: rest) = Some (body, rest).
Proof.
  induction body as [|b body IH]; intros Hc.
  - rewrite str_find_unfold. simpl. by rewrite N.eqb_refl.
  - apply not_elem_of_cons in Hc as [Hne Hc]. simpl.
    destruct (N.eqb_spec c b) as [->|_]; [done|]. by rewrite IH.
Qed.

Lemma strip_prefix_None_app (p s t : pystr) :
  strip_prefix p s = None → length p ≤ length s →
  strip_prefix p (s ++ t) = None.
Proof.
  revert s. induction p as [|a p IH]; intros [|b s]; simpl; try done; [lia|].
  destruct (a =? b)%N; [|done]. intros. apply IH; [done|lia].
Qed.

(** An occurrence that is the first one in [a ++ sep] is the first one
    whatever follows. *)
Lemma str_find_here (sep a b : pystr) :
  str_find sep (a ++ sep) = Some (a, []) →
  str_find sep (a ++ sep ++ b) = Some (a, b).
Proof.
  induction a as [|c a IH].
  - intros _. change ([] ++ sep ++ b) with (sep ++ b). rewrite str_find_unfold.
    by rewrite (proj2 (strip_prefix_Some sep (sep ++ b) b)).
  - simpl.
    destruct (strip_prefix sep (c :: a ++ sep)) eqn:E; [done|].
    destruct (str_find sep (a ++ sep)) as [[a' b']|] eqn:F; [|done].
    intros [= -> ->].
    assert (strip_prefix sep (c :: a ++ sep ++ b) = None) as ->.
    { replace (c :: a ++ sep ++ b) with ((c :: a ++ sep) ++ b)
        by (simpl; by rewrite <- app_assoc).
      apply strip_prefix_None_app; [done|]. simpl. rewrite length_app. lia. }
    by rewrite IH.
Qed.

(** A separator whose first character is not in [a] is first found
    right after [a]. *)
Lemma str_find_fresh (c : N) (sep a b : pystr) :
  c ∉ a → str_find (c :: sep) (a ++ (c :: sep) ++ b) = Some (a, b).
Proof.
  induction a as [|x a IH]; intros Hc.
  - change ([] ++ (c :: sep) ++ b) with ((c :: sep) ++ b).
    rewrite str_find_unfold.
    by rewrite (proj2 (strip_prefix_Some (c :: sep) ((c :: sep) ++ b) b)).
  - apply not_elem_of_cons in Hc as [Hne Hc]. simpl.
    destruct (N.eqb_spec c x) as [->|_]; [done|].
    simpl in IH. by rewrite IH.
Qed.

Lemma str_in_fresh (c : N) (sep s : pystr) :
  c ∉ s → str_in (c :: sep) s = false.
Proof.
  intros Hc. apply not_true_is_false. intros (a & b & ->)%str_in_spec.
  apply Hc. rewrite elem_of_app. right. apply elem_of_cons. by left.
Qed.

(** ** The pieces of a split *)

(** [find] returns the leftmost occurrence. *)
Lemma str_find_least (sep s a b x z : pystr) :
  str_find sep s = Some (a, b) → s = x ++ sep ++ z → length a ≤ length x.
Proof.
  revert s a b. induction x as [|c x IH]; intros s a b F ->.
  - rewrite str_find_unfold in F.
    rewrite (proj2 (strip_prefix_Some sep ([] ++ sep ++ z) z)) in F by done.
    by injection F as <- _.
  - rewrite str_find_unfold in F.
    destruct (strip_prefix sep ((c :: x) ++ sep ++ z));
      [injection F as <- _; simpl; lia|].
    simpl in F.
    destruct (str_find sep (x ++ sep ++ z)) as [[a' b']|] eqn:F'; [|done].
    injection F as <- _. specialize (IH _ _ _ F' eq_refl). simpl. lia.
Qed.

Lemma str_find_first_after (sep s a b : pystr) :
  str_find sep s = Some (a, b) → first_after sep a.
Proof.
  intros F x y E. pose proof (str_find_Some _ _ _ _ F) as ->.
  assert (length a ≤ length x) as Hle.
  { apply (str_find_least sep (a ++ sep ++ b) a b x (y ++ b)); [done|].
    rewrite (app_assoc a), E. by rewrite <- !app_assoc. }
  apply (f_equal length) in E. rewrite !length_app in E.
  destruct y; [done|]. simpl in E. lia.
Qed.

Lemma first_after_find (sep a b : pystr) :
  first_after sep a → str_find sep (a ++ sep ++ b) = Some (a, b).
Proof.
  intros Hfirst.
  destruct (str_find_app sep a b) as [[a0 b0] F].
  pose proof (str_find_Some _ _ _ _ F) as E.
  pose proof (str_find_least _ _ _ _ a b F eq_refl) as Hle.
  rewrite !app_assoc in E.
  apply app_eq_app in E as [l [[E1 E2]|[E1 E2]]].
  - rewrite <- app_assoc in E1. pose proof (Hfirst a0 l E1) as ->.
    rewrite !app_nil_r in E1. apply app_inv_tail in E1. subst a0.
    simpl in E2. by subst b0.
  - assert (l = []) as ->.
    { apply (f_equal length) in E1. rewrite !length_app in E1.
      destruct l; [done|]. simpl in E1. lia. }
    rewrite app_nil_r in E1. apply app_inv_tail in E1. subst a0.
    simpl in E2. by subst b0.
Qed.

Lemma split_go_last_piece (fuel : nat) (sep s : pystr) :
  sep ≠ [] → length s ≤ fuel →
  last_piece sep s (py_last (split_go fuel sep s)).
Proof.
  intros Hsep. revert s. induction fuel as [|fuel IH]; intros s Hlen; simpl.
  - destruct s; [|simpl in Hlen; lia]. constructor.
    apply str_in_false. by destruct sep.
  - destruct (str_find sep s) as [[a b]|] eqn:F.
    + pose proof (str_find_Some _ _ _ _ F) as E.
      unfold py_last in *.
      assert (List.last (a :: split_go fuel sep b) []
              = List.last (split_go fuel sep b) []) as ->.
      { pose proof (split_go_nonempty fuel sep b). simpl.
        by destruct (split_go fuel sep b). }
      rewrite E. constructor; [by eapply str_find_first_after|].
      apply IH. subst s. rewrite !length_app in Hlen.
      destruct sep; [done|]. simpl in Hlen. lia.
    + constructor. by apply str_in_false.
Qed.

(** The last piece of [s.split(sep)] is the one the cuts leave. *)
Lemma str_split_last_piece (sep s : pystr) :
  sep ≠ [] → last_piece sep s (py_last (str_split sep s)).
Proof. intros. by apply split_go_last_piece. Qed.

(** The cuts leave one last piece only. *)
Lemma last_piece_unique (sep s t t' : pystr) :
  last_piece sep s t → last_piece sep s t' → t = t'.
Proof.
  intros H. revert t'. induction H as [s Hno|a b t Ha Hb IH]; intros t' H'.
  - inversion H' as [|a b t0 Ha Hb E]; [done|]. subst.
    assert (str_in sep (a ++ sep ++ b) = true) as E'; [|congruence].
    apply str_in_spec. eauto.
  - inversion H' as [s Hno|a' b' t0 Ha' Hb' E]; subst.
    + assert (str_in sep (a ++ sep ++ b) = true) as E'; [|congruence].
      apply str_in_spec. eauto.
    + pose proof (first_after_find sep a b Ha) as F.
      rewrite <- E, (first_after_find sep a' b' Ha') in F.
      injection F as -> ->. by apply IH.
Qed.

Lemma str_in_char (c : N) (s : pystr) : str_in [c] s = false ↔ c ∉ s.
Proof.
  split.
  - intros Hno (l1 & l2 & ->)%list_elem_of_split.
    assert (str_in [c] (l1 ++ c :: l2) = true) as E; [|congruence].
    apply str_in_spec. by exists l1, l2.
  - intros Hc. apply not_true_is_false. intros (a & b & ->)%str_in_spec.
    apply Hc. rewrite elem_of_app. right. apply elem_of_cons. by left.
Qed.

Lemma up_to_slash_unique (s a a' : pystr) :
  up_to_slash s a → up_to_slash s a' → a = a'.
Proof.
  intros [Ha [Ea|[b Ea]]] [Ha' [Ea'|[b' Ea']]]; subst.
  - done.
  - exfalso. apply Ha. rewrite elem_of_app. right. apply elem_of_cons. by left.
  - exfalso. apply Ha'. rewrite elem_of_app. right. apply elem_of_cons. by left.
  - pose proof (str_find_char 47 a b Ha) as F.
    rewrite Ea', (str_find_char 47 a' b' Ha') in F. by injection F as ->.
Qed.

Lemma str_split_up_to_slash (s : pystr) :
  up_to_slash s (py_first (str_split (u "/") s)).
Proof.
  destruct (str_split_first (u "/") s) as [Hno Hshape]; [done|].
  split; [by apply str_in_char|]. destruct Hshape as [?|[b ?]]; [by left|].
  right. by exists b.
Qed.

(** * Comparison of values

    Python's [==] is an equivalence on the values of a document, and
    on values without NaN [<] is a strict weak order wherever it does
    not raise. *)

(** ** Induction on values *)
Lemma json_size_item (l : list json) (x : json) :
  x ∈ l → json_size x < json_size (JArr l).
Proof.
  simpl. induction l as [|y l IH]; [by intros ?%elem_of_nil|].
  intros [->|Hin]%elem_of_cons; simpl; [lia|]. specialize (IH Hin). lia.
Qed.

Lemma json_size_member (m : gmap (list N) json) (k : list N) (v : json) :
  m !! k = Some v → json_size v < json_size (JObj m).
Proof.
  intros Hk. simpl. rewrite <- (insert_delete_id m k v Hk).
  rewrite map_fold_insert_L.
  - lia.
  - intros. lia.
  - apply lookup_delete_eq.
Qed.

Lemma json_ind' (P : json → Prop) :
  P JNull → (∀ b, P (JBool b)) → (∀ z, P (JInt z)) → (∀ f, P (JFloat f)) →
  (∀ s, P (JStr s)) →
  (∀ l, Forall P l → P (JArr l)) →
  (∀ m, map_Forall (λ _, P) m → P (JObj m)) →
  ∀ v, P v.
Proof.
  intros Hnull Hbool Hint Hfloat Hstr Harr Hobj v.
  remember (json_size v) as n eqn:Hn. revert v Hn.
  induction (lt_wf n) as [n _ IH]. intros v ->.
  destruct v as [| | | | |l|m]; auto.
  - apply Harr. apply Forall_forall. intros x Hx.
    apply (IH (json_size x)); [by apply json_size_item|done].
  - apply Hobj. intros k x Hk.
    apply (IH (json_size x)); [by eapply json_size_member|done].
Qed.

(** ** Numbers *)
Lemma num_lt_finite (x y : Q) : num_lt (Finite x) (Finite y) = true ↔ Qlt x y.
Proof.
  simpl. rewrite negb_true_iff, <- not_true_iff_false, Qle_bool_iff.
  split; [apply Qnot_le_lt|apply Qlt_not_le].
Qed.

Lemma num_eq_finite (x y : Q) : num_eq (Finite x) (Finite y) = true ↔ Qeq x y.
Proof. apply Qeq_bool_iff. Qed.

Lemma num_eq_refl (a : number) : a ≠ NaN → num_eq a a = true.
Proof. destruct a; try done. intros _. apply num_eq_finite. reflexivity. Qed.

Lemma num_eq_sym (a b : number) : num_eq a b = num_eq b a.
Proof.
  destruct a, b; try done. apply eq_true_iff_eq.
  rewrite !num_eq_finite. split; intros H; by symmetry.
Qed.

Lemma num_eq_trans (a b c : number) :
  num_eq a b = true → num_eq b c = true → num_eq a c = true.
Proof.
  destruct a, b, c; try done. rewrite !num_eq_finite. apply Qeq_trans.
Qed.

Lemma num_lt_eq_l (a b c : number) :
  num_eq a b = true → num_lt a c = num_lt b c.
Proof.
  destruct a, b, c; try done. rewrite num_eq_finite. intros E.
  apply eq_true_iff_eq. rewrite !num_lt_finite. by rewrite E.
Qed.

Lemma num_lt_eq_r (a b c : number) :
  num_eq a b = true → num_lt c a = num_lt c b.
Proof.
  destruct a, b, c; try done. rewrite num_eq_finite. intros E.
  apply eq_true_iff_eq. rewrite !num_lt_finite. by rewrite E.
Qed.

Lemma num_lt_irrefl (a : number) : num_lt a a = false.
Proof.
  destruct a; try done. apply not_true_iff_false.
  rewrite num_lt_finite. apply Qlt_irrefl.
Qed.

Lemma num_lt_asym (a b : number) : num_lt a b = true → num_lt b a = false.
Proof.
  destruct a, b; try done. rewrite <- not_true_iff_false, !num_lt_finite.
  intros H1 H2. apply (Qlt_irrefl q). by apply (Qlt_trans _ q0).
Qed.

Lemma num_total (a b : number) :
  a ≠ NaN → b ≠ NaN →
  num_eq a b = false → num_lt a b = false → num_lt b a = false → False.
Proof.
  destruct a, b; try done. intros _ _.
  rewrite <- !not_true_iff_false, num_eq_finite, !num_lt_finite.
  intros Hne H1 H2. destruct (Q_dec q q0) as [[?|?]|?]; auto.
Qed.

Lemma num_le_trans (a b c : number) :
  b ≠ NaN →
  num_lt b a = false → num_lt c b = false → num_lt c a = false.
Proof.
  destruct a, b, c; try done. intros _.
  rewrite <- !not_true_iff_false, !num_lt_finite.
  intros H1%Qnot_lt_le H2%Qnot_lt_le. apply Qle_not_lt.
  by apply (Qle_trans _ q0).
Qed.

(** ** Equality *)
Lemma map_fold_all {A} (f : list N → A → bool) (m : gmap (list N) A) :
  map_fold (λ k v acc, acc && f k v) true m = true
  ↔ map_Forall (λ k v, f k v = true) m.
Proof.
  induction m as [|k v m Hk Hfold IH] using map_first_key_ind.
  - rewrite map_fold_empty. split; [|done]. intros _. apply map_Forall_empty.
  - rewrite map_fold_insert_first_key by done.
    rewrite andb_true_iff, IH, map_Forall_insert by done. tauto.
Qed.

Lemma members_eq_spec (eq : json → json → bool) (m m' : gmap (list N) json) :
  members_eq eq m m' = true
  ↔ ∀ k, match m !! k, m' !! k with
         | Some v, Some w => same_by eq v w = true
         | None, None => True
         | _, _ => False
         end.
Proof.
  unfold members_eq. rewrite andb_true_iff, bool_decide_eq_true, map_fold_all.
  split.
  - intros [Hsize Hall].
    assert (dom m ⊆ dom m') as Hsub.
    { intros k [v Hv]%elem_of_dom. specialize (Hall k v Hv). simpl in Hall.
      apply elem_of_dom. destruct (m' !! k); [eauto|done]. }
    assert (dom m ≡ dom m') as Hdom.
    { apply set_subseteq_size_equiv; [done|]. rewrite !size_dom. lia. }
    intros k. destruct (m !! k) as [v|] eqn:Hv.
    + specialize (Hall k v Hv). simpl in Hall. by destruct (m' !! k).
    + destruct (m' !! k) as [w|] eqn:Hw; [|done].
      apply not_elem_of_dom in Hv. apply Hv, Hdom, elem_of_dom. eauto.
  - intros H. split.
    + rewrite <- !size_dom. f_equal. apply set_eq. intros k.
      rewrite !elem_of_dom. specialize (H k).
      destruct (m !! k), (m' !! k); try done; split; eauto; by intros [].
    + intros k v Hv. specialize (H k). rewrite Hv in H.
      by destruct (m' !! k).
Qed.

Lemma number_of_Some (v : json) :
  is_number v = true → ∃ p, number_of v = Some p ∧ (is_nan v = true ↔ p = NaN).
Proof.
  destruct v as [|b|z|f| | |]; try done; intros _; simpl; eexists;
    (split; [done|]); try done.
  by destruct f as [|[]| |].
Qed.

Lemma py_eq_numbers (a b : json) (p q : number) :
  number_of a = Some p → number_of b = Some q → py_eq a b = num_eq p q.
Proof. destruct a, b; simpl; try done; by intros [= <-] [= <-]. Qed.

Lemma py_eq_kinds (a b : json) :
  is_number a = true → is_number b = false → py_eq a b = false.
Proof. destruct a, b; try done. Qed.

Lemma py_eq_kinds' (a b : json) :
  is_number a = false → is_number b = true → py_eq a b = false.
Proof. destruct a, b; try done. Qed.

Lemma is_nan_number (v : json) : is_nan v = true → is_number v = true.
Proof. by destruct v. Qed.

Lemma py_same_numbers (a b : json) (p q : number) :
  number_of a = Some p → number_of b = Some q →
  py_same a b = match p, q with NaN, NaN => true | _, _ => num_eq p q end.
Proof.
  intros Hp Hq. unfold same_by. rewrite (py_eq_numbers a b p q) by done.
  destruct a as [|?|?|f| | |], b as [|?|?|g| | |]; simpl in *; try done;
    injection Hp as <-; injection Hq as <-; try done;
    repeat match goal with
           | f : spec_float |- _ => destruct f as [|[]| |]
           end; done.
Qed.

Lemma py_same_kinds (a b : json) :
  py_same a b = true → is_number a = is_number b.
Proof.
  unfold same_by. intros [[Ha Hb]%andb_true_iff|H]%orb_true_iff.
  - by rewrite !is_nan_number.
  - destruct a, b; try done.
Qed.

Lemma py_same_refl (v : json) : py_same v v = true.
Proof.
  induction v as [|b|z|f|s|l IH|m IH] using json_ind'.
  - done.
  - rewrite (py_same_numbers (JBool b) (JBool b) _ _ eq_refl eq_refl).
    by rewrite num_eq_refl.
  - rewrite (py_same_numbers (JInt z) (JInt z) _ _ eq_refl eq_refl).
    by rewrite num_eq_refl.
  - rewrite (py_same_numbers (JFloat f) (JFloat f) _ _ eq_refl eq_refl).
    destruct (float_value f) eqn:E; try done. by rewrite num_eq_refl.
  - unfold same_by. simpl. by apply bool_decide_eq_true.
  - unfold same_by. simpl.
    induction IH as [|x l Hx _ IHl]; [done|]. simpl.
    fold (py_same x x). by rewrite Hx, IHl.
  - unfold same_by. simpl.
    apply members_eq_spec. intros k. destruct (m !! k) as [v|] eqn:Hv; [|done].
    by apply (IH k v).
Qed.

Lemma py_same_sym (a b : json) : py_same a b = py_same b a.
Proof.
  revert b.
  assert (∀ a b, is_number a = true → py_same a b = py_same b a) as Hnum.
  { clear a. intros a b Ha. destruct (is_number b) eqn:Hb.
    - destruct (number_of_Some a Ha) as (p & Hp & _).
      destruct (number_of_Some b Hb) as (q & Hq & _).
      rewrite (py_same_numbers a b p q), (py_same_numbers b a q p) by done.
      rewrite (num_eq_sym p q). by destruct p, q.
    - unfold same_by. rewrite py_eq_kinds, py_eq_kinds' by done.
      destruct (is_nan b) eqn:E; [|by rewrite !andb_false_r, ?andb_false_l].
      apply is_nan_number in E. congruence. }
  induction a as [|x|x|f|s|l IH|m IH] using json_ind'; intros b;
    try (by apply Hnum).
  - by destruct b as [| | |[]| | |].
  - destruct b as [| | |[]|t| |]; try done. unfold same_by. simpl.
    apply eq_true_iff_eq. rewrite !bool_decide_eq_true. split; congruence.
  - destruct b as [| | |[]| |l'|]; try done. unfold same_by. simpl. revert l'.
    induction IH as [|x l Hx _ IHl]; intros [|y l']; try done.
    simpl. fold (py_same x y) (py_same y x). by rewrite Hx, IHl.
  - destruct b as [| | |[]| | |m']; try done. unfold same_by. simpl.
    apply eq_true_iff_eq. rewrite !members_eq_spec.
    split; intros H k; specialize (H k);
      destruct (m !! k) as [v|] eqn:Hv, (m' !! k) as [w|] eqn:Hw; try done.
    + fold (py_same w v). by rewrite <- (IH k v Hv).
    + fold (py_same v w). by rewrite (IH k v Hv).
Qed.

Lemma py_same_trans (a b c : json) :
  py_same a b = true → py_same b c = true → py_same a c = true.
Proof.
  revert b c.
  assert (∀ a b c, is_number a = true →
            py_same a b = true → py_same b c = true → py_same a c = true)
    as Hnum.
  { clear a. intros a b c Ha Hab Hbc.
    pose proof (py_same_kinds _ _ Hab) as Hb. rewrite Ha in Hb. symmetry in Hb.
    pose proof (py_same_kinds _ _ Hbc) as Hc. rewrite Hb in Hc. symmetry in Hc.
    destruct (number_of_Some a Ha) as (p & Hp & _).
    destruct (number_of_Some b Hb) as (q & Hq & _).
    destruct (number_of_Some c Hc) as (r & Hr & _).
    rewrite (py_same_numbers a b p q) in Hab by done.
    rewrite (py_same_numbers b c q r) in Hbc by done.
    rewrite (py_same_numbers a c p r) by done.
    destruct p, q, r; try done; by eapply num_eq_trans. }
  induction a as [|x|x|f|s|l IH|m IH] using json_ind'; intros b c;
    try (by apply Hnum).
  - destruct b as [| | |[]| | |]; try done.
  - destruct b as [| | |[]|t| |]; try done.
    destruct c as [| | |[]|t'| |]; try done. unfold same_by. simpl.
    rewrite !bool_decide_eq_true. congruence.
  - destruct b as [| | |[]| |l'|]; try done.
    destruct c as [| | |[]| |l''|]; try done. unfold same_by. simpl.
    revert l' l''.
    induction IH as [|x l Hx _ IHl]; intros [|y l'] [|z l'']; try done.
    simpl. fold (py_same x y) (py_same y z) (py_same x z).
    rewrite !andb_true_iff. intros [H1 H1'] [H2 H2'].
    split; [by eapply Hx|by eapply IHl].
  - destruct b as [| | |[]| | |m']; try done.
    destruct c as [| | |[]| | |m'']; try done. unfold same_by. simpl.
    rewrite !members_eq_spec. intros H1 H2 k.
    specialize (H1 k). specialize (H2 k).
    destruct (m !! k) as [v|] eqn:Hv, (m' !! k) as [w|] eqn:Hw,
      (m'' !! k) as [x|] eqn:Hx; try done.
    by eapply (IH k v Hv).
Qed.

(** ** Order *)
Lemma str_lt_irrefl (s : pystr) : str_lt s s = false.
Proof. induction s as [|c s IH]; [done|]. simpl. by rewrite N.ltb_irrefl. Qed.

Lemma str_lt_asym (a b : pystr) : str_lt a b = true → str_lt b a = false.
Proof.
  revert b. induction a as [|x a IH]; intros [|y b]; simpl; try done.
  destruct (N.ltb_spec x y), (N.ltb_spec y x); try done; try lia. apply IH.
Qed.

Lemma str_lt_trans (a b c : pystr) :
  str_lt b a = false → str_lt c b = false → str_lt c a = false.
Proof.
  revert b c. induction a as [|x a IH]; intros [|y b] [|z c]; simpl; try done.
  destruct (N.ltb_spec y x), (N.ltb_spec x y), (N.ltb_spec z y),
    (N.ltb_spec y z), (N.ltb_spec z x), (N.ltb_spec x z);
    try done; try lia.
  apply IH.
Qed.

Lemma str_lt_total (a b : pystr) :
  str_lt a b = false → str_lt b a = false → a = b.
Proof.
  revert b. induction a as [|x a IH]; intros [|y b]; simpl; try done.
  destruct (N.ltb_spec x y), (N.ltb_spec y x); try done.
  intros. f_equal; [lia|by apply IH].
Qed.

Lemma py_same_kind (a b : json) : py_same a b = true → kind_of a = kind_of b.
Proof.
  unfold same_by. intros [[Ha Hb]%andb_true_iff|H]%orb_true_iff.
  - by destruct a as [| | |[]| | |], b as [| | |[]| | |].
  - destruct a, b; try done.
Qed.

Lemma kind_number (v : json) :
  kind_of v = NumberKind → ∃ p, number_of v = Some p ∧ (is_nan v = true ↔ p = NaN).
Proof. intros H. apply number_of_Some. by destruct v. Qed.

Lemma py_lt_numbers (a b : json) (p q : number) :
  number_of a = Some p → number_of b = Some q → py_lt a b = Ok (num_lt p q).
Proof. destruct a, b; simpl; try done; by intros [= <-] [= <-]. Qed.

Lemma py_lt_kinds (a b : json) :
  kind_of a ≠ kind_of b → py_lt a b = Raise TypeError.
Proof. destruct a, b; try done. Qed.

Lemma py_lt_unordered (a b : json) :
  kind_of a = NullKind ∨ kind_of a = ObjKind → py_lt a b = Raise TypeError.
Proof. destruct a, b; try done; intros [|]; done. Qed.

Lemma py_lt_Ok (a b : json) (r : bool) :
  py_lt a b = Ok r →
  kind_of a = kind_of b
  ∧ (kind_of a = NumberKind ∨ kind_of a = StrKind ∨ kind_of a = ArrKind).
Proof. destruct a, b; try done; auto. Qed.

Lemma py_same_str (s : pystr) (b : json) :
  py_same (JStr s) b = true → b = JStr s.
Proof.
  destruct b as [| | |[]|t| |]; try done. unfold same_by. simpl.
  by intros ->%bool_decide_eq_true.
Qed.

Lemma py_same_arr (l l' : list json) :
  py_same (JArr l) (JArr l') = items_eq py_eq l l'.
Proof. done. Qed.

Lemma py_lt_arr (l l' : list json) :
  py_lt (JArr l) (JArr l') = items_lt py_lt l l'.
Proof. done. Qed.

Lemma items_lt_cons (lt : json → json → result bool) (x y : json)
    (l l' : list json) :
  items_lt lt (x :: l) (y :: l')
  = if py_same x y then items_lt lt l l' else lt x y.
Proof. done. Qed.

Lemma py_same_number_lt (y z : json) (p q : number) :
  number_of y = Some p → number_of z = Some q → py_same y z = true →
  (∀ r, num_lt p r = num_lt q r) ∧ (∀ r, num_lt r p = num_lt r q).
Proof.
  intros Hp Hq. rewrite (py_same_numbers y z p q) by done.
  destruct p, q; try done; intros E; split; intros r;
    first [by apply num_lt_eq_l | by apply num_lt_eq_r | by destruct r].
Qed.

Lemma py_same_congr_l (a a' b : json) :
  py_same a a' = true → py_same a b = py_same a' b.
Proof.
  intros H. apply eq_true_iff_eq. split; intros H'.
  - apply (py_same_trans _ a); [by rewrite py_same_sym|done].
  - by apply (py_same_trans _ a').
Qed.

Lemma py_same_congr_r (a a' b : json) :
  py_same a a' = true → py_same b a = py_same b a'.
Proof.
  intros H. rewrite (py_same_sym b a), (py_same_sym b a').
  by apply py_same_congr_l.
Qed.

Lemma py_lt_same_l_number (y z x : json) :
  kind_of y = NumberKind → py_same y z = true → py_lt y x = py_lt z x.
Proof.
  intros Hy Hyz. pose proof (py_same_kind _ _ Hyz) as Hk.
  destruct (kind_number y Hy) as (p & Hp & _).
  destruct (kind_number z) as (q & Hq & _); [congruence|].
  destruct (decide (kind_of x = NumberKind)) as [Hx|Hx].
  - destruct (kind_number x Hx) as (r & Hr & _).
    rewrite (py_lt_numbers y x p r Hp Hr), (py_lt_numbers z x q r Hq Hr).
    f_equal. by eapply py_same_number_lt.
  - rewrite !py_lt_kinds; [done| |]; congruence.
Qed.

Lemma py_lt_same_r_number (y z x : json) :
  kind_of x = NumberKind → py_same y z = true → py_lt x y = py_lt x z.
Proof.
  intros Hx Hyz. pose proof (py_same_kind _ _ Hyz) as Hk.
  destruct (kind_number x Hx) as (r & Hr & _).
  destruct (decide (kind_of y = NumberKind)) as [Hy|Hy].
  - destruct (kind_number y Hy) as (p & Hp & _).
    destruct (kind_number z) as (q & Hq & _); [congruence|].
    rewrite (py_lt_numbers x y r p Hr Hp), (py_lt_numbers x z r q Hr Hq).
    f_equal. by eapply py_same_number_lt.
  - rewrite !py_lt_kinds; [done| |]; congruence.
Qed.

Lemma py_lt_same_l (y z x : json) :
  py_same y z = true → py_lt y x = py_lt z x.
Proof.
  revert z x.
  induction y as [|b|n|f|s|l IH|m IH] using json_ind'; intros z x Hyz;
    try (by apply py_lt_same_l_number);
    pose proof (py_same_kind _ _ Hyz) as Hk; simpl in Hk.
  1: { rewrite !py_lt_unordered; [done| |]; [rewrite <- Hk|]; by left. }
  - by rewrite (py_same_str _ _ Hyz).
  - destruct z as [| | | | |l'|]; try done.
    destruct x as [| | | | |lx|]; try done.
    rewrite py_same_arr in Hyz. rewrite !py_lt_arr. clear Hk.
    revert l' lx Hyz.
    induction IH as [|a l Ha _ IHl]; intros [|a' l'] lx; try done.
    simpl. intros [Haa Hll]%andb_true_iff. destruct lx as [|b lx]; [done|].
    fold (py_same a b) (py_same a' b).
    rewrite (py_same_congr_l a a' b) by done.
    destruct (py_same a' b); [by apply IHl|by apply Ha].
  - rewrite !py_lt_unordered; [done| |]; [rewrite <- Hk|]; by right.
Qed.

Lemma py_lt_same_r (y z x : json) :
  py_same y z = true → py_lt x y = py_lt x z.
Proof.
  revert y z.
  induction x as [|b|n|f|s|lx IH|m IH] using json_ind'; intros y z Hyz;
    try (by apply py_lt_same_r_number);
    pose proof (py_same_kind _ _ Hyz) as Hk.
  1: { rewrite !py_lt_unordered; [done| |]; by left. }
  - destruct y as [| | | |t| |]; try (rewrite !py_lt_kinds; simpl in *; congruence).
    by rewrite (py_same_str _ _ Hyz).
  - destruct y as [| | | | |l|]; try (rewrite !py_lt_kinds; simpl in *; congruence).
    destruct z as [| | | | |l'|]; try done.
    rewrite py_same_arr in Hyz. rewrite !py_lt_arr. clear Hk.
    revert l l' Hyz.
    induction IH as [|b lx Hb _ IHl]; intros [|a l] [|a' l']; try done.
    simpl. intros [Haa Hll]%andb_true_iff.
    fold (py_same b a) (py_same b a').
    rewrite (py_same_congr_r a a' b) by done.
    destruct (py_same b a'); [by apply IHl|by apply Hb].
  - rewrite !py_lt_unordered; [done| |]; by right.
Qed.

Lemma py_lt_irrefl (x : json) : py_lt x x ≠ Ok true.
Proof.
  destruct (decide (kind_of x = NumberKind)) as [Hx|Hx].
  { destruct (kind_number x Hx) as (p & Hp & _).
    rewrite (py_lt_numbers x x p p Hp Hp). by rewrite num_lt_irrefl. }
  destruct x as [|b|n|f|s|l|m]; try done.
  - simpl. by rewrite str_lt_irrefl.
  - rewrite py_lt_arr. clear Hx. induction l as [|a l IH]; [done|].
    rewrite items_lt_cons. by rewrite py_same_refl.
Qed.

Lemma py_lt_asym (a b : json) :
  py_lt a b = Ok true → py_lt b a = Ok true → False.
Proof.
  revert b.
  assert (∀ a b, kind_of a = NumberKind →
            py_lt a b = Ok true → py_lt b a = Ok true → False) as Hnum.
  { clear a. intros a b Ha Hab Hba.
    destruct (py_lt_Ok _ _ _ Hab) as [Hk _].
    destruct (kind_number a Ha) as (p & Hp & _).
    destruct (kind_number b) as (q & Hq & _); [congruence|].
    rewrite (py_lt_numbers a b p q Hp Hq) in Hab.
    rewrite (py_lt_numbers b a q p Hq Hp) in Hba.
    injection Hab as Hab. injection Hba as Hba.
    apply num_lt_asym in Hab. congruence. }
  induction a as [|x|n|f|s|l IH|m IH] using json_ind'; intros b Hab Hba;
    try (by eapply Hnum; [|exact Hab|exact Hba]);
    destruct (py_lt_Ok _ _ _ Hab) as [Hk Hkind]; simpl in Hk; try done.
  - destruct b as [| | | |t| |]; try done. simpl in *.
    injection Hab as Hab. injection Hba as Hba.
    apply str_lt_asym in Hab. congruence.
  - destruct b as [| | | | |l'|]; try done. rewrite py_lt_arr in *. clear Hk Hkind.
    revert l' Hab Hba.
    induction IH as [|x l Hx _ IHl]; intros [|y l']; try done.
    simpl. fold (py_same x y) (py_same y x). rewrite (py_same_sym y x).
    destruct (py_same x y); [apply IHl|apply Hx].
Qed.

Lemma nan_free_number (v : json) (p : number) :
  number_of v = Some p → nan_free v → p ≠ NaN.
Proof.
  destruct v as [| | |f| | |]; simpl; try done; intros [= <-]; try done.
  by destruct f as [|[]| |].
Qed.

Lemma nan_free_arr (l : list json) :
  nan_free (JArr l) ↔ Forall (λ x, nan_free x) l.
Proof.
  simpl. induction l as [|x l IH]; [done|]. simpl.
  rewrite orb_false_iff, Forall_cons, IH. done.
Qed.

Lemma py_lt_total (x y : json) :
  nan_free x → nan_free y → py_same x y = false →
  py_lt x y = Ok false → py_lt y x = Ok false → False.
Proof.
  revert y.
  assert (∀ x y, kind_of x = NumberKind →
            nan_free x → nan_free y → py_same x y = false →
            py_lt x y = Ok false → py_lt y x = Ok false → False) as Hnum.
  { clear x. intros x y Hx Hnx Hny Hne Hxy Hyx.
    destruct (py_lt_Ok _ _ _ Hxy) as [Hk _].
    destruct (kind_number x Hx) as (p & Hp & _).
    destruct (kind_number y) as (q & Hq & _); [congruence|].
    rewrite (py_lt_numbers x y p q Hp Hq) in Hxy.
    rewrite (py_lt_numbers y x q p Hq Hp) in Hyx.
    rewrite (py_same_numbers x y p q Hp Hq) in Hne.
    injection Hxy as Hxy. injection Hyx as Hyx.
    pose proof (nan_free_number _ _ Hp Hnx) as Hp'.
    pose proof (nan_free_number _ _ Hq Hny) as Hq'.
    eapply (num_total p q); try done. by destruct p, q. }
  induction x as [|b|n|f|s|l IH|m IH] using json_ind';
    intros y Hnx Hny Hne Hxy Hyx;
    try (by eapply Hnum; [|exact Hnx|exact Hny|exact Hne|exact Hxy|exact Hyx]);
    destruct (py_lt_Ok _ _ _ Hxy) as [Hk Hkind]; simpl in Hk; try done.
  - destruct y as [| | | |t| |]; try done. simpl in *.
    injection Hxy as Hxy. injection Hyx as Hyx.
    rewrite (str_lt_total _ _ Hxy Hyx) in Hne.
    unfold same_by in Hne. simpl in Hne. by rewrite bool_decide_eq_true_2 in Hne.
  - destruct y as [| | | | |l'|]; try done.
    rewrite py_lt_arr in *. rewrite py_same_arr in Hne.
    apply nan_free_arr in Hnx, Hny. clear Hk Hkind.
    revert l' Hnx Hny Hne Hxy Hyx.
    induction IH as [|x l Hx _ IHl]; intros [|y l']; try done.
    intros [Hnx Hnl]%Forall_cons [Hny Hnl']%Forall_cons. simpl.
    fold (py_same x y) (py_same y x). rewrite (py_same_sym y x).
    destruct (py_same x y) eqn:E; simpl; [by apply IHl|].
    intros _. by apply Hx.
Qed.

Lemma py_le_trans (a b c : json) :
  nan_free a → nan_free b → nan_free c →
  py_lt b a = Ok false → py_lt c b = Ok false → py_lt c a = Ok true → False.
Proof.
  revert b c.
  assert (∀ a b c, kind_of a = NumberKind → nan_free b →
            py_lt b a = Ok false → py_lt c b = Ok false →
            py_lt c a = Ok true → False) as Hnum.
  { clear a. intros a b c Ha Hnb Hba Hcb Hca.
    destruct (py_lt_Ok _ _ _ Hba) as [Hkb _].
    destruct (py_lt_Ok _ _ _ Hcb) as [Hkc _].
    destruct (kind_number a Ha) as (p & Hp & _).
    destruct (kind_number b) as (q & Hq & _); [congruence|].
    destruct (kind_number c) as (r & Hr & _); [congruence|].
    rewrite (py_lt_numbers b a q p Hq Hp) in Hba.
    rewrite (py_lt_numbers c b r q Hr Hq) in Hcb.
    rewrite (py_lt_numbers c a r p Hr Hp) in Hca.
    injection Hba as Hba. injection Hcb as Hcb. injection Hca as Hca.
    pose proof (nan_free_number _ _ Hq Hnb) as Hq'.
    by rewrite (num_le_trans p q r Hq' Hba Hcb) in Hca. }
  induction a as [|x|n|f|s|l IH|m IH] using json_ind';
    intros b c Hna Hnb Hnc Hba Hcb Hca;
    try (by eapply Hnum; [|exact Hnb|exact Hba|exact Hcb|exact Hca]);
    destruct (py_lt_Ok _ _ _ Hba) as [Hkb Hb'];
    destruct (py_lt_Ok _ _ _ Hcb) as [Hkc _];
    simpl in Hkb, Hkc;
    try (by rewrite Hkb in Hb'; destruct Hb' as [|[|]]).
  - destruct b as [| | | |t| |]; try done.
    destruct c as [| | | |t'| |]; try done. simpl in *.
    injection Hba as Hba. injection Hcb as Hcb. injection Hca as Hca.
    by rewrite (str_lt_trans _ _ _ Hba Hcb) in Hca.
  - destruct b as [| | | | |lb|]; try done.
    destruct c as [| | | | |lc|]; try done.
    change (items_lt py_lt lb l = Ok false) in Hba.
    change (items_lt py_lt lc lb = Ok false) in Hcb.
    change (items_lt py_lt lc l = Ok true) in Hca.
    apply nan_free_arr in Hnb, Hnc.
    assert (Forall (λ x, nan_free x) l) as Hnl by by apply nan_free_arr.
    clear Hna Hkb Hkc Hb'.
    revert lb lc Hnl Hnb Hnc Hba Hcb Hca.
    induction IH as [|x l Hx _ IHl]; intros lb lc Hnl Hnb Hnc.
    { by destruct lc. }
    destruct lb as [|y lb]; [done|]. destruct lc as [|z lc]; [done|].
    apply Forall_cons in Hnl as [Hnx Hnl], Hnb as [Hny Hnb], Hnc as [Hnz Hnc].
    simpl. fold (py_same y x) (py_same z y) (py_same z x).
    destruct (py_same y x) eqn:Eyx, (py_same z y) eqn:Ezy.
    + rewrite (py_same_trans z y x) by done. by apply IHl.
    + assert (py_same z x = false) as ->.
      { rewrite <- Ezy. by apply py_same_congr_r; rewrite py_same_sym. }
      rewrite <- (py_lt_same_r y x z) by done. congruence.
    + assert (py_same z x = false) as ->.
      { rewrite <- Eyx. by apply py_same_congr_l. }
      rewrite (py_lt_same_l z y x) by done. congruence.
    + destruct (py_same z x) eqn:Ezx.
      * intros Hyx Hzy _.
        rewrite (py_lt_same_l z x y Ezx) in Hzy.
        by apply (py_lt_total y x).
      * by apply Hx.
Qed.

(** * The positivity decision *)

(** Closed goals about sets and maps, settled by evaluation. *)
Ltac by_compute := apply (bool_decide_unpack _); vm_compute; exact I.
Ltac refute_by_compute :=
  let H := fresh in
  intros H; apply (bool_decide_pack _) in H; vm_compute in H; exact H.

#[local] Arguments u : simpl never.
#[local] Arguments praise_keywords : simpl never.

Section PolicyFacts.

Context {score : Type}.
Variable score_geb : score → score → bool.
Variable argmax : list score → result nat.
Variable str_lower : pystr → pystr.

Lemma elem_of_existsb {A} (f : A → bool) (l : list A) :
  existsb f l = true ↔ ∃ x, x ∈ l ∧ f x = true.
Proof.
  rewrite existsb_exists. split; intros (x & ? & ?); exists x;
    by rewrite ?list_elem_of_In in *.
Qed.

Lemma excluded_author_rejected (self : SentimentAnalyzer) (text : json)
    (author : pystr) :
  author ∈ EXCLUDE_AUTHORS (config self) →
  is_positive_comment score_geb argmax str_lower self text (JStr author)
    = Ok false.
Proof.
  intros Hin. unfold is_positive_comment. simpl.
  by rewrite bool_decide_eq_true_2.
Qed.

Lemma short_text_rejected (self : SentimentAnalyzer) (text author : pystr) :
  author ∉ EXCLUDE_AUTHORS (config self) →
  (Z.of_nat (length text) < MIN_COMMENT_LENGTH (config self))%Z →
  is_positive_comment score_geb argmax str_lower self (JStr text) (JStr author)
    = Ok false.
Proof.
  intros Hout Hshort. unfold is_positive_comment. simpl.
  rewrite bool_decide_eq_false_2 by done.
  apply Z.ltb_lt in Hshort. by rewrite Hshort.
Qed.

(** C1. [is_positive_comment] answers [False] for an excluded author,
    whatever the text and the model, and for a text shorter than the
    configured minimum; otherwise it answers [True] exactly when the
    argmax label is "positive" with the score at index 2 at least the
    threshold, or the label is "neutral" and the lower-cased text
    contains one of the praise keywords. *)
Theorem is_positive_comment_policy (self : SentimentAnalyzer)
    (text author : pystr) :
  let cfg := config self in
  let verdict :=
    is_positive_comment score_geb argmax str_lower self (JStr text) (JStr author) in
  (author ∈ EXCLUDE_AUTHORS cfg → verdict = Ok false) ∧
  (author ∉ EXCLUDE_AUTHORS cfg →
   (Z.of_nat (length text) < MIN_COMMENT_LENGTH cfg)%Z →
   verdict = Ok false) ∧
  (∀ proba k label p2,
     author ∉ EXCLUDE_AUTHORS cfg →
     (MIN_COMMENT_LENGTH cfg ≤ Z.of_nat (length text))%Z →
     predict self (JStr text) = Ok proba →
     argmax proba = Ok k →
     id2label self !! k = Some label →
     proba !! 2 = Some p2 →
     ∃ b : bool, verdict = Ok b ∧
       (b = true ↔
        (label = u "positive" ∧ score_geb p2 (POSITIVE_THRESHOLD cfg) = true)
        ∨ (label = u "neutral" ∧
           ∃ keyword, keyword ∈ praise_keywords
                      ∧ str_in keyword (str_lower text) = true))).
Proof.
  intros cfg verdict. subst verdict cfg.
  split; [|split].
  - apply excluded_author_rejected.
  - apply short_text_rejected.
  - unfold is_positive_comment. generalize praise_keywords. intros kws.
    intros proba k label p2 Hout Hlong Hp Hk Hl H2. simpl.
    rewrite bool_decide_eq_false_2 by done.
    apply Z.ltb_ge in Hlong. rewrite Hlong, Hp. simpl. rewrite Hk. simpl.
    unfold dict_getitem. rewrite Hl. simpl.
    unfold getitem. rewrite H2.
    destruct (decide (label = u "positive")) as [Hpos|Hpos].
    + rewrite (bool_decide_eq_true_2 _ Hpos). simpl.
      destruct (score_geb p2 _) eqn:Hge.
      * exists true. split; [done|]. split; [|done]. intros _. by left.
      * rewrite bool_decide_eq_false_2 by (rewrite Hpos; by vm_compute).
        simpl. exists false. split; [done|]. split; [done|].
        intros [[_ ?]|[Hn _]]; [done|]. rewrite Hpos in Hn. by vm_compute in Hn.
    + rewrite (bool_decide_eq_false_2 _ Hpos). simpl.
      destruct (decide (label = u "neutral")) as [Hneu|Hneu].
      * rewrite (bool_decide_eq_true_2 _ Hneu). simpl.
        destruct (existsb _ kws) eqn:Hex.
        -- exists true. split; [done|]. split; [|done]. intros _. right.
           split; [done|]. by apply elem_of_existsb in Hex.
        -- exists false. split; [done|]. split; [done|].
           intros [[? _]|[_ Hkw]]; [done|].
           apply elem_of_existsb in Hkw. congruence.
      * rewrite (bool_decide_eq_false_2 _ Hneu). simpl.
        exists false. split; [done|]. split; [done|]. by intros [[? _]|[? _]].
Qed.

End PolicyFacts.

(** C5. A text shorter than the minimum, from an author who is not
    excluded, is rejected whatever the model: any two analyzers with the
    same settings, and any two argmax functions, give the same answer,
    [False]; so does a model that raises as soon as it is called. *)
Theorem short_text_ignores_oracle {score : Type}
    (score_geb : score → score → bool)
    (argmax1 argmax2 : list score → result nat) (str_lower : pystr → pystr)
    (a1 a2 : SentimentAnalyzer) (text author : pystr) :
  config a1 = config a2 →
  author ∉ EXCLUDE_AUTHORS (config a1) →
  (Z.of_nat (length text) < MIN_COMMENT_LENGTH (config a1))%Z →
  is_positive_comment score_geb argmax1 str_lower a1 (JStr text) (JStr author)
    = Ok false
  ∧ is_positive_comment score_geb argmax2 str_lower a2 (JStr text) (JStr author)
    = Ok false.
Proof.
  intros Hcfg Hout Hshort.
  split.
  - by apply short_text_rejected.
  - apply short_text_rejected; by rewrite <- Hcfg.
Qed.

Lemma is_positive_comment_policy_witness :
  is_positive_comment score_geb_demo argmax_demo lower_basic analyzer_demo
    (JStr text_thanks) (JStr (u "reader")) = Ok true
  ∧ is_positive_comment score_geb_demo argmax_demo lower_basic analyzer_demo
      (JStr text_thanks) (JStr (u "empenoso")) = Ok false.
Proof.
  destruct (is_positive_comment_policy score_geb_demo argmax_demo lower_basic
              analyzer_demo text_thanks (u "reader")) as (_ & _ & H).
  destruct (H [100; 800; 100]%Z 1 (u "neutral") 100%Z) as (b & Hb & Hiff).
  - refute_by_compute.
  - vm_compute. discriminate.
  - reflexivity.
  - reflexivity.
  - reflexivity.
  - reflexivity.
  - split.
    + rewrite Hb. f_equal. apply Hiff. right. split; [reflexivity|].
      exists (u "полезно"). split; [|vm_compute; reflexivity].
      apply (list_elem_of_lookup_2 _ 14). reflexivity.
    + destruct (is_positive_comment_policy score_geb_demo argmax_demo
                  lower_basic analyzer_demo text_thanks (u "empenoso"))
        as (Hexcl & _).
      apply Hexcl. by_compute.
Defined.

Lemma short_text_ignores_oracle_witness :
  is_positive_comment score_geb_demo argmax_demo lower_basic analyzer_demo
    (JStr text_short) (JStr (u "reader")) = Ok false
  ∧ is_positive_comment score_geb_demo (λ _, Raise ValueError) lower_basic
      analyzer_broken (JStr text_short) (JStr (u "reader")) = Ok false.
Proof.
  apply short_text_ignores_oracle.
  - reflexivity.
  - refute_by_compute.
  - vm_compute. reflexivity.
Defined.

(** * URL synthesis *)

Section UrlFacts.

Variable str_lower : pystr → pystr.
Variable py_repr : json → pystr.

(** C3, as the code has it.  For a source name whose lower-case form
    contains "habr" and a string [article_url]: without "habr.com" in it
    the result is the diagnostic "Unknown Habr URL: <article_url>"; with
    "habr.com" the result is always a link
    "https://habr.com/ru/articles/<segment>/comments/#comment_<id>".
    <segment> is what precedes the first "/" of <tail>, and <tail> is
    what is left when [article_url] is cut at its first "/articles/",
    what follows at its first "/articles/", and so on (all of
    [article_url] when it has none).  These words fix <segment>: no
    other string fits them. *)
Theorem habr_comment_url (directory_name article_url comment_id : pystr) :
  str_in (u "habr") (str_lower directory_name) = true →
  (str_in (u "habr.com") article_url = false →
   get_comment_url str_lower py_repr (JStr directory_name) (JStr article_url)
     comment_id
   = Ok (u "Unknown Habr URL: " ++ article_url))
  ∧ (str_in (u "habr.com") article_url = true →
     ∃ tail segment : pystr,
       get_comment_url str_lower py_repr (JStr directory_name)
         (JStr article_url) comment_id
       = Ok (u "https://habr.com/ru/articles/" ++ segment
               ++ u "/comments/#comment_" ++ comment_id)
       ∧ last_piece (u "/articles/") article_url tail
       ∧ up_to_slash tail segment
       ∧ ∀ tail' segment' : pystr,
           last_piece (u "/articles/") article_url tail' →
           up_to_slash tail' segment' →
           segment' = segment).
Proof.
  intros Hsrc. unfold get_comment_url.
  cbn [as_str py_contains mbind result_bind]. rewrite Hsrc. split.
  - by intros ->.
  - intros ->. cbn [as_str mbind result_bind].
    set (tail := py_last (str_split (u "/articles/") article_url)).
    set (segment := py_first (str_split (u "/") tail)).
    exists tail, segment. split; [done|].
    assert (last_piece (u "/articles/") article_url tail) as Htail
      by by apply str_split_last_piece.
    assert (up_to_slash tail segment) as Hseg
      by apply str_split_up_to_slash.
    split; [done|]. split; [done|].
    intros tail' segment' Htail' Hseg'.
    rewrite <- (last_piece_unique _ _ _ _ Htail Htail') in Hseg'.
    by apply (up_to_slash_unique tail).
Qed.

End UrlFacts.

Lemma habr_comment_url_witness :
  ∃ tail segment : pystr,
    get_comment_url lower_basic repr_demo (JStr (u "Habr_comments"))
      (JStr (u "https://habr.com/articles/articles/5/")) (u "99")
    = Ok (u "https://habr.com/ru/articles/" ++ segment
            ++ u "/comments/#comment_" ++ u "99")
    ∧ last_piece (u "/articles/") (u "https://habr.com/articles/articles/5/")
        tail
    ∧ up_to_slash tail segment
    ∧ ∀ tail' segment' : pystr,
        last_piece (u "/articles/")
          (u "https://habr.com/articles/articles/5/") tail' →
        up_to_slash tail' segment' →
        segment' = segment.
Proof.
  destruct (habr_comment_url lower_basic repr_demo (u "Habr_comments")
              (u "https://habr.com/articles/articles/5/") (u "99"))
    as [_ H]; [vm_compute; reflexivity|].
  refine (H _). vm_compute. reflexivity.
Defined.

(** Two "/articles/" that overlap: the cut is made at the first, and the
    second is not seen. *)
Example habr_overlapping_articles :
  get_comment_url lower_basic repr_demo (JStr (u "habr_comments"))
    (JStr (u "https://habr.com/articles/articles/5/")) (u "99")
  = Ok (u "https://habr.com/ru/articles/articles/comments/#comment_99").
Proof. vm_compute. reflexivity. Qed.

(** A habr source with an article URL from elsewhere. *)
Example habr_unknown_url :
  get_comment_url lower_basic repr_demo (JStr (u "Habr_comments"))
    (JStr (u "https://example.org/ru/articles/12345/")) (u "99")
  = Ok (u "Unknown Habr URL: https://example.org/ru/articles/12345/").
Proof. vm_compute. reflexivity. Qed.

(** The habr example of the specification. *)
Example habr_comment_url_example :
  get_comment_url lower_basic repr_demo (JStr (u "habr_comments"))
    (JStr (u "https://habr.com/ru/articles/12345/")) (u "99")
  = Ok (u "https://habr.com/ru/articles/12345/comments/#comment_99").
Proof. vm_compute. reflexivity. Qed.

(** C3, as stated, fails: an article URL on habr.com without any
    "/articles/" segment does not give the diagnostic; the text up to the
    first "/" of the whole URL is spliced into a link. *)
Lemma habr_url_without_articles_segment :
  let article_url := u "https://habr.com/ru/post/12345/" in
  let built :=
    get_comment_url lower_basic repr_demo (JStr (u "habr_comments"))
      (JStr article_url) (u "99") in
  str_in (u "/articles/") article_url = false
  ∧ built = Ok (u "https://habr.com/ru/articles/https:/comments/#comment_99")
  ∧ built ≠ Ok (u "Unknown Habr URL: " ++ article_url).
Proof. vm_compute. repeat split; discriminate. Qed.

(** C2, at the input of the specification: the trailing slash is looked
    for before the anchor is cut, so the slash in front of "#section"
    stays and the result has two. *)
Theorem tj_url_keeps_slash_before_anchor :
  let built :=
    get_comment_url lower_basic repr_demo (JStr (u "t-j_comments"))
      (JStr (u "https://example.com/article/#section")) (u "3") in
  built = Ok (u "https://example.com/article//#c3")
  ∧ built ≠ Ok (u "https://example.com/article/#c3").
Proof. vm_compute. split; [reflexivity|discriminate]. Qed.

(** Without an anchor the trailing slash is removed as intended. *)
Example tj_url_trailing_slash :
  get_comment_url lower_basic repr_demo (JStr (u "t-j_comments"))
    (JStr (u "https://example.com/article/")) (u "3")
  = Ok (u "https://example.com/article/#c3").
Proof. vm_compute. reflexivity. Qed.

Example smart_lab_url_example :
  get_comment_url lower_basic repr_demo (JStr (u "smart-lab_comments"))
    (JStr (u "https://smart-lab.ru/blog/67890.php")) (u "5")
  = Ok (u "https://smart-lab.ru/blog/67890.php#comment5").
Proof. vm_compute. reflexivity. Qed.

(** * The excluded authors *)

(** C8, as the code has it.  Double quotes, then single quotes, are
    stripped from both ends of the whole string (no whitespace there);
    the result is cut at the commas; every element is trimmed of
    whitespace only, and the elements that are empty after trimming are
    dropped.  The set holds exactly the trimmed elements that remain;
    each is non-empty, has no comma, and neither starts nor ends with
    whitespace. *)
Theorem exclude_authors_members (exclude_str author : pystr) :
  let unquoted := str_strip_chars (u "'") (str_strip_chars dquote exclude_str) in
  (author ∈ exclude_authors exclude_str ↔
   author ≠ [] ∧ ∃ element, element ∈ str_split (u ",") unquoted
                             ∧ author = str_strip element)
  ∧ (author ∈ exclude_authors exclude_str →
     str_in (u ",") author = false
     ∧ (∀ c, head author = Some c → is_space c = false)
     ∧ (∀ c, last author = Some c → is_space c = false)).
Proof.
  intros unquoted.
  assert (author ∈ exclude_authors exclude_str ↔
          author ≠ [] ∧ ∃ element, element ∈ str_split (u ",") unquoted
                                    ∧ author = str_strip element) as Hiff.
  { unfold exclude_authors. fold unquoted.
    rewrite elem_of_list_to_set, list_elem_of_In, in_map_iff. split.
    - intros (e & <- & He). apply list_elem_of_In, list_elem_of_filter in He.
      destruct He. eauto.
    - intros (Hne & e & He & ->). exists e. split; [done|].
      apply list_elem_of_In, list_elem_of_filter. done. }
  split; [done|].
  intros (Hne & e & He & ->)%Hiff. unfold str_strip in *.
  destruct (strip_by_spec is_space e) as (l & r & E & _ & _ & Hhead & Hlast).
  split; [|done].
  apply (str_in_factor _ l _ r). rewrite <- E.
  assert (u "," ≠ []) as Hsep by done.
  pose proof (str_split_pieces (u ",") unquoted Hsep) as Hall.
  rewrite Forall_forall in Hall. by apply Hall.
Qed.

Lemma exclude_authors_members_witness :
  u "Михаил Шардин" ∈ exclude_authors (u "'empenoso, Михаил Шардин '")
  ∧ str_in (u ",") (u "Михаил Шардин") = false.
Proof.
  destruct (exclude_authors_members (u "'empenoso, Михаил Шардин '")
              (u "Михаил Шардин")) as [Hiff Hshape].
  assert (u "Михаил Шардин" ∈ exclude_authors (u "'empenoso, Михаил Шардин '"))
    as Hin.
  { apply Hiff. split; [vm_compute; discriminate|].
    exists (u " Михаил Шардин "). split; [|vm_compute; reflexivity].
    apply (list_elem_of_lookup_2 _ 1). vm_compute. reflexivity. }
  split; [exact Hin|]. apply (Hshape Hin).
Defined.

(** C8, as stated, fails: a quote inside the list is not trimmed from its
    element, which the wording of the specification would do. *)
Lemma exclude_authors_keeps_inner_quote :
  (u "'y" ∈ exclude_authors (u "x, 'y'"))
  ∧ (u "y" ∉ exclude_authors (u "x, 'y'"))
  ∧ (u "y" ∈ exclude_authors_as_specified (u "x, 'y'"))
  ∧ exclude_authors (u "x, 'y'") ≠ exclude_authors_as_specified (u "x, 'y'").
Proof.
  assert (u "y" ∉ exclude_authors (u "x, 'y'")) as Hout by refute_by_compute.
  assert (u "y" ∈ exclude_authors_as_specified (u "x, 'y'")) as Hin
    by by_compute.
  split; [by_compute|]. split; [done|]. split; [done|].
  intros E. by rewrite E in Hout.
Qed.

(** Whitespace around a quoted whole string is not trimmed either. *)
Example exclude_authors_outer_whitespace :
  elements (exclude_authors (u " 'a' ")) = [u "'a'"].
Proof. vm_compute. reflexivity. Qed.

Example exclude_authors_default :
  elements (EXCLUDE_AUTHORS_of ∅) = [u "empenoso"; u "Михаил Шардин"].
Proof. vm_compute. reflexivity. Qed.

(** * The aggregation sort *)

Lemma StronglySorted_weaken {A} (R R' : A → A → Prop) (P : A → Prop)
    (l : list A) :
  (∀ a b, P a → P b → R a b → R' a b) →
  Forall P l → StronglySorted R l → StronglySorted R' l.
Proof.
  intros HR HP. induction 1 as [|a l _ IH Hall]; [constructor|].
  apply Forall_cons in HP as [Ha HP]. constructor; [by apply IH|].
  rewrite Forall_forall in *. intros b Hb. apply HR; auto.
Qed.

(** ** Keys *)

Lemma sort_key_object (c : json) :
  is_object c = true → sort_key c = Ok (id_of c).
Proof. destruct c; try done. intros _. unfold sort_key, id_of. simpl. by destruct (default _ _). Qed.

Lemma with_keys_objects (comments : list json) :
  Forall (λ c, is_object c = true) comments →
  with_keys comments = Ok (map (λ c, (id_of c, c)) comments).
Proof.
  induction 1 as [|c l Hc _ IH]; [done|].
  simpl. rewrite (sort_key_object c Hc). simpl. by rewrite IH.
Qed.

(** On integers and booleans [<] is the order of the integers. *)
Lemma key_lt_ints (a b : json) (x y : Z) :
  int_of_key a = Some x → int_of_key b = Some y →
  key_lt a b = Ok (x <? y)%Z.
Proof.
  intros Ha Hb. unfold key_lt.
  assert (∀ k z, int_of_key k = Some z → number_of k = Some (Finite (inject_Z z)))
    as Hnum.
  { intros k z. destruct k; simpl; try done; by intros [= <-]. }
  rewrite (py_lt_numbers a b _ _ (Hnum _ _ Ha) (Hnum _ _ Hb)). f_equal.
  unfold num_lt, Qle_bool. simpl. rewrite !Z.mul_1_r.
  apply eq_true_iff_eq. rewrite negb_true_iff, Z.leb_gt, Z.ltb_lt. done.
Qed.

Lemma int_of_key_nan_free (k : json) (z : Z) :
  int_of_key k = Some z → nan_free k.
Proof. by destruct k. Qed.

(** An id that [<] does not put after another is not after it. *)
Lemma key_lt_false_id_le (a b : json) :
  nan_free a → nan_free b → key_lt b a = Ok false → id_le a b.
Proof.
  unfold key_lt, id_le. intros Ha Hb Hlt.
  destruct (py_lt_Ok _ _ _ Hlt) as [Hk Hkind].
  destruct (decide (kind_of a = NumberKind)) as [Hna|Hna].
  - destruct (kind_number a Hna) as (p & Hp & _).
    destruct (kind_number b) as (q & Hq & _); [congruence|].
    rewrite Hp, Hq. rewrite (py_lt_numbers b a q p Hq Hp) in Hlt.
    injection Hlt as Hlt.
    pose proof (nan_free_number _ _ Hp Ha). pose proof (nan_free_number _ _ Hq Hb).
    destruct p, q; try done. simpl in *.
    apply negb_false_iff, Qle_bool_iff in Hlt. done.
  - destruct a, b; try done. simpl in *. by injection Hlt.
Qed.

(** Numbers of all kinds compare with each other, and so do strings. *)
Lemma numbers_comparable (a b : json) :
  is_number a = true → is_number b = true → comparable a b.
Proof.
  intros Ha Hb. unfold comparable, key_lt.
  destruct (number_of_Some a Ha) as (p & Hp & _).
  destruct (number_of_Some b Hb) as (q & Hq & _).
  rewrite (py_lt_numbers a b p q Hp Hq), (py_lt_numbers b a q p Hq Hp). eauto.
Qed.

Lemma strings_comparable (s t : pystr) : comparable (JStr s) (JStr t).
Proof. unfold comparable, key_lt. simpl. eauto. Qed.

(** ** Stable insertion sort on comparable keys *)

Lemma insert_keyed_in_order (x : json * json) (l : list (json * json)) :
  nan_free x.1 →
  Forall (λ y, nan_free y.1 ∧ comparable x.1 y.1) l →
  StronglySorted key_le l →
  ∃ r, insert_keyed x l = Ok r
       ∧ r ≡ₚ x :: l
       ∧ StronglySorted key_le r
       ∧ ∀ k, filter (λ y, py_same k y.1 = true) r
              = filter (λ y, py_same k y.1 = true) (x :: l).
Proof.
  intros Hx. induction 1 as [|y l [Hy (r1 & r2 & Hxy & Hyx)] Hl IH].
  - intros _. exists [x]. simpl. repeat split; try done. repeat constructor.
  - intros [Hs Hall]%StronglySorted_inv. simpl. rewrite Hyx. simpl.
    destruct r2.
    + destruct (IH Hs) as (r & -> & Hperm & Hsort & Hstab). simpl.
      exists (y :: r). split; [done|]. split; [|split].
      * rewrite Hperm. apply Permutation_swap.
      * constructor; [done|]. rewrite Hperm. constructor; [|done].
        unfold key_le. rewrite Hxy. f_equal. destruct r1; [|done].
        exfalso. by apply (py_lt_asym x.1 y.1).
      * intros k. rewrite !filter_cons, Hstab, !filter_cons.
        repeat case_decide; try done. exfalso.
        assert (py_same y.1 x.1 = true) as Hsame.
        { apply (py_same_trans _ k); [by rewrite py_same_sym|done]. }
        unfold key_lt in Hyx. rewrite (py_lt_same_l _ _ _ Hsame) in Hyx.
        by apply (py_lt_irrefl x.1).
    + exists (x :: y :: l). split; [done|]. split; [done|]. split; [|done].
      constructor; [by constructor|]. constructor; [done|].
      rewrite Forall_forall in Hl, Hall. apply Forall_forall. intros c Hc.
      destruct (Hl c Hc) as [Hnc (r3 & r4 & Hxc & Hcx)].
      unfold key_le. rewrite Hcx. f_equal. destruct r4; [|done]. exfalso.
      apply (py_le_trans x.1 y.1 c.1); try done. by apply Hall.
Qed.

Lemma sort_keyed_in_order (l : list (json * json)) :
  Forall (λ x, nan_free x.1) l →
  ForallOrdPairs (λ x y, comparable x.1 y.1) l →
  ∃ r, sort_keyed l = Ok r
       ∧ r ≡ₚ l
       ∧ StronglySorted key_le r
       ∧ ∀ k, filter (λ y, py_same k y.1 = true) r
              = filter (λ y, py_same k y.1 = true) l.
Proof.
  intros Hnan Hpairs.
  induction Hpairs as [|x l Hx Hl IH]; simpl.
  - exists []. repeat split; try done. constructor.
  - apply Forall_cons in Hnan as [Hnx Hnl].
    destruct (IH Hnl) as (r & -> & Hperm & Hsort & Hstab). simpl.
    destruct (insert_keyed_in_order x r) as (r' & E & Hp' & Hs' & Hst');
      [done| |done|].
    { rewrite Hperm. apply Forall_and. split; [done|].
      by apply Forall_forall, Forall_forall. }
    exists r'. split; [done|]. split; [by rewrite Hp', Hperm|].
    split; [done|]. intros k. by rewrite Hst', !filter_cons, Hstab.
Qed.

Lemma keys_ordered_nan_free (keyed : list (json * json)) :
  Forall (λ x, nan_free x.1) keyed → keys_ordered keyed = true.
Proof.
  intros H. unfold keys_ordered. apply orb_true_iff. right.
  apply forallb_forall. intros x Hx%list_elem_of_In.
  rewrite Forall_forall in H. by rewrite (H x Hx).
Qed.

Lemma has_int_id_key (c : json) :
  has_int_id c = true →
  record_key c = Some (KInt (rank_int c))
  ∧ ∃ k, sort_key c = Ok k ∧ int_of_key k = Some (rank_int c).
Proof.
  unfold has_int_id, rank_int, record_key.
  destruct (sort_key c) as [k|]; [|done].
  destruct k; simpl; try done; eauto.
Qed.

Lemma has_str_id_key (c : json) :
  has_str_id c = true →
  record_key c = Some (KStr (rank_str c))
  ∧ ∃ k, sort_key c = Ok k ∧ k = JStr (rank_str c).
Proof.
  unfold has_str_id, rank_str, record_key.
  destruct (sort_key c) as [k|]; [|done].
  destruct k; simpl; try done; eauto.
Qed.

Lemma key_lt_int (x y : json * json) :
  int_of_key x.1 = Some (rank_int x.2) →
  int_of_key y.1 = Some (rank_int y.2) →
  key_lt x.1 y.1 = Ok (rank_int x.2 <? rank_int y.2)%Z.
Proof. apply key_lt_ints. Qed.

Lemma key_lt_str (x y : json * json) :
  x.1 = JStr (rank_str x.2) → y.1 = JStr (rank_str y.2) →
  key_lt x.1 y.1 = Ok (str_lt (rank_str x.2) (rank_str y.2)).
Proof. by intros -> ->. Qed.

(** C4, as the code has it.  On records each two of whose ids [<]
    compares (a null or absent id counting as the integer 0), with no
    NaN within reach of [<] when there are two records or more, the sort
    of [main] returns a rearrangement of the list that is ascending in
    the id: numbers by value, integers, booleans and floats alike,
    strings by code points, lists as [<] orders them.  It is stable: the
    records whose id equals a given value keep the order in which they
    came. *)
Theorem sort_comments_stable (comments : list json) :
  sortable_ids comments →
  ∃ sorted, sort_comments comments = Ok sorted
    ∧ sorted ≡ₚ comments
    ∧ StronglySorted (λ a b, id_le (id_of a) (id_of b)) sorted
    ∧ ∀ k, filter (λ c, py_same k (id_of c) = true) sorted
           = filter (λ c, py_same k (id_of c) = true) comments.
Proof.
  intros (Hobj & Hnan & Hpairs). unfold sort_comments.
  rewrite (with_keys_objects comments Hobj). cbn [mbind result_bind].
  destruct Hnan as [Hlen|Hnan].
  { destruct comments as [|c [|]]; simpl in Hlen; try lia.
    - exists []. repeat split; try done. constructor.
    - exists [c]. repeat split; try done. repeat constructor. }
  set (keyed := map (λ c, (id_of c, c)) comments).
  assert (Forall (λ x, nan_free x.1) keyed) as Hnk.
  { apply Forall_fmap. by eapply Forall_impl; [exact Hnan|]. }
  assert (Forall (λ x, x.1 = id_of x.2) keyed) as Hid.
  { apply Forall_fmap. by apply Forall_forall. }
  assert (map snd keyed = comments) as Hsnd.
  { unfold keyed. rewrite map_map. apply map_id. }
  rewrite (keys_ordered_nan_free keyed Hnk).
  destruct (sort_keyed_in_order keyed Hnk) as (r & -> & Hperm & Hsort & Hstab).
  { unfold keyed. clear -Hpairs.
    induction Hpairs as [|c l Hc _ IH]; simpl; constructor; [|done].
    apply Forall_fmap. by eapply Forall_impl; [exact Hc|]. }
  cbn [mbind result_bind].
  pose proof Hid as Hid'.
  rewrite <- Hperm in Hnk, Hid.
  exists (map snd r). split; [done|]. split; [by rewrite Hperm, Hsnd|]. split.
  - clear -Hsort Hnk Hid.
    induction Hsort as [|x l Hl IH Hall]; simpl; constructor.
    + apply IH; by eapply Forall_inv_tail.
    + apply Forall_cons in Hnk as [Hnx Hnl], Hid as [Hix Hil].
      apply Forall_fmap. apply Forall_forall. intros y Hy.
      rewrite Forall_forall in Hall, Hnl, Hil. simpl.
      rewrite <- Hix, <- (Hil y Hy).
      apply key_lt_false_id_le; [done|by apply Hnl|by apply Hall].
  - intros k. rewrite <- Hsnd.
    assert (∀ l : list (json * json), Forall (λ x, x.1 = id_of x.2) l →
              filter (λ c, py_same k (id_of c) = true) (map snd l)
              = map snd (filter (λ y, py_same k y.1 = true) l)) as Hmap.
    { clear. induction 1 as [|x l Hx _ IH]; [done|].
      simpl. rewrite !filter_cons, IH, <- Hx.
      by case_decide. }
    by rewrite !Hmap, Hstab.
Qed.

Lemma sort_comments_stable_witness :
  ∃ sorted,
    sort_comments [comment_5; comment_2_5; comment_null; comment_2a;
                   comment_2_0; comment_true; comment_2b] = Ok sorted
    ∧ sorted ≡ₚ [comment_5; comment_2_5; comment_null; comment_2a;
                 comment_2_0; comment_true; comment_2b]
    ∧ StronglySorted (λ a b, id_le (id_of a) (id_of b)) sorted
    ∧ ∀ k, filter (λ c, py_same k (id_of c) = true) sorted
           = filter (λ c, py_same k (id_of c) = true)
               [comment_5; comment_2_5; comment_null; comment_2a;
                comment_2_0; comment_true; comment_2b].
Proof.
  apply sort_comments_stable. split; [|split].
  - repeat constructor.
  - right. repeat constructor; vm_compute; reflexivity.
  - repeat constructor; eexists _, _; vm_compute; split; reflexivity.
Defined.

(** The example of the specification: ids 5, null, 2, 2. *)
Example sort_comments_example :
  sort_comments [comment_5; comment_null; comment_2a; comment_2b]
  = Ok [comment_null; comment_2a; comment_2b; comment_5].
Proof. vm_compute. reflexivity. Qed.

(** Integers, booleans and floats sort together by value; 2, 2.0 and 2
    are equal ids and keep their order. *)
Example sort_comments_numbers :
  sort_comments [comment_5; comment_2_5; comment_null; comment_2a;
                 comment_2_0; comment_true; comment_2b]
  = Ok [comment_null; comment_true; comment_2a; comment_2_0; comment_2b;
        comment_2_5; comment_5].
Proof. vm_compute. reflexivity. Qed.

(** String ids sort among themselves, and so do list ids. *)
Example sort_comments_strings :
  sort_comments [comment_b; comment_a] = Ok [comment_a; comment_b]
  ∧ sort_comments [comment_list_1_2; comment_list_1]
    = Ok [comment_list_1; comment_list_1_2].
Proof. vm_compute. split; reflexivity. Qed.

(** C4, as stated, fails: a string id does not compare with the 0 that
    stands for a null or an absent id, and the sort raises. *)
Lemma sort_comments_string_and_missing_id :
  sort_key comment_a = Ok (JStr (u "a"))
  ∧ sort_key comment_no_id = Ok (JInt 0)
  ∧ sort_key comment_null = Ok (JInt 0)
  ∧ sort_comments [comment_a; comment_no_id] = Raise TypeError
  ∧ sort_comments [comment_null; comment_a] = Raise TypeError.
Proof. vm_compute. repeat split; reflexivity. Qed.

(** With a NaN among the ids of two records there is no ascending
    order to reach: a NaN is neither before nor after any number, while
    [<] answers [False] without raising. *)
Lemma nan_id_has_no_place (c : json) (p : number) :
  number_of (id_of c) = Some p →
  ¬ id_le (id_of comment_nan) (id_of c) ∧ ¬ id_le (id_of c) (id_of comment_nan)
  ∧ key_lt (id_of comment_nan) (id_of c) = Ok false
  ∧ key_lt (id_of c) (id_of comment_nan) = Ok false.
Proof.
  intros Hp. unfold id_le, key_lt.
  change (id_of comment_nan) with (JFloat S754_nan).
  rewrite (py_lt_numbers (JFloat S754_nan) (id_of c) NaN p eq_refl Hp).
  rewrite (py_lt_numbers (id_of c) (JFloat S754_nan) p NaN Hp eq_refl).
  rewrite Hp. simpl. destruct p; simpl; repeat split; auto.
Qed.

(** * The report *)

Section ReportFacts.

Variable str_lower : pystr → pystr.
Variable py_repr : json → pystr.

(** On strings the URL synthesis never raises. *)
Lemma get_comment_url_total (directory_name article_url comment_id : pystr) :
  ∃ comment_url,
    get_comment_url str_lower py_repr (JStr directory_name) (JStr article_url)
      comment_id = Ok comment_url.
Proof.
  unfold get_comment_url. cbn [as_str py_contains mbind result_bind].
  repeat (match goal with
          | |- context [if ?b then _ else _] => destruct b
          end; cbn [as_str py_contains mbind result_bind]); eauto.
Qed.

Lemma comment_block_unfold (author datetime text comment_url : pystr) :
  comment_block author datetime text comment_url
  = [ u "Автор: " ++ author ++ line_feed;
      u "Дата: " ++ datetime ++ line_feed;
      u "Текст: " ++ text ++ line_feed;
      u "Ссылка: " ++ comment_url ++ line_feed ].
Proof. done. Qed.

Lemma write_all_encodable (strings written : list pystr) :
  Forall (λ w, utf8_encodable w = true) strings →
  write_all strings written = (written ++ strings, Ok ()).
Proof.
  intros H. revert written. induction H as [|w l Hw _ IH]; intros written.
  - simpl. by rewrite app_nil_r.
  - simpl. rewrite Hw, IH. by rewrite <- app_assoc.
Qed.

Lemma write_all_stops (before after written : list pystr) (bad : pystr) :
  Forall (λ w, utf8_encodable w = true) before →
  utf8_encodable bad = false →
  write_all (before ++ bad :: after) written
  = (written ++ before, Raise UnicodeEncodeError).
Proof.
  intros H Hbad. revert written. induction H as [|w l Hw _ IH]; intros written.
  - simpl. by rewrite Hbad, app_nil_r.
  - simpl. rewrite Hw, IH. by rewrite <- app_assoc.
Qed.

(** What [f.write] took is a prefix of what it was handed, and all of
    it when no call raised. *)
Lemma write_all_prefix (strings written : list pystr) :
  ∃ taken,
    (write_all strings written).1 = written ++ taken
    ∧ taken `prefix_of` strings
    ∧ Forall (λ w, utf8_encodable w = true) taken
    ∧ ((write_all strings written).2 = Ok () → taken = strings)
    ∧ (taken = strings → (write_all strings written).2 = Ok ()).
Proof.
  revert written. induction strings as [|w l IH]; intros written; simpl.
  - exists []. by rewrite app_nil_r.
  - destruct (utf8_encodable w) eqn:Hw.
    + destruct (IH (written ++ [w])) as (taken & E & Hpre & Henc & Hok & Hall).
      exists (w :: taken). rewrite E, <- app_assoc. split; [done|].
      split; [by apply prefix_cons|]. split; [by constructor|].
      split; [intros ?; f_equal; auto|]. intros Heq. apply Hall. congruence.
    + exists []. rewrite app_nil_r. split; [done|].
      split; [apply prefix_nil|]. split; [constructor|]. split; intros; done.
Qed.

Lemma write_comments_layout (comments : list json) (written : list pystr) :
  Forall (writable str_lower py_repr) comments →
  ∃ blocks,
    Forall2 (block_of str_lower py_repr) comments blocks
    ∧ write_comments str_lower py_repr comments written
      = (written ++ interleave separator blocks, Ok ()).
Proof.
  intros Hall. revert written.
  induction Hall as [|c rest Hc Hrest IH]; intros written.
  - exists []. split; [constructor|]. simpl. by rewrite app_nil_r.
  - destruct Hc as (Hobj & block & Hb & Henc).
    pose proof Hb as (comment_url & Hurl & Eb).
    destruct c as [| | | | | |m]; try discriminate.
    cbn [write_comments dict_get mbind result_bind].
    simpl field_or in Hurl, Eb. rewrite Hurl. cbn [mbind result_bind].
    rewrite comment_block_unfold, <- Eb,
      (write_all_encodable block written Henc).
    destruct rest as [|c' rest'].
    + exists [block]. split; [by repeat constructor|]. reflexivity.
    + destruct (IH ((written ++ block) ++ [separator]))
        as (blocks & Hblocks & ->).
      exists (block :: blocks). split; [by constructor|].
      inversion Hblocks; subst. cbn [interleave].
      by rewrite <- !app_assoc.
Qed.

(** A report written to its end is the blocks of its records with one
    separator between neighbours. *)
Lemma write_comments_Ok (comments : list json) (written written' : list pystr) :
  write_comments str_lower py_repr comments written = (written', Ok ()) →
  ∃ blocks,
    Forall2 (block_of str_lower py_repr) comments blocks
    ∧ written' = written ++ interleave separator blocks.
Proof.
  revert written. induction comments as [|c rest IH]; intros written.
  - simpl. intros [= <-]. exists []. split; [constructor|].
    simpl. by rewrite app_nil_r.
  - cbn [write_comments].
    destruct c as [| | | | | |m]; try (cbn [dict_get mbind result_bind]; done).
    cbn [dict_get mbind result_bind].
    destruct (get_comment_url _ _ _ _ _) as [comment_url|e] eqn:Hurl;
      cbn [mbind result_bind]; [|done].
    set (block := comment_block _ _ _ comment_url).
    destruct (write_all_prefix block written) as (taken & E & _ & _ & Hok & _).
    destruct (write_all block written) as [w r]. simpl in E, Hok. subst w.
    destruct r as [[]|e]; [|done]. rewrite (Hok eq_refl).
    assert (block_of str_lower py_repr (JObj m) block) as Hb.
    { exists comment_url. split; [done|]. apply comment_block_unfold. }
    destruct rest as [|c' rest'].
    + simpl. intros [= <-]. exists [block]. split; [by repeat constructor|done].
    + intros (blocks & Hblocks & ->)%IH.
      exists (block :: blocks). split; [by constructor|].
      inversion Hblocks; subst. cbn [interleave].
      by rewrite <- !app_assoc.
Qed.

End ReportFacts.

Lemma comment_block_shape (author datetime text comment_url : pystr) :
  length (comment_block author datetime text comment_url) = 4
  ∧ separator ∉ comment_block author datetime text comment_url.
Proof.
  split; [done|]. unfold comment_block.
  rewrite !elem_of_cons, elem_of_nil.
  intros [E|[E|[E|[E|[]]]]]; vm_compute in E; discriminate.
Qed.

Lemma interleave_nonempty (sep : pystr) (block : list pystr)
    (rest : list (list pystr)) :
  block ≠ [] → interleave sep (block :: rest) ≠ [].
Proof. destruct rest, block; done. Qed.

(** The last written line is the last line of the last block. *)
Lemma interleave_last (sep : pystr) (blocks : list (list pystr)) :
  Forall (λ block, block ≠ []) blocks →
  last (interleave sep blocks) = last blocks ≫= last.
Proof.
  induction 1 as [|block rest Hb Hrest IH]; [done|].
  destruct rest as [|block' rest']; [done|].
  change (interleave sep (block :: block' :: rest'))
    with (block ++ sep :: interleave sep (block' :: rest')).
  rewrite last_app_cons, (last_cons_cons block), <- IH.
  apply Forall_cons in Hrest as [Hb' Hrest'].
  pose proof (interleave_nonempty sep block' rest' Hb') as Hne.
  destruct (interleave sep (block' :: rest')) as [|w W]; [done|].
  by rewrite last_cons_cons.
Qed.

(** Separators are written between blocks only. *)
Lemma interleave_separators (blocks : list (list pystr)) :
  Forall (λ block, separator ∉ block) blocks →
  length (filter (λ line, line = separator) (interleave separator blocks))
  = length blocks - 1.
Proof.
  induction 1 as [|block rest Hb Hrest IH]; [done|].
  assert (filter (λ line, line = separator) block = []) as Hnone.
  { clear -Hb. induction block as [|l block IH]; [done|].
    rewrite filter_cons. rewrite not_elem_of_cons in Hb. destruct Hb.
    case_decide; [done|]. by apply IH. }
  destruct rest as [|block' rest'].
  - simpl. by rewrite Hnone.
  - change (interleave separator (block :: block' :: rest'))
      with (block ++ separator :: interleave separator (block' :: rest')).
    rewrite filter_app, filter_cons, Hnone.
    rewrite decide_True by done. simpl in *. rewrite IH. lia.
Qed.

Lemma split_go_lines (fuel : nat) (bodies : list pystr) :
  Forall (λ body, 10%N ∉ body) bodies →
  length (concat (map (λ body, body ++ newline) bodies)) ≤ fuel →
  split_go fuel newline (concat (map (λ body, body ++ newline) bodies))
  = bodies ++ [[]].
Proof.
  intros Hall. revert fuel.
  induction Hall as [|body bodies Hb _ IH]; intros fuel Hlen.
  - by destruct fuel.
  - simpl in *. rewrite <- app_assoc in *. unfold newline in *. simpl in *.
    rewrite length_app in Hlen. simpl in Hlen.
    destruct fuel as [|fuel]; [lia|]. simpl.
    rewrite str_find_char by done. f_equal. apply IH. lia.
Qed.

(** When every written string is a single line, the lines of the file
    are the written strings, in order, followed by the empty rest after
    the last line break. *)
Lemma file_lines_of_writes (writes : list pystr) :
  Forall single_line writes →
  ∃ bodies, writes = map (λ body, body ++ newline) bodies
            ∧ file_lines (concat writes) = bodies ++ [[]].
Proof.
  intros Hall.
  assert (∃ bodies, writes = map (λ body, body ++ newline) bodies
                    ∧ Forall (λ body, 10%N ∉ body) bodies)
    as (bodies & -> & Hb).
  { induction Hall as [|w writes (body & -> & Hbody) _ (bodies & -> & Hb)].
    - by exists [].
    - exists (body :: bodies). split; [done|]. by constructor. }
  exists bodies. split; [done|]. by apply split_go_lines.
Qed.

Lemma separator_single_line : single_line separator.
Proof.
  exists (replicate 100 61%N). split; [done|].
  by intros [[=] _]%elem_of_replicate.
Qed.

Lemma interleave_single_lines (blocks : list (list pystr)) :
  Forall (Forall single_line) blocks →
  Forall single_line (interleave separator blocks).
Proof.
  induction 1 as [|block rest Hb _ IH]; [done|].
  destruct rest as [|block' rest']; [done|].
  change (interleave separator (block :: block' :: rest'))
    with (block ++ separator :: interleave separator (block' :: rest')).
  apply Forall_app. split; [done|].
  constructor; [apply separator_single_line|done].
Qed.

(** The report as a file: when no line of a block holds an inner line
    break, the lines of the file are the written lines, so the blocks
    and the separators of the layout are lines of the file. *)
Lemma report_file_lines (blocks : list (list pystr)) :
  Forall (Forall single_line) blocks →
  ∃ bodies,
    interleave separator blocks = map (λ body, body ++ newline) bodies
    ∧ file_lines (concat (interleave separator blocks)) = bodies ++ [[]].
Proof. intros H. by apply file_lines_of_writes, interleave_single_lines. Qed.

(** One accepted record: one block, no separator. *)
Example report_single_comment :
  write_comments lower_basic repr_demo [comment_hello] []
  = ([ u "Автор: reader" ++ newline;
       u "Дата: 2025-10-04" ++ newline;
       u "Текст: I love this article a lot" ++ newline;
       u "Ссылка: https://habr.com/ru/articles/12345/comments/#comment_7"
         ++ newline ],
     Ok ()).
Proof. vm_compute. reflexivity. Qed.

Example report_two_comments :
  (write_comments lower_basic repr_demo [comment_thanks; comment_hello] []).1
    !! 4 = Some separator
  ∧ length (write_comments lower_basic repr_demo
              [comment_thanks; comment_hello] []).1 = 9.
Proof. vm_compute. split; reflexivity. Qed.

(** * Per-file processing and the run *)

Section RunFacts.

Context {score : Type}.
Variable score_geb : score → score → bool.
Variable argmax : list score → result nat.
Variable str_lower : pystr → pystr.
Variable py_repr : json → pystr.

#[local] Abbreviation scan := (scan_comments score_geb argmax str_lower).
#[local] Abbreviation process := (process_json_file score_geb argmax str_lower).
#[local] Abbreviation files_loop := (process_files score_geb argmax str_lower).
#[local] Abbreviation dirs_loop := (process_dirs score_geb argmax str_lower).
#[local] Abbreviation run := (main score_geb argmax str_lower py_repr).

(** What the loop appends: accepted records of the file, each with the
    two keys set. *)
Lemma scan_comments_accepts (analyzer : SentimentAnalyzer) (article_url : json)
    (directory_name : pystr) (comments acc accepted : list json) :
  scan analyzer article_url directory_name comments acc = Ok accepted →
  ∃ added, accepted = acc ++ added ∧
    Forall (λ r, ∃ original,
              JObj original ∈ comments
              ∧ r = JObj (<[u "directory_name" := JStr directory_name]>
                            (<[u "article_url" := article_url]> original)))
      added.
Proof.
  revert acc. induction comments as [|comment rest IH]; intros acc; simpl.
  - intros [= <-]. exists []. by rewrite app_nil_r.
  - destruct comment as [| | | | | |m]; try discriminate.
    cbn [dict_get mbind result_bind dict_set].
    assert (∀ acc', scan analyzer article_url directory_name rest acc' = Ok accepted →
              ∃ added, accepted = acc' ++ added ∧
                Forall (λ r, ∃ original, JObj original ∈ JObj m :: rest
                   ∧ r = JObj (<[u "directory_name" := JStr directory_name]>
                                 (<[u "article_url" := article_url]> original)))
                  added) as Hrest.
    { intros acc' (added & -> & Hadded)%IH. exists added. split; [done|].
      eapply Forall_impl; [exact Hadded|].
      intros r (original & Hin & ->). exists original. split; [|done].
      apply elem_of_cons. by right. }
    destruct (negb _ || negb _); [apply Hrest|].
    destruct (is_positive_comment _ _ _ _ _ _) as [[|]|]; simpl;
      [|apply Hrest|discriminate].
    intros (added & -> & Hadded)%Hrest.
    exists (JObj (<[u "directory_name" := JStr directory_name]>
                   (<[u "article_url" := article_url]> m)) :: added).
    split; [by rewrite <- app_assoc|].
    constructor; [|done]. exists m. split; [|done]. apply elem_of_cons. by left.
Qed.

Lemma py_iter_record (v : json) (items : list json) (original : gmap (list N) json) :
  py_iter v = Ok items → JObj original ∈ items → v = JArr items.
Proof.
  destruct v; simpl; try discriminate; intros [= <-]; [|done|].
  - intros (? & [=] & _)%list_elem_of_fmap.
  - intros (? & [=] & _)%list_elem_of_fmap.
Qed.

(** C10. A record returned by [process_json_file] is one of the records
    of the file's [comments] array with [article_url] set to the file's
    [url] (the empty string when the file has none) and [directory_name]
    set to the directory's name; every other key, known or not, has the
    value it had. *)
Theorem accepted_record_frame (analyzer : SentimentAnalyzer)
    (content : file_content) (file_name directory_name : pystr)
    (accepted : list json) (r : json) :
  (process content file_name analyzer directory_name).2 = Ok accepted →
  r ∈ accepted →
  ∃ (fields : gmap (list N) json) (comments : list json)
    (original updated : gmap (list N) json),
    content = Loaded (JObj fields)
    ∧ default (JArr []) (fields !! u "comments") = JArr comments
    ∧ JObj original ∈ comments
    ∧ r = JObj updated
    ∧ updated = <[u "directory_name" := JStr directory_name]>
                  (<[u "article_url" := default (JStr []) (fields !! u "url")]>
                     original)
    ∧ updated !! u "article_url" = Some (default (JStr []) (fields !! u "url"))
    ∧ updated !! u "directory_name" = Some (JStr directory_name)
    ∧ ∀ k, k ≠ u "article_url" → k ≠ u "directory_name" →
           updated !! k = original !! k.
Proof.
  destruct content as [e|data]; simpl.
  - intros [= <-] Hr. by apply elem_of_nil in Hr.
  - destruct data as [| | | | | |fields]; try discriminate.
    cbn [dict_get mbind result_bind].
    destruct (py_iter _) as [items|] eqn:Hiter; [|discriminate].
    cbn [mbind result_bind].
    intros (added & -> & Hadded)%scan_comments_accepts Hr. simpl in Hr.
    rewrite Forall_forall in Hadded.
    destruct (Hadded r Hr) as (original & Hin & ->).
    exists fields, items, original. eexists. split; [done|].
    split; [by eapply py_iter_record|]. split; [done|]. split; [done|].
    split; [done|]. split; [|split].
    + rewrite lookup_insert_ne by (by vm_compute). by rewrite lookup_insert_eq.
    + by rewrite lookup_insert_eq.
    + intros k Hk1 Hk2. by rewrite !lookup_insert_ne.
Qed.

Lemma process_files_printed (fs : FileSystem) (analyzer : SentimentAnalyzer)
    (directory : Path) (files : list Path) (st st' : progress) :
  grouped st = grouped st' →
  grouped (files_loop fs analyzer directory files st).1
  = grouped (files_loop fs analyzer directory files st').1
  ∧ (files_loop fs analyzer directory files st).2
    = (files_loop fs analyzer directory files st').2.
Proof.
  revert st st'. induction files as [|file rest IH]; intros st st' Hg; simpl.
  - done.
  - destruct (process _ _ _ _) as [out [accepted|e]]; simpl; [|done].
    apply IH. destruct accepted; simpl; by rewrite ?Hg.
Qed.

(** C9. A file that cannot be read or parsed gives an empty list after
    one warning and no exception; the loop over the files of a directory
    goes on with the remaining files, and what it collects is what it
    collects without that file.  In a file that holds an object, an
    absent [url] stands for the empty string and an absent [comments]
    for the empty list. *)
Theorem unreadable_file_is_skipped (fs : FileSystem)
    (analyzer : SentimentAnalyzer) (directory : Path) (directory_name : pystr) :
  (∀ e file_name,
     process (Unreadable e) file_name analyzer directory_name
     = ([read_warning file_name e], Ok []))
  ∧ (∀ file rest st e,
       read_json fs file = Unreadable e →
       files_loop fs analyzer directory (file :: rest) st
       = files_loop fs analyzer directory rest
           {| printed := printed st ++ [read_warning (path_name file) e];
              grouped := grouped st |})
  ∧ (∀ before file after st e,
       read_json fs file = Unreadable e →
       grouped (files_loop fs analyzer directory (before ++ file :: after) st).1
       = grouped (files_loop fs analyzer directory (before ++ after) st).1
       ∧ (files_loop fs analyzer directory (before ++ file :: after) st).2
         = (files_loop fs analyzer directory (before ++ after) st).2)
  ∧ (∀ (fields : gmap (list N) json) file_name,
       fields !! u "url" = None →
       process (Loaded (JObj fields)) file_name analyzer directory_name
       = process (Loaded (JObj (<[u "url" := JStr []]> fields))) file_name
           analyzer directory_name)
  ∧ (∀ (fields : gmap (list N) json) file_name,
       fields !! u "comments" = None →
       process (Loaded (JObj fields)) file_name analyzer directory_name
       = ([], Ok [])).
Proof.
  assert (∀ file rest st e,
       read_json fs file = Unreadable e →
       files_loop fs analyzer directory (file :: rest) st
       = files_loop fs analyzer directory rest
           {| printed := printed st ++ [read_warning (path_name file) e];
              grouped := grouped st |}) as Hskip.
  { intros file rest st e E. simpl. by rewrite E. }
  split; [done|]. split; [done|]. split; [|split].
  - intros before file after st e E. revert st.
    induction before as [|f before IH]; intros st.
    + rewrite !app_nil_l, (Hskip _ _ _ _ E). by apply process_files_printed.
    + simpl. destruct (process _ _ _ _) as [out [accepted|e']]; simpl; [|done].
      apply IH.
  - intros fields file_name Hurl. simpl. cbn [dict_get mbind result_bind].
    rewrite Hurl, lookup_insert_eq.
    by rewrite lookup_insert_ne by (by vm_compute).
  - intros fields file_name Hc. simpl. cbn [dict_get mbind result_bind].
    by rewrite Hc.
Qed.

#[local] Abbreviation productive := (accepts_some score_geb argmax str_lower).

Lemma extend_group_keys (groups : list (Path * list json)) (directory : Path)
    (items : list json) (p : Path) :
  p ∈ (extend_group groups directory items).*1 → p ∈ groups.*1 ∨ p = directory.
Proof.
  induction groups as [|[d comments] rest IH]; simpl.
  - rewrite list_elem_of_singleton. by right.
  - case_bool_decide; simpl; rewrite !elem_of_cons; [tauto|].
    intros [->|Hp]; [by left; left|]. destruct (IH Hp); [left; by right|by right].
Qed.

Lemma process_files_keys (fs : FileSystem) (analyzer : SentimentAnalyzer)
    (directory : Path) (files : list Path) (st : progress) (p : Path) :
  p ∈ (grouped (files_loop fs analyzer directory files st).1).*1 →
  p ∈ (grouped st).*1
  ∨ (p = directory ∧ ∃ file c cs,
       file ∈ files
       ∧ (process (read_json fs file) (path_name file) analyzer
            (path_name directory)).2 = Ok (c :: cs)).
Proof.
  revert st. induction files as [|file rest IH]; intros st; simpl; [by left|].
  destruct (process _ _ _ _) as [out [accepted|e]] eqn:E; simpl; [|by left].
  intros [H|(-> & f & c & cs & Hf & Hp)]%IH.
  - destruct accepted as [|c cs]; [by left|]. simpl in H.
    apply extend_group_keys in H as [H| ->]; [by left|].
    right. split; [done|]. exists file, c, cs. rewrite E.
    split; [apply elem_of_cons; by left|done].
  - right. split; [done|]. exists f, c, cs. split; [|done].
    apply elem_of_cons. by right.
Qed.

Lemma process_dirs_keys (fs : FileSystem) (analyzer : SentimentAnalyzer)
    (dirs : list Path) (st : progress) (p : Path) :
  p ∈ (grouped (dirs_loop fs analyzer dirs st).1).*1 →
  p ∈ (grouped st).*1
  ∨ (p ∈ dirs ∧ is_dir fs p = true ∧ productive fs analyzer p).
Proof.
  revert st. induction dirs as [|directory rest IH]; intros st; simpl;
    [by left|].
  destruct (is_dir fs directory) eqn:Hdir; simpl.
  - destruct (files_loop fs analyzer directory _ st) as [st' [[]|e]] eqn:E;
      simpl.
    + intros [H|(? & ? & ?)]%IH.
      * replace st' with (files_loop fs analyzer directory
                            (glob_json fs directory) st).1 in H by by rewrite E.
        apply process_files_keys in H as [H|(-> & Hp)]; [by left|].
        right. split; [apply elem_of_cons; by left|done].
      * right. split; [apply elem_of_cons; by right|done].
    + intros H.
      replace st' with (files_loop fs analyzer directory
                          (glob_json fs directory) st).1 in H by by rewrite E.
      apply process_files_keys in H as [H|(-> & Hp)]; [by left|].
      right. split; [apply elem_of_cons; by left|done].
  - intros [H|(? & ? & ?)]%IH; [by left|].
    right. split; [apply elem_of_cons; by right|done].
Qed.

Lemma save_groups_paths (groups : list (Path * list json))
    (files : list (Path * pystr)) (path : Path) :
  path ∈ (save_groups str_lower py_repr groups files).1.*1 →
  path ∈ files.*1 ∨ ∃ directory, directory ∈ groups.*1 ∧ path = output_file directory.
Proof.
  revert files. induction groups as [|[directory comments] rest IH];
    intros files; simpl; [by left|].
  assert (path ∈ (files ++ [(output_file directory,
                              concat (write_comments str_lower py_repr
                                        (default [] (match sort_comments comments with
                                                     | Ok l => Some l
                                                     | Raise _ => None
                                                     end)) []).1)]).*1 →
          path ∈ files.*1
          ∨ ∃ d, d ∈ (directory :: rest.*1) ∧ path = output_file d) as Hnew.
  { rewrite fmap_app, elem_of_app. simpl. rewrite list_elem_of_singleton.
    intros [?| ->]; [by left|]. right. exists directory.
    split; [apply elem_of_cons; by left|done]. }
  destruct (sort_comments comments) as [sorted|e]; simpl; [|by left].
  simpl in Hnew.
  destruct (write_comments str_lower py_repr sorted []) as [written [[]|e]];
    simpl in *; [|exact Hnew].
  intros [H|(d & Hd & ->)]%IH; [by apply Hnew|].
  right. exists d. split; [apply elem_of_cons; by right|done].
Qed.

Lemma output_file_inj (d d' : Path) : output_file d = output_file d' → d = d'.
Proof.
  unfold output_file, path_join. intros H. by apply app_inj_tail in H as [? _].
Qed.

(** Every report written belongs to an input directory from which some
    comment was accepted. *)
Lemma main_writes_for_productive (fs : FileSystem)
    (analyzer : SentimentAnalyzer) (path : Path) :
  path ∈ (files_written (run fs analyzer)).*1 →
  ∃ directory,
    path = output_file directory
    ∧ directory ∈ INPUT_DIRS (config analyzer)
    ∧ is_dir fs directory = true
    ∧ productive fs analyzer directory.
Proof.
  unfold main. case_bool_decide; simpl; [by intros ?%elem_of_nil|].
  destruct (dirs_loop fs analyzer _ _) as [st [[]|e]] eqn:E; simpl;
    [|by intros ?%elem_of_nil].
  destruct (save_groups str_lower py_repr (grouped st) []) as [files r] eqn:S.
  simpl. intros Hpath.
  replace files with (save_groups str_lower py_repr (grouped st) []).1 in Hpath
    by by rewrite S.
  apply save_groups_paths in Hpath as [?%elem_of_nil|(d & Hd & ->)]; [done|].
  exists d. split; [done|].
  replace st with (dirs_loop fs analyzer (INPUT_DIRS (config analyzer))
                     {| printed := []; grouped := [] |}).1 in Hd by by rewrite E.
  by apply process_dirs_keys in Hd as [?%elem_of_nil|?].
Qed.

(** C7. No report is written for a directory from which no comment was
    accepted, and when no comment is accepted in any input directory no
    file is written at all. *)
Theorem no_report_without_accepted_comments (fs : FileSystem)
    (analyzer : SentimentAnalyzer) :
  (∀ directory,
     ¬ productive fs analyzer directory →
     output_file directory ∉ (files_written (run fs analyzer)).*1)
  ∧ ((∀ directory,
        directory ∈ INPUT_DIRS (config analyzer) →
        ¬ productive fs analyzer directory) →
     files_written (run fs analyzer) = []).
Proof.
  split.
  - intros directory Hnone (d & Hd%output_file_inj & _ & _ & Hp)%main_writes_for_productive.
    by subst.
  - intros Hnone.
    destruct (files_written (run fs analyzer)) as [|[path content] rest] eqn:E;
      [done|].
    destruct (main_writes_for_productive fs analyzer path)
      as (d & _ & Hd & _ & Hp).
    { rewrite E. simpl. apply elem_of_cons. by left. }
    by destruct (Hnone d Hd).
Qed.

End RunFacts.

Lemma accepted_record_frame_witness :
  ∃ (fields : gmap (list N) json) (comments : list json)
    (original updated : gmap (list N) json),
    Loaded file_demo = Loaded (JObj fields)
    ∧ default (JArr []) (fields !! u "comments") = JArr comments
    ∧ JObj original ∈ comments
    ∧ comment_accepted = JObj updated
    ∧ updated = <[u "directory_name" := JStr (u "habr_comments")]>
                  (<[u "article_url" := default (JStr []) (fields !! u "url")]>
                     original)
    ∧ updated !! u "article_url" = Some (default (JStr []) (fields !! u "url"))
    ∧ updated !! u "directory_name" = Some (JStr (u "habr_comments"))
    ∧ ∀ k, k ≠ u "article_url" → k ≠ u "directory_name" →
           updated !! k = original !! k.
Proof.
  apply (accepted_record_frame score_geb_demo argmax_demo lower_basic
           analyzer_demo (Loaded file_demo) (u "1.json") (u "habr_comments")
           [comment_accepted] comment_accepted).
  - vm_compute. reflexivity.
  - apply elem_of_cons. by left.
Defined.

(** The unknown field of [comment_raw] is carried through. *)
Example accepted_record_keeps_unknown_field :
  process_json_file score_geb_demo argmax_demo lower_basic (Loaded file_demo)
    (u "1.json") analyzer_demo (u "habr_comments")
  = ([], Ok [comment_accepted])
  ∧ field_or comment_accepted (u "likes") JNull = JInt 12.
Proof. vm_compute. split; reflexivity. Qed.

Lemma unreadable_file_is_skipped_witness :
  process_files score_geb_demo argmax_demo lower_basic fs_demo analyzer_demo
    habr_dir [broken_file; habr_file] {| printed := []; grouped := [] |}
  = process_files score_geb_demo argmax_demo lower_basic fs_demo analyzer_demo
      habr_dir [habr_file]
      {| printed := [] ++ [read_warning (path_name broken_file) parse_error];
         grouped := [] |}.
Proof.
  destruct (unreadable_file_is_skipped score_geb_demo argmax_demo lower_basic
              fs_demo analyzer_demo habr_dir (u "habr_comments"))
    as (_ & Hskip & _).
  apply (Hskip broken_file [habr_file] {| printed := []; grouped := [] |}
           parse_error).
  vm_compute. reflexivity.
Defined.

Lemma no_report_without_accepted_comments_witness :
  output_file tj_dir
  ∉ (files_written (main score_geb_demo argmax_demo lower_basic repr_demo
                      fs_demo analyzer_demo)).*1.
Proof.
  destruct (no_report_without_accepted_comments score_geb_demo argmax_demo
              lower_basic repr_demo fs_demo analyzer_demo) as [Hnone _].
  apply Hnone. intros (file & c & cs & Hin & Hp).
  assert (glob_json fs_demo tj_dir = [tj_file]) as E by (vm_compute; reflexivity).
  rewrite E in Hin. apply list_elem_of_singleton in Hin. subst file.
  vm_compute in Hp. discriminate.
Defined.

(** The run on [fs_demo]: the broken file is reported and skipped, one
    report is written, for the directory with an accepted comment. *)
Example main_demo :
  let out := main score_geb_demo argmax_demo lower_basic repr_demo fs_demo
               analyzer_demo in
  read_warnings out = [read_warning (u "broken.json") parse_error]
  ∧ status out = Ok ()
  ∧ files_written out
    = [([u "habr_comments"; u "habr_comments_positive_comments.txt"],
        u "Автор: reader" ++ newline
        ++ u "Дата: Дата неизвестна" ++ newline
        ++ u "Текст: I love this article a lot" ++ newline
        ++ u "Ссылка: https://habr.com/ru/articles/12345/comments/#comment_7"
        ++ newline)].
Proof. vm_compute. repeat split; reflexivity. Qed.

(** Without any JSON file the run exits with code 1. *)
Example main_no_files :
  status (main score_geb_demo argmax_demo lower_basic repr_demo
            {| is_dir := λ _, true; glob_json := λ _, [];
               read_json := λ _, Unreadable [] |} analyzer_demo)
  = Raise (SystemExit 1).
Proof. vm_compute. reflexivity. Qed.

(** A document that is not an object is not caught: the exception leaves
    [process_json_file]. *)
Example process_json_file_top_level_array :
  process_json_file score_geb_demo argmax_demo lower_basic (Loaded (JArr []))
    (u "1.json") analyzer_demo (u "habr_comments")
  = ([], Raise AttributeError).
Proof. vm_compute. reflexivity. Qed.

Example str_of_int_examples :
  str_of_int 0 = u "0" ∧ str_of_int 99 = u "99" ∧ str_of_int (-5) = u "-5".
Proof. vm_compute. repeat split; reflexivity. Qed.

(** * More on URL synthesis *)

Lemma str_split_once (sep a b : pystr) :
  sep ≠ [] → str_find sep (a ++ sep ++ b) = Some (a, b) →
  str_in sep b = false →
  str_split sep (a ++ sep ++ b) = [a; b].
Proof.
  intros Hsep F Hb. unfold str_split.
  destruct (length (a ++ sep ++ b)) as [|n] eqn:L.
  - rewrite !length_app in L. destruct sep; [done|]. simpl in L. lia.
  - simpl. rewrite F. f_equal.
    apply str_in_false in Hb. destruct n; simpl; [done|]. by rewrite Hb.
Qed.

Lemma py_first_split_found (sep s a b : pystr) :
  s ≠ [] → str_find sep s = Some (a, b) → py_first (str_split sep s) = a.
Proof.
  intros Hs F. unfold str_split. destruct s; [done|]. simpl length.
  cbn [split_go]. by rewrite F.
Qed.

Section UrlMoreFacts.

Variable str_lower : pystr → pystr.
Variable py_repr : json → pystr.

#[local] Abbreviation build_url := (get_comment_url str_lower py_repr).

(** X1. Called on strings, [get_comment_url] never raises: every source
    name and every article URL, however malformed, gives some string. *)
Theorem get_comment_url_never_raises
    (directory_name article_url comment_id : pystr) :
  ∃ link,
    get_comment_url str_lower py_repr (JStr directory_name) (JStr article_url)
      comment_id = Ok link.
Proof. apply get_comment_url_total. Qed.

(** X2. For a habr source, an article URL of the canonical form
    "https://habr.com/ru/articles/<id>" followed by nothing or by "/..."
    gives the comment link of that article. *)
Theorem habr_canonical_link (directory_name article_id rest comment_id : pystr) :
  str_in (u "habr") (str_lower directory_name) = true →
  47%N ∉ article_id →
  rest = [] ∨ head rest = Some 47%N →
  str_in (u "/articles/") (article_id ++ rest) = false →
  build_url (JStr directory_name)
    (JStr (u "https://habr.com/ru/articles/" ++ article_id ++ rest)) comment_id
  = Ok (u "https://habr.com/ru/articles/" ++ article_id
          ++ u "/comments/#comment_" ++ comment_id).
Proof.
  intros Hsrc Hid Hrest Htail. unfold get_comment_url.
  cbn [as_str py_contains mbind result_bind]. rewrite Hsrc.
  assert (u "https://habr.com/ru/articles/"
          = u "https://habr.com/ru" ++ u "/articles/") as Epre
    by (vm_compute; reflexivity).
  assert (str_in (u "habr.com")
            (u "https://habr.com/ru/articles/" ++ article_id ++ rest) = true)
    as ->.
  { apply str_in_spec. exists (u "https://"), (u "/ru/articles/" ++ article_id ++ rest).
    rewrite !app_assoc. do 2 f_equal; vm_compute; reflexivity. }
  cbn [as_str mbind result_bind]. do 2 f_equal.
  rewrite Epre, <- app_assoc.
  rewrite str_split_once; [|done| |done].
  - unfold py_last. simpl List.last.
    destruct Hrest as [->|Hhead].
    + rewrite app_nil_r. rewrite str_split_absent; [done|].
      change (u "/") with [47%N]. by apply str_in_fresh.
    + destruct rest as [|c r]; [done|]. injection Hhead as ->.
      rewrite (py_first_split_found (u "/") _ article_id r);
        [done|by destruct article_id|].
      change (u "/") with [47%N]. by apply str_find_char.
  - apply str_find_here. vm_compute. reflexivity.
Qed.

(** X3. For a smart-lab source, the canonical article URL
    "https://smart-lab.ru/blog/<id>.php" gives that URL followed by
    "#comment<comment_id>". *)
Theorem smart_lab_canonical_link (directory_name article_id comment_id : pystr) :
  str_in (u "habr") (str_lower directory_name) = false →
  str_in (u "smart-lab") (str_lower directory_name) = true →
  47%N ∉ article_id → 46%N ∉ article_id →
  build_url (JStr directory_name)
    (JStr (u "https://smart-lab.ru/blog/" ++ article_id ++ u ".php")) comment_id
  = Ok ((u "https://smart-lab.ru/blog/" ++ article_id ++ u ".php")
          ++ u "#comment" ++ comment_id).
Proof.
  intros Hh Hsrc Hslash Hdot. unfold get_comment_url.
  cbn [as_str py_contains mbind result_bind]. rewrite Hh, Hsrc.
  assert (u "https://smart-lab.ru/blog/"
          = u "https://smart-lab.ru" ++ u "/blog/") as Epre
    by (vm_compute; reflexivity).
  assert (str_in (u "smart-lab.ru")
            (u "https://smart-lab.ru/blog/" ++ article_id ++ u ".php") = true)
    as ->.
  { apply str_in_spec. exists (u "https://"), (u "/blog/" ++ article_id ++ u ".php").
    rewrite !app_assoc. do 2 f_equal; vm_compute; reflexivity. }
  cbn [as_str mbind result_bind]. f_equal.
  assert (py_first
            (str_split (u ".php")
               (py_last (str_split (u "/blog/")
                           (u "https://smart-lab.ru/blog/" ++ article_id
                              ++ u ".php")))) = article_id) as ->.
  { rewrite Epre, <- app_assoc.
    rewrite str_split_once; [|done| |].
    - unfold py_last. simpl List.last.
      apply (py_first_split_found _ _ _ []); [by destruct article_id|].
      change (u ".php") with (46%N :: u "php").
      rewrite <- (app_nil_r (46%N :: u "php")) at 2.
      by apply str_find_fresh.
    - apply str_find_here. vm_compute. reflexivity.
    - change (u "/blog/") with (47%N :: u "blog/"). apply str_in_fresh.
      rewrite elem_of_app. intros [?|Hin]; [done|].
      vm_compute in Hin. repeat (apply elem_of_cons in Hin as [[=]|Hin]).
      by apply elem_of_nil in Hin. }
  rewrite <- !app_assoc. do 2 f_equal.
Qed.

(** X4. For a t-j source (a name with "t-j" or "tj" and neither "habr"
    nor "smart-lab"): an empty article URL gives the diagnostic; any
    other gives "<base>/#c<comment_id>" where <base> is a prefix of the
    URL without "#"; and when the URL has no anchor, <base> is the URL
    without its trailing slashes, so the link has a single "/" before
    "#c". *)
Theorem tj_link (directory_name article_url comment_id : pystr) :
  str_in (u "habr") (str_lower directory_name) = false →
  str_in (u "smart-lab") (str_lower directory_name) = false →
  str_in (u "t-j") (str_lower directory_name) = true
  ∨ str_in (u "tj") (str_lower directory_name) = true →
  let built := build_url (JStr directory_name) (JStr article_url) comment_id in
  (article_url = [] →
   built = Ok (u "Unknown TJ URL (comment: " ++ comment_id ++ u ")"))
  ∧ (article_url ≠ [] →
     ∃ base rest,
       built = Ok (base ++ u "/#c" ++ comment_id)
       ∧ article_url = base ++ rest
       ∧ str_in (u "#") base = false)
  ∧ (article_url ≠ [] → str_in (u "#") article_url = false →
     built = Ok (str_rstrip (u "/") article_url ++ u "/#c" ++ comment_id)
     ∧ last (str_rstrip (u "/") article_url) ≠ Some 47%N).
Proof.
  intros Hh Hs Htj built. subst built. unfold get_comment_url.
  cbn [as_str py_contains mbind result_bind]. rewrite Hh, Hs.
  assert (str_in (u "t-j") (str_lower directory_name)
          || str_in (u "tj") (str_lower directory_name) = true) as ->.
  { destruct Htj as [-> | ->]; [done|]. apply orb_true_r. }
  destruct (rstrip_by_spec (char_in (u "/")) article_url)
    as (t & Et & _ & Hlast).
  fold (str_rstrip (u "/") article_url) in Et, Hlast.
  split; [|split].
  - by intros ->.
  - intros Hne. destruct article_url as [|c url]; [done|].
    cbn [truthy as_str mbind result_bind].
    destruct (str_split_first (u "#") (str_rstrip (u "/") (c :: url)))
      as [Hno Hshape]; [done|].
    set (base := py_first (str_split (u "#") (str_rstrip (u "/") (c :: url))))
      in *.
    destruct Hshape as [E|[b E]].
    + exists base, t. split; [done|]. split; [|done]. by rewrite <- E.
    + exists base, (u "#" ++ b ++ t). split; [done|]. split; [|done].
      rewrite Et at 1. rewrite E at 1. by rewrite <- !app_assoc.
  - intros Hne Hanchor. destruct article_url as [|c url]; [done|].
    cbn [truthy as_str mbind result_bind].
    assert (str_in (u "#") (str_rstrip (u "/") (c :: url)) = false) as Hno.
    { apply (str_in_factor _ [] _ t). simpl. by rewrite <- Et. }
    rewrite str_split_absent by done. split; [done|].
    intros Hl. apply Hlast in Hl. by vm_compute in Hl.
Qed.

End UrlMoreFacts.

Lemma habr_canonical_link_witness :
  get_comment_url lower_basic repr_demo (JStr (u "habr_comments"))
    (JStr (u "https://habr.com/ru/articles/" ++ u "12345" ++ u "/comments/"))
    (u "99")
  = Ok (u "https://habr.com/ru/articles/" ++ u "12345"
          ++ u "/comments/#comment_" ++ u "99").
Proof.
  apply habr_canonical_link.
  - vm_compute. reflexivity.
  - refute_by_compute.
  - right. vm_compute. reflexivity.
  - vm_compute. reflexivity.
Defined.

Lemma smart_lab_canonical_link_witness :
  get_comment_url lower_basic repr_demo (JStr (u "smart-lab_comments"))
    (JStr (u "https://smart-lab.ru/blog/" ++ u "67890" ++ u ".php")) (u "5")
  = Ok ((u "https://smart-lab.ru/blog/" ++ u "67890" ++ u ".php")
          ++ u "#comment" ++ u "5").
Proof.
  apply smart_lab_canonical_link.
  - vm_compute. reflexivity.
  - vm_compute. reflexivity.
  - refute_by_compute.
  - refute_by_compute.
Defined.

Lemma tj_link_witness :
  get_comment_url lower_basic repr_demo (JStr (u "t-j_comments"))
    (JStr (u "https://t-j.ru/some-article/")) (u "3")
  = Ok (str_rstrip (u "/") (u "https://t-j.ru/some-article/") ++ u "/#c" ++ u "3")
  ∧ last (str_rstrip (u "/") (u "https://t-j.ru/some-article/")) ≠ Some 47%N.
Proof.
  destruct (tj_link lower_basic repr_demo (u "t-j_comments")
              (u "https://t-j.ru/some-article/") (u "3")) as (_ & _ & H).
  - vm_compute. reflexivity.
  - vm_compute. reflexivity.
  - left. vm_compute. reflexivity.
  - apply H; [vm_compute; discriminate|vm_compute; reflexivity].
Defined.

(** * More on per-file processing *)

Section IngestMoreFacts.

Context {score : Type}.
Variable score_geb : score → score → bool.
Variable argmax : list score → result nat.
Variable str_lower : pystr → pystr.

#[local] Abbreviation scan' := (scan_comments score_geb argmax str_lower).
#[local] Abbreviation process' := (process_json_file score_geb argmax str_lower).
#[local] Abbreviation accepted_by := (accepts score_geb argmax str_lower).
#[local] Abbreviation judged_by := (judged score_geb argmax str_lower).

Lemma scan_comments_filter (analyzer : SentimentAnalyzer) (article_url : json)
    (directory_name : pystr) (comments acc : list json) :
  Forall (judged_by analyzer) comments →
  scan' analyzer article_url directory_name comments acc
  = Ok (acc ++ map (annotate article_url directory_name)
                 (filter (λ c, accepted_by analyzer c = true) comments)).
Proof.
  intros Hall. revert acc.
  induction Hall as [|c rest [[m ->] Hc] _ IH]; intros acc.
  - simpl. by rewrite app_nil_r.
  - cbn [scan_comments dict_get mbind result_bind].
    rewrite filter_cons. unfold accepts, eligible in *. simpl field_or in *.
    destruct (truthy (default (JStr []) (m !! u "text"))); simpl;
      [|by rewrite IH].
    destruct (truthy (default (JStr []) (m !! u "author"))); simpl;
      [|by rewrite IH].
    destruct (Hc eq_refl) as [b ->]. cbn [mbind result_bind].
    destruct b; simpl; rewrite IH; [|done].
    by rewrite <- app_assoc.
Qed.

(** X5. On a document whose comments are objects and on which the
    analyzer does not raise, [process_json_file] returns exactly the
    records that are eligible (text and author present) and judged
    positive, in the order of the file, each with [article_url] and
    [directory_name] set; nothing is printed. *)
Theorem process_json_file_filters (analyzer : SentimentAnalyzer)
    (fields : gmap (list N) json) (comments : list json)
    (file_name directory_name : pystr) :
  default (JArr []) (fields !! u "comments") = JArr comments →
  Forall (judged_by analyzer) comments →
  process' (Loaded (JObj fields)) file_name analyzer directory_name
  = ([], Ok (map (annotate (default (JStr []) (fields !! u "url"))
                    directory_name)
               (filter (λ c, accepted_by analyzer c = true) comments))).
Proof.
  intros Hc Hall. unfold process_json_file.
  cbn [dict_get mbind result_bind]. rewrite Hc. cbn [py_iter mbind result_bind].
  by rewrite scan_comments_filter.
Qed.

Lemma scan_comments_bad_entry (analyzer : SentimentAnalyzer) (article_url : json)
    (directory_name : pystr) (before after : list json) (bad : json)
    (acc : list json) :
  Forall (judged_by analyzer) before → is_object bad = false →
  scan' analyzer article_url directory_name (before ++ bad :: after) acc
  = Raise AttributeError.
Proof.
  intros Hall Hbad. revert acc.
  induction Hall as [|c rest [[m ->] Hc] _ IH]; intros acc.
  - by destruct bad.
  - cbn [app scan_comments dict_get mbind result_bind].
    unfold eligible in Hc. simpl field_or in Hc.
    destruct (truthy (default (JStr []) (m !! u "text"))); simpl; [|apply IH].
    destruct (truthy (default (JStr []) (m !! u "author"))); simpl; [|apply IH].
    destruct (Hc eq_refl) as [b ->]. cbn [mbind result_bind].
    destruct b; apply IH.
Qed.

(** X6. The [try] block covers reading and parsing only: a document that
    is not an object, and a comments array with an entry that is not an
    object, make [process_json_file] raise [AttributeError] instead of
    returning; records accepted before the bad entry are lost with it. *)
Theorem process_json_file_shape_errors (analyzer : SentimentAnalyzer)
    (file_name directory_name : pystr) :
  (∀ data, is_object data = false →
     process' (Loaded data) file_name analyzer directory_name
     = ([], Raise AttributeError))
  ∧ (∀ (fields : gmap (list N) json) before bad after,
       fields !! u "comments" = Some (JArr (before ++ bad :: after)) →
       Forall (judged_by analyzer) before → is_object bad = false →
       process' (Loaded (JObj fields)) file_name analyzer directory_name
       = ([], Raise AttributeError)).
Proof.
  split.
  - by intros [] ?.
  - intros fields before bad after Hc Hall Hbad. unfold process_json_file.
    cbn [dict_get mbind result_bind]. rewrite Hc.
    change (default (JArr []) (Some (JArr (before ++ bad :: after))))
      with (JArr (before ++ bad :: after)).
    cbn [py_iter mbind result_bind].
    by rewrite scan_comments_bad_entry.
Qed.

End IngestMoreFacts.

(** * More on the aggregation sort *)

Lemma insert_keyed_perm (x : json * json) (l r : list (json * json)) :
  insert_keyed x l = Ok r → r ≡ₚ x :: l.
Proof.
  revert r. induction l as [|y l IH]; intros r; simpl.
  - by intros [= <-].
  - destruct (key_lt y.1 x.1) as [[]|]; simpl; [|by intros [= <-]|done].
    destruct (insert_keyed x l) as [r'|]; simpl; [|done].
    intros [= <-]. rewrite (IH r' eq_refl). apply Permutation_swap.
Qed.

Lemma sort_keyed_perm (l r : list (json * json)) :
  sort_keyed l = Ok r → r ≡ₚ l.
Proof.
  revert r. induction l as [|x l IH]; intros r; simpl.
  - by intros [= <-].
  - destruct (sort_keyed l) as [r'|]; simpl; [|done].
    intros ->%insert_keyed_perm. by rewrite (IH r' eq_refl).
Qed.

Lemma with_keys_spec (comments : list json) (keyed : list (json * json)) :
  with_keys comments = Ok keyed →
  map snd keyed = comments ∧ Forall (λ x, sort_key x.2 = Ok x.1) keyed.
Proof.
  revert keyed. induction comments as [|c l IH]; intros keyed; simpl.
  - by intros [= <-].
  - destruct (sort_key c) as [k|] eqn:Hk; simpl; [|done].
    destruct (with_keys l) as [r|]; simpl; [|done].
    intros [= <-]. destruct (IH r eq_refl) as [<- Hall].
    split; [done|]. by constructor.
Qed.

Lemma sort_comments_perm (comments sorted : list json) :
  sort_comments comments = Ok sorted → sorted ≡ₚ comments.
Proof.
  unfold sort_comments.
  destruct (with_keys comments) as [keyed|] eqn:Hk; simpl; [|done].
  destruct (keys_ordered keyed); [|done].
  destruct (sort_keyed keyed) as [r|] eqn:Hr; simpl; [|done].
  intros [= <-]. apply with_keys_spec in Hk as [<- _].
  apply sort_keyed_perm in Hr. by rewrite Hr.
Qed.


(** The sort returns only when it has compared no two keys of
    different kinds. *)
Lemma sort_keyed_one_kind (l r : list (json * json)) (x y : json * json) :
  sort_keyed l = Ok r → x ∈ l → y ∈ l → kind_of x.1 = kind_of y.1.
Proof.
  revert r x y. induction l as [|z l IH]; intros r x y; simpl;
    [by intros _ ?%elem_of_nil|].
  destruct (sort_keyed l) as [r'|] eqn:Hs; simpl; [|done].
  pose proof (sort_keyed_perm _ _ Hs) as Hperm.
  intros Hins.
  assert (∀ w, w ∈ l → kind_of w.1 = kind_of z.1) as Hz.
  { intros w Hw. destruct r' as [|v r''].
    { apply Permutation_nil_l in Hperm. subst l. by apply elem_of_nil in Hw. }
    simpl in Hins.
    destruct (key_lt v.1 z.1) as [lt|] eqn:Hlt; [|done].
    apply py_lt_Ok in Hlt as [Hk _].
    rewrite <- Hk. apply (IH _ _ _ eq_refl); [done|].
    rewrite <- Hperm. apply elem_of_cons. by left. }
  intros [->|Hx]%elem_of_cons [->|Hy]%elem_of_cons.
  - done.
  - symmetry. by apply Hz.
  - by apply Hz.
  - by apply (IH _ _ _ eq_refl).
Qed.

Lemma sort_comments_one_kind (comments sorted : list json) (a b : json)
    (ka kb : json) :
  sort_comments comments = Ok sorted →
  a ∈ comments → b ∈ comments →
  sort_key a = Ok ka → sort_key b = Ok kb →
  kind_of ka = kind_of kb.
Proof.
  unfold sort_comments.
  destruct (with_keys comments) as [keyed|] eqn:Hk; simpl; [|done].
  destruct (keys_ordered keyed); [|done].
  destruct (sort_keyed keyed) as [r|] eqn:Hr; simpl; [|done].
  intros _ Ha Hb Hka Hkb. apply with_keys_spec in Hk as [<- Hkeys].
  apply list_elem_of_fmap in Ha as (x & -> & Hx).
  apply list_elem_of_fmap in Hb as (y & -> & Hy).
  rewrite Forall_forall in Hkeys.
  pose proof (Hkeys x Hx) as Ex. pose proof (Hkeys y Hy) as Ey.
  rewrite Hka in Ex. rewrite Hkb in Ey.
  injection Ex as ->. injection Ey as ->.
  by apply (sort_keyed_one_kind _ _ _ _ Hr).
Qed.

(** X8. A list that holds a record with a string id and a record with
    an integer, null or absent id is never sorted: the sort raises. *)
Theorem sort_comments_mixed_ids_raise (comments : list json) (a b : json) :
  a ∈ comments → b ∈ comments →
  has_int_id a = true → has_str_id b = true →
  ∃ e, sort_comments comments = Raise e.
Proof.
  intros Ha Hb Hint Hstr.
  destruct (sort_comments comments) as [sorted|e] eqn:E; [|by exists e].
  exfalso.
  destruct (has_int_id_key a Hint) as (_ & ka & Hka & Hza).
  destruct (has_str_id_key b Hstr) as (_ & kb & Hkb & ->).
  pose proof (sort_comments_one_kind _ _ a b _ _ E Ha Hb Hka Hkb) as Hkind.
  by destruct ka.
Qed.

(** Insertion into, and sorting of, a list already in order. *)
Section SortedInput.

Context {R : Type}.
Variable rank : json → R.
Variable rltb : R → R → bool.
Variable good : json * json → Prop.
Hypothesis key_lt_good :
  ∀ x y, good x → good y → key_lt x.1 y.1 = Ok (rltb (rank x.2) (rank y.2)).

Lemma sort_keyed_sorted (l : list (json * json)) :
  Forall good l →
  StronglySorted (λ a b, rltb (rank b) (rank a) = false) (map snd l) →
  sort_keyed l = Ok l.
Proof using key_lt_good.
  induction 1 as [|x l Hx Hl IH]; simpl; [done|].
  intros [Hs Hall]%StronglySorted_inv. rewrite (IH Hs). simpl.
  destruct l as [|y l']; [done|]. simpl.
  apply Forall_cons in Hl as [Hy _]. rewrite (key_lt_good y x) by done.
  apply Forall_cons in Hall as [-> _]. done.
Qed.

End SortedInput.

Lemma with_keys_keyed (comments : list json) (P : json * json → Prop) :
  Forall (λ c, ∃ k, sort_key c = Ok k ∧ P (k, c)) comments →
  ∃ keyed, with_keys comments = Ok keyed
           ∧ map snd keyed = comments ∧ Forall P keyed.
Proof.
  induction 1 as [|c l (k & Hk & Hg) _ (keyed & E & Hm & Hall)]; simpl.
  - by exists [].
  - rewrite Hk. simpl. rewrite E. simpl.
    exists ((k, c) :: keyed). split; [done|]. split; [by rewrite <- Hm|].
    by constructor.
Qed.

(** X9. A list already in ascending order of comparable ids comes back
    from the sort as it is: sorting again changes nothing. *)
Theorem sort_comments_sorted_input (comments : list json) :
  uniform_ids comments → StronglySorted by_id comments →
  sort_comments comments = Ok comments.
Proof.
  intros [Hint|Hstr] Hsorted; unfold sort_comments.
  - destruct (with_keys_keyed comments
                (λ x, int_of_key x.1 = Some (rank_int x.2)))
      as (keyed & -> & Hm & Hk).
    { eapply Forall_impl; [exact Hint|]. intros c Hc.
      by destruct (has_int_id_key c Hc) as [_ ?]. }
    simpl. rewrite keys_ordered_nan_free
      by (eapply Forall_impl; [exact Hk|]; intros x Hx;
          exact (int_of_key_nan_free _ _ Hx)).
    rewrite (sort_keyed_sorted rank_int Z.ltb _ key_lt_int keyed Hk).
    + simpl. by rewrite Hm.
    + rewrite Hm. eapply StronglySorted_weaken; [|exact Hint|exact Hsorted].
      intros a b [Ha _]%has_int_id_key [Hb _]%has_int_id_key.
      unfold by_id. rewrite Ha, Hb. simpl. intros. by apply Z.ltb_ge.
  - destruct (with_keys_keyed comments (λ x, x.1 = JStr (rank_str x.2)))
      as (keyed & -> & Hm & Hk).
    { eapply Forall_impl; [exact Hstr|]. intros c Hc.
      by destruct (has_str_id_key c Hc) as [_ ?]. }
    simpl. rewrite keys_ordered_nan_free
      by (eapply Forall_impl; [exact Hk|]; intros x Hx;
          simpl in Hx; by rewrite Hx).
    rewrite (sort_keyed_sorted rank_str str_lt _ key_lt_str keyed Hk).
    + simpl. by rewrite Hm.
    + rewrite Hm. eapply StronglySorted_weaken; [|exact Hstr|exact Hsorted].
      intros a b [Ha _]%has_str_id_key [Hb _]%has_str_id_key.
      unfold by_id. by rewrite Ha, Hb.
Qed.


Lemma sort_comments_mixed_ids_raise_witness :
  ∃ e, sort_comments [comment_b; comment_a; comment_no_id] = Raise e.
Proof.
  apply (sort_comments_mixed_ids_raise _ comment_no_id comment_a).
  - apply (list_elem_of_lookup_2 _ 2). reflexivity.
  - apply (list_elem_of_lookup_2 _ 1). reflexivity.
  - vm_compute. reflexivity.
  - vm_compute. reflexivity.
Defined.

Lemma sort_comments_sorted_input_witness :
  sort_comments [comment_null; comment_2a; comment_2b; comment_5]
  = Ok [comment_null; comment_2a; comment_2b; comment_5].
Proof.
  apply sort_comments_sorted_input.
  - left. repeat constructor; vm_compute; reflexivity.
  - repeat constructor; vm_compute; discriminate.
Defined.

(** * More on the run *)

Lemma extend_group_keys_eq (groups : list (Path * list json))
    (directory : Path) (items : list json) :
  (extend_group groups directory items).*1
  = if bool_decide (directory ∈ groups.*1) then groups.*1
    else groups.*1 ++ [directory].
Proof.
  induction groups as [|[d comments] rest IH]; [done|].
  cbn [extend_group]. rewrite !fmap_cons. cbn [fst].
  destruct (decide (d = directory)) as [->|Hne].
  - rewrite (bool_decide_eq_true_2 (directory = directory)) by done.
    rewrite fmap_cons. cbn [fst].
    rewrite bool_decide_eq_true_2; [done|]. apply elem_of_cons. by left.
  - rewrite (bool_decide_eq_false_2 (d = directory)) by done.
    rewrite fmap_cons. cbn [fst].
    rewrite IH. destruct (decide (directory ∈ rest.*1)) as [Hin|Hout].
    + rewrite !bool_decide_eq_true_2; [done| |done]. apply elem_of_cons. by right.
    + rewrite !bool_decide_eq_false_2; [done| |done].
      intros [?|?]%elem_of_cons; by subst.
Qed.

Lemma extend_group_NoDup (groups : list (Path * list json))
    (directory : Path) (items : list json) :
  NoDup groups.*1 → NoDup (extend_group groups directory items).*1.
Proof.
  intros Hnd. rewrite extend_group_keys_eq. case_bool_decide; [done|].
  apply NoDup_app. split; [done|]. split; [|apply NoDup_singleton].
  intros x Hx ->%list_elem_of_singleton. done.
Qed.

Lemma extend_group_holds (groups : list (Path * list json))
    (directory d : Path) (items : list json) (c : json) :
  holds (extend_group groups directory items) d c ↔
  holds groups d c ∨ (d = directory ∧ c ∈ items).
Proof.
  unfold holds. induction groups as [|[d' comments] rest IH]; simpl.
  - split.
    + intros (cs & [= -> ->]%list_elem_of_singleton & Hc). by right.
    + intros [(cs & []%elem_of_nil & _)|[-> Hc]]. exists items.
      split; [by apply list_elem_of_singleton|done].
  - destruct (decide (d' = directory)) as [Hd|Hd];
      [rewrite (bool_decide_eq_true_2 _ Hd)|rewrite (bool_decide_eq_false_2 _ Hd)];
      simpl.
    + subst d'. split.
      * intros (cs & [[= -> ->]|Hin]%elem_of_cons & Hc).
        -- apply elem_of_app in Hc as [Hc|Hc]; [left|by right].
           exists comments. split; [apply elem_of_cons; by left|done].
        -- left. exists cs. split; [apply elem_of_cons; by right|done].
      * intros [(cs & [[= -> ->]|Hin]%elem_of_cons & Hc)|[-> Hc]].
        -- exists (comments ++ items). split; [apply elem_of_cons; by left|].
           apply elem_of_app. by left.
        -- exists cs. split; [apply elem_of_cons; by right|done].
        -- exists (comments ++ items). split; [apply elem_of_cons; by left|].
           apply elem_of_app. by right.
    + split.
      * intros (cs & [[= -> ->]|Hin]%elem_of_cons & Hc).
        -- left. exists comments. split; [apply elem_of_cons; by left|done].
        -- destruct (proj1 IH) as [(cs' & ? & ?)|?]; [by exists cs| |by right].
           left. exists cs'. split; [apply elem_of_cons; by right|done].
      * intros [(cs & [[= -> ->]|Hin]%elem_of_cons & Hc)|[-> Hc]].
        -- exists comments. split; [apply elem_of_cons; by left|done].
        -- destruct (proj2 IH) as (cs' & ? & ?); [left; by exists cs|].
           exists cs'. split; [apply elem_of_cons; by right|done].
        -- destruct (proj2 IH) as (cs' & ? & ?); [by right|].
           exists cs'. split; [apply elem_of_cons; by right|done].
Qed.

#[local] Instance output_file_injective : Inj (=) (=) output_file.
Proof. intros d d'. apply output_file_inj. Qed.

Section RunMoreFacts.

Context {score : Type}.
Variable score_geb : score → score → bool.
Variable argmax : list score → result nat.
Variable str_lower : pystr → pystr.
Variable py_repr : json → pystr.

#[local] Abbreviation process'' := (process_json_file score_geb argmax str_lower).
#[local] Abbreviation files_loop' := (process_files score_geb argmax str_lower).
#[local] Abbreviation dirs_loop' := (process_dirs score_geb argmax str_lower).
#[local] Abbreviation run' := (main score_geb argmax str_lower py_repr).
#[local] Abbreviation save' := (save_groups str_lower py_repr).
#[local] Abbreviation write' := (write_comments str_lower py_repr).

(** The result of processing a file of a directory. *)
Let outcome_of (fs : FileSystem) (analyzer : SentimentAnalyzer)
    (directory file : Path) : result (list json) :=
  (process'' (read_json fs file) (path_name file) analyzer
     (path_name directory)).2.

(** ** A raising file stops the run *)

Lemma process_files_raises (fs : FileSystem) (analyzer : SentimentAnalyzer)
    (directory : Path) (files : list Path) (st : progress) (file : Path)
    (e : exn) :
  file ∈ files → outcome_of fs analyzer directory file = Raise e →
  ∃ e', (files_loop' fs analyzer directory files st).2 = Raise e'.
Proof.
  unfold outcome_of. revert st.
  induction files as [|f rest IH]; intros st Hin Hraise;
    [by apply elem_of_nil in Hin|].
  simpl.
  destruct (process'' (read_json fs f) _ _ _) as [out [accepted|e0]] eqn:E;
    simpl; [|by exists e0].
  apply elem_of_cons in Hin as [->|Hin].
  - rewrite E in Hraise. done.
  - by apply IH.
Qed.

Lemma process_dirs_raises (fs : FileSystem) (analyzer : SentimentAnalyzer)
    (dirs : list Path) (st : progress) (directory file : Path) (e : exn) :
  directory ∈ dirs → is_dir fs directory = true →
  file ∈ glob_json fs directory →
  outcome_of fs analyzer directory file = Raise e →
  ∃ e', (dirs_loop' fs analyzer dirs st).2 = Raise e'.
Proof.
  revert st. induction dirs as [|d rest IH]; intros st Hin Hdir Hfile Hraise;
    [by apply elem_of_nil in Hin|].
  simpl. destruct (is_dir fs d) eqn:Hd; simpl.
  - destruct (files_loop' fs analyzer d (glob_json fs d) st)
      as [st' [[]|e0]] eqn:E; simpl; [|by exists e0].
    apply elem_of_cons in Hin as [->|Hin]; [|by apply IH].
    destruct (process_files_raises fs analyzer d _ st file e Hfile Hraise)
      as [e' He']. rewrite E in He'. done.
  - apply elem_of_cons in Hin as [->|Hin]; [congruence|by apply IH].
Qed.

Lemma count_files_zero (fs : FileSystem) (dirs : list Path) :
  count_files fs dirs = 0 ↔
  ∀ directory, directory ∈ dirs →
    is_dir fs directory = false ∨ glob_json fs directory = [].
Proof.
  induction dirs as [|d rest IH]; simpl.
  - split; [|done]. by intros _ ? ?%elem_of_nil.
  - split.
    + intros H directory [->|Hin]%elem_of_cons.
      * destruct (is_dir fs d); [|by left].
        right. destruct (glob_json fs d); [done|simpl in H; lia].
      * apply IH; [lia|done].
    + intros H.
      assert (count_files fs rest = 0) as ->.
      { apply IH. intros ? ?. apply H. apply elem_of_cons. by right. }
      destruct (H d) as [-> | ->]; [apply elem_of_cons; by left|done|].
      by destruct (is_dir fs d).
Qed.

(** X10. An exception in one file is fatal for the whole run: when the
    processing of any JSON file of an existing input directory raises,
    the run ends with an exception and no report is written, not even
    for the directories whose files were accepted before. *)
Theorem raising_file_aborts_run (fs : FileSystem)
    (analyzer : SentimentAnalyzer) (directory file : Path) (e : exn) :
  directory ∈ INPUT_DIRS (config analyzer) →
  is_dir fs directory = true →
  file ∈ glob_json fs directory →
  (process'' (read_json fs file) (path_name file) analyzer
     (path_name directory)).2 = Raise e →
  files_written (run' fs analyzer) = []
  ∧ ∃ e', status (run' fs analyzer) = Raise e'.
Proof.
  intros Hin Hdir Hfile Hraise. unfold main.
  case_bool_decide as Hcount; simpl; [by eauto|].
  destruct (process_dirs_raises fs analyzer (INPUT_DIRS (config analyzer))
              {| printed := []; grouped := [] |} directory file e)
    as [e' He']; try done.
  destruct (dirs_loop' fs analyzer _ _) as [st r]. simpl in He'. subst r.
  simpl. eauto.
Qed.

(** X11. With no JSON file in any input directory (each is missing or
    holds none), the run exits with code 1 before any file is processed,
    whatever the analyzer: nothing is written. *)
Theorem run_without_json_files (fs : FileSystem) (analyzer : SentimentAnalyzer) :
  (∀ directory, directory ∈ INPUT_DIRS (config analyzer) →
     is_dir fs directory = false ∨ glob_json fs directory = []) →
  status (run' fs analyzer) = Raise (SystemExit 1)
  ∧ files_written (run' fs analyzer) = [].
Proof.
  intros H%count_files_zero. unfold main. by rewrite bool_decide_eq_true_2.
Qed.

End RunMoreFacts.

Section RunReports.

Context {score : Type}.
Variable score_geb : score → score → bool.
Variable argmax : list score → result nat.
Variable str_lower : pystr → pystr.
Variable py_repr : json → pystr.

#[local] Abbreviation process3 := (process_json_file score_geb argmax str_lower).
#[local] Abbreviation files_loop3 := (process_files score_geb argmax str_lower).
#[local] Abbreviation dirs_loop3 := (process_dirs score_geb argmax str_lower).
#[local] Abbreviation run3 := (main score_geb argmax str_lower py_repr).
#[local] Abbreviation save3 := (save_groups str_lower py_repr).
#[local] Abbreviation write3 := (write_comments str_lower py_repr).

(** ** One report per directory *)

Lemma process_files_NoDup (fs : FileSystem) (analyzer : SentimentAnalyzer)
    (directory : Path) (files : list Path) (st : progress) :
  NoDup (grouped st).*1 →
  NoDup (grouped (files_loop3 fs analyzer directory files st).1).*1.
Proof.
  revert st. induction files as [|f rest IH]; intros st Hnd; simpl; [done|].
  destruct (process3 _ _ _ _) as [out [accepted|e]]; simpl; [|done].
  apply IH. destruct accepted; simpl; [done|]. by apply extend_group_NoDup.
Qed.

Lemma process_dirs_NoDup (fs : FileSystem) (analyzer : SentimentAnalyzer)
    (dirs : list Path) (st : progress) :
  NoDup (grouped st).*1 →
  NoDup (grouped (dirs_loop3 fs analyzer dirs st).1).*1.
Proof.
  revert st. induction dirs as [|d rest IH]; intros st Hnd; simpl; [done|].
  destruct (is_dir fs d); simpl; [|by apply IH].
  pose proof (process_files_NoDup fs analyzer d (glob_json fs d) st Hnd) as H.
  destruct (files_loop3 fs analyzer d (glob_json fs d) st) as [st' [[]|e]];
    simpl in *; [by apply IH|done].
Qed.

(** The saving loop writes the reports of a prefix of the groups, in
    order, each made of the sorted group. *)
Lemma save_groups_spec (groups : list (Path * list json))
    (files : list (Path * pystr)) :
  ∃ done_groups : list (Path * list json * list json),
    done_groups.*1 `prefix_of` groups
    ∧ Forall (λ g, sort_comments g.1.2 = Ok g.2) done_groups
    ∧ (save3 groups files).1
      = files ++ map (λ g, (output_file g.1.1, concat (write3 g.2 []).1))
                   done_groups
    ∧ ((save3 groups files).2 = Ok () → done_groups.*1 = groups).
Proof.
  revert files. induction groups as [|[d comments] rest IH]; intros files.
  - exists []. simpl. by rewrite app_nil_r.
  - simpl. destruct (sort_comments comments) as [sorted|e] eqn:Hs; simpl.
    + destruct (write3 sorted []) as [written r] eqn:Hw.
      destruct r as [[]|e]; simpl.
      * destruct (IH (files ++ [(output_file d, concat written)]))
          as (dg & Hpre & Hsort & E & Hall).
        exists ((d, comments, sorted) :: dg). split; [|split; [|split]].
        -- simpl. by apply prefix_cons.
        -- by constructor.
        -- rewrite E. simpl. rewrite Hw. simpl. by rewrite <- app_assoc.
        -- intros Hok. simpl. f_equal. by apply Hall.
      * exists [(d, comments, sorted)]. split; [|split; [|split]]; simpl.
        -- apply prefix_cons, prefix_nil.
        -- by constructor.
        -- by rewrite Hw.
        -- done.
    + exists []. simpl. split; [apply prefix_nil|]. by rewrite app_nil_r.
Qed.

(** X12. At most one report is written per directory: the paths of the
    files written by a run are pairwise different, also when a directory
    is listed twice or when the run stops midway. *)
Theorem one_report_per_directory (fs : FileSystem)
    (analyzer : SentimentAnalyzer) :
  NoDup (files_written (run3 fs analyzer)).*1.
Proof.
  unfold main. case_bool_decide; simpl; [constructor|].
  pose proof (process_dirs_NoDup fs analyzer (INPUT_DIRS (config analyzer))
                {| printed := []; grouped := [] |}) as Hnd.
  destruct (dirs_loop3 fs analyzer _ _) as [st [[]|e]]; simpl in *;
    [|constructor].
  destruct (save_groups_spec (grouped st) []) as (dg & Hpre & _ & E & _).
  destruct (save3 (grouped st) []) as [files r]. simpl in *. subst files.
  rewrite <- list_fmap_compose.
  assert (NoDup dg.*1.*1) as Hdg.
  { destruct Hpre as [k Hk]. specialize (Hnd (NoDup_nil_2)).
    rewrite Hk, fmap_app in Hnd. by apply NoDup_app in Hnd as [? _]. }
  rewrite <- list_fmap_compose in Hdg.
  assert ((fst ∘ (λ g : Path * list json * list json,
                   (output_file g.1.1, concat (write3 g.2 []).1)))
          = output_file ∘ (fst ∘ fst)) as -> by done.
  rewrite list_fmap_compose. by apply (NoDup_fmap_2 output_file).
Qed.

(** ** What the reports hold *)

Lemma process_files_holds (fs : FileSystem) (analyzer : SentimentAnalyzer)
    (directory : Path) (files : list Path) (st : progress) (d : Path)
    (c : json) :
  holds (grouped (files_loop3 fs analyzer directory files st).1) d c →
  holds (grouped st) d c
  ∨ (d = directory ∧ ∃ file accepted,
       file ∈ files
       ∧ (process3 (read_json fs file) (path_name file) analyzer
            (path_name directory)).2 = Ok accepted
       ∧ c ∈ accepted).
Proof.
  revert st. induction files as [|f rest IH]; intros st; simpl; [by left|].
  destruct (process3 (read_json fs f) _ _ _) as [out [accepted|e]] eqn:E;
    simpl; [|by left].
  intros [Hh|(-> & file & acc & Hin & Hp & Hc)]%IH.
  - assert (holds (grouped st) d c ∨ (d = directory ∧ c ∈ accepted)) as [?|[-> ?]].
    { destruct accepted; simpl in Hh; [by left|].
      by apply extend_group_holds in Hh. }
    + by left.
    + right. split; [done|]. exists f, accepted. rewrite E.
      split; [apply elem_of_cons; by left|done].
  - right. split; [done|]. exists file, acc.
    split; [apply elem_of_cons; by right|done].
Qed.

Lemma process_dirs_holds (fs : FileSystem) (analyzer : SentimentAnalyzer)
    (dirs : list Path) (st : progress) (d : Path) (c : json) :
  holds (grouped (dirs_loop3 fs analyzer dirs st).1) d c →
  holds (grouped st) d c
  ∨ (d ∈ dirs ∧ is_dir fs d = true ∧ ∃ file accepted,
       file ∈ glob_json fs d
       ∧ (process3 (read_json fs file) (path_name file) analyzer
            (path_name d)).2 = Ok accepted
       ∧ c ∈ accepted).
Proof.
  revert st. induction dirs as [|directory rest IH]; intros st; simpl;
    [by left|].
  destruct (is_dir fs directory) eqn:Hdir; simpl.
  - pose proof (process_files_holds fs analyzer directory
                  (glob_json fs directory) st d c) as Hfiles.
    destruct (files_loop3 fs analyzer directory _ st) as [st' [[]|e]];
      simpl in *.
    + intros [Hh|(? & ? & ?)]%IH.
      * destruct (Hfiles Hh) as [?|[-> ?]]; [by left|].
        right. split; [apply elem_of_cons; by left|done].
      * right. split; [apply elem_of_cons; by right|done].
    + intros Hh. destruct (Hfiles Hh) as [?|[-> ?]]; [by left|].
      right. split; [apply elem_of_cons; by left|done].
  - intros [?|(? & ? & ?)]%IH; [by left|].
    right. split; [apply elem_of_cons; by right|done].
Qed.


Lemma process_files_collects (fs : FileSystem) (analyzer : SentimentAnalyzer)
    (directory : Path) (files : list Path) (st st' : progress) :
  files_loop3 fs analyzer directory files st = (st', Ok ()) →
  (∀ d c, holds (grouped st) d c → holds (grouped st') d c)
  ∧ (∀ file accepted c,
       file ∈ files →
       (process3 (read_json fs file) (path_name file) analyzer
          (path_name directory)).2 = Ok accepted →
       c ∈ accepted → holds (grouped st') directory c).
Proof.
  revert st. induction files as [|f rest IH]; intros st; simpl.
  - intros [= <-]. split; [done|]. by intros ? ? ? ?%elem_of_nil.
  - destruct (process3 (read_json fs f) _ _ _) as [out [accepted|e]] eqn:E;
      simpl; [|done].
    intros [Hmono Hnew]%IH.
    assert (∀ d c, holds (grouped st) d c ∨ (d = directory ∧ c ∈ accepted) →
              holds (grouped st') d c) as Hstep.
    { intros d c Hdc. apply Hmono.
      destruct accepted as [|a accepted]; simpl.
      - destruct Hdc as [?|[_ ?%elem_of_nil]]; done.
      - by apply extend_group_holds. }
    split.
    + intros d c Hh. apply Hstep. by left.
    + intros file acc c [->|Hin]%elem_of_cons Hp Hc.
      * rewrite E in Hp. simpl in Hp. injection Hp as <-.
        apply Hstep. by right.
      * by eapply Hnew.
Qed.

Lemma process_dirs_collects (fs : FileSystem) (analyzer : SentimentAnalyzer)
    (dirs : list Path) (st st' : progress) :
  dirs_loop3 fs analyzer dirs st = (st', Ok ()) →
  (∀ d c, holds (grouped st) d c → holds (grouped st') d c)
  ∧ (∀ directory file accepted c,
       directory ∈ dirs → is_dir fs directory = true →
       file ∈ glob_json fs directory →
       (process3 (read_json fs file) (path_name file) analyzer
          (path_name directory)).2 = Ok accepted →
       c ∈ accepted → holds (grouped st') directory c).
Proof.
  revert st. induction dirs as [|d rest IH]; intros st; simpl.
  - intros [= <-]. split; [done|]. by intros ? ? ? ? ?%elem_of_nil.
  - destruct (is_dir fs d) eqn:Hd; simpl.
    + destruct (files_loop3 fs analyzer d (glob_json fs d) st)
        as [st1 [[]|e]] eqn:E; simpl; [|done].
      apply process_files_collects in E as [Hmono1 Hnew1].
      intros [Hmono Hnew]%IH. split; [by auto|].
      intros directory file accepted c [->|Hin]%elem_of_cons Hdir Hf Hp Hc.
      * apply Hmono. by eapply Hnew1.
      * by eapply Hnew.
    + intros [Hmono Hnew]%IH. split; [done|].
      intros directory file accepted c [->|Hin]%elem_of_cons Hdir Hf Hp Hc;
        [congruence|by eapply Hnew].
Qed.


(** ** The report of a directory *)

#[local] Abbreviation accepted3 := (accepted_comments score_geb argmax str_lower).

Lemma group_of_absent (groups : list (Path * list json)) (d : Path) :
  d ∉ groups.*1 → group_of groups d = [].
Proof.
  unfold group_of. induction groups as [|[d' cs] rest IH]; [done|].
  rewrite fmap_cons, not_elem_of_cons. simpl. intros [Hne Hout].
  rewrite filter_cons, decide_False by done. by apply IH.
Qed.

Lemma group_of_cons (d' : Path) (cs : list json)
    (rest : list (Path * list json)) (d : Path) :
  group_of ((d', cs) :: rest) d
  = (if decide (d' = d) then cs else []) ++ group_of rest d.
Proof.
  unfold group_of. rewrite filter_cons. simpl. by destruct (decide (d' = d)).
Qed.

Lemma group_of_extend (groups : list (Path * list json)) (d d' : Path)
    (items : list json) :
  NoDup groups.*1 →
  group_of (extend_group groups d items) d'
  = group_of groups d' ++ (if decide (d = d') then items else []).
Proof.
  induction groups as [|[g cs] rest IH]; intros Hnd.
  - simpl. rewrite group_of_cons. by rewrite app_nil_r.
  - rewrite fmap_cons in Hnd. apply NoDup_cons in Hnd as [Hout Hnd].
    simpl in Hout. cbn [extend_group].
    destruct (decide (g = d)) as [->|Hne].
    + rewrite (bool_decide_eq_true_2 (d = d)) by done.
      rewrite !group_of_cons. destruct (decide (d = d')) as [->|Hd].
      * rewrite (group_of_absent rest d') by done.
        by rewrite !app_nil_r.
      * by rewrite app_nil_r.
    + rewrite (bool_decide_eq_false_2 (g = d)) by done.
      rewrite !group_of_cons, IH by done. by rewrite app_assoc.
Qed.

Lemma group_of_lookup (groups : list (Path * list json)) (d : Path)
    (cs : list json) :
  NoDup groups.*1 → (d, cs) ∈ groups → group_of groups d = cs.
Proof.
  induction groups as [|[g cs'] rest IH]; intros Hnd Hin;
    [by apply elem_of_nil in Hin|].
  rewrite fmap_cons in Hnd. apply NoDup_cons in Hnd as [Hout Hnd].
  simpl in Hout. rewrite group_of_cons.
  apply elem_of_cons in Hin as [[= <- <-]|Hin].
  - rewrite decide_True by done. rewrite group_of_absent by done.
    apply app_nil_r.
  - rewrite decide_False, IH; [done..|].
    intros ->. apply Hout. apply list_elem_of_fmap. by exists (d, cs).
Qed.

Lemma group_of_nonempty (groups : list (Path * list json)) (d : Path) :
  group_of groups d ≠ [] → ∃ cs, (d, cs) ∈ groups.
Proof.
  intros Hne. destruct (decide (d ∈ groups.*1)) as [Hin|Hout].
  - apply list_elem_of_fmap in Hin as ([d' cs] & -> & Hin). by exists cs.
  - by rewrite group_of_absent in Hne.
Qed.

(** What a file adds to the group of its directory. *)
Let accepted_of (fs : FileSystem) (analyzer : SentimentAnalyzer)
    (directory file : Path) : list json :=
  match (process3 (read_json fs file) (path_name file) analyzer
           (path_name directory)).2 with
  | Ok accepted => accepted
  | Raise _ => []
  end.

Lemma process_files_group (fs : FileSystem) (analyzer : SentimentAnalyzer)
    (directory : Path) (files : list Path) (st st' : progress) (d : Path) :
  NoDup (grouped st).*1 →
  files_loop3 fs analyzer directory files st = (st', Ok ()) →
  group_of (grouped st') d
  = group_of (grouped st) d
    ++ (if decide (directory = d)
        then concat (map (accepted_of fs analyzer directory) files) else []).
Proof.
  revert st. induction files as [|f rest IH]; intros st Hnd; simpl.
  - intros [= <-]. by destruct (decide _); rewrite app_nil_r.
  - unfold accepted_of at 1.
    destruct (process3 (read_json fs f) _ _ _) as [out [accepted|e]] eqn:E;
      simpl; [|done].
    intros Hloop. apply IH in Hloop.
    + rewrite Hloop. destruct accepted as [|c cs]; simpl.
      * done.
      * rewrite group_of_extend by done.
        destruct (decide (directory = d)); [|by rewrite !app_nil_r].
        by rewrite <- app_assoc.
    + destruct accepted; simpl; [done|]. by apply extend_group_NoDup.
Qed.

Lemma process_dirs_group (fs : FileSystem) (analyzer : SentimentAnalyzer)
    (dirs : list Path) (st st' : progress) (d : Path) :
  NoDup (grouped st).*1 →
  dirs_loop3 fs analyzer dirs st = (st', Ok ()) →
  group_of (grouped st') d
  = group_of (grouped st) d
    ++ concat (map (λ directory,
                      if decide (directory = d)
                      then if is_dir fs directory
                           then accepted3 fs analyzer directory else []
                      else []) dirs).
Proof.
  revert st. induction dirs as [|directory rest IH]; intros st Hnd; simpl.
  - intros [= <-]. by rewrite app_nil_r.
  - destruct (is_dir fs directory) eqn:Hdir; simpl.
    + destruct (files_loop3 fs analyzer directory (glob_json fs directory) st)
        as [st1 [[]|e]] eqn:E; [|done].
      pose proof (process_files_NoDup fs analyzer directory
                    (glob_json fs directory) st Hnd) as Hnd1.
      rewrite E in Hnd1. simpl in Hnd1.
      intros Hloop. rewrite (IH st1 Hnd1 Hloop).
      rewrite (process_files_group _ _ _ _ _ _ d Hnd E).
      rewrite <- app_assoc. by f_equal.
    + intros Hloop. rewrite (IH st Hnd Hloop).
      by destruct (decide (directory = d)).
Qed.

Lemma concat_map_only {A} (f : Path → list A) (dirs : list Path) (d : Path) :
  NoDup dirs → d ∈ dirs →
  concat (map (λ directory, if decide (directory = d) then f directory else [])
            dirs) = f d.
Proof.
  induction dirs as [|x rest IH]; intros Hnd Hin;
    [by apply elem_of_nil in Hin|].
  apply NoDup_cons in Hnd as [Hout Hnd]. simpl.
  assert (∀ l : list Path, d ∉ l →
            concat (map (λ directory,
                           if decide (directory = d) then f directory else [])
                      l) = []) as Hnone.
  { clear. induction l as [|y l IH]; [done|].
    rewrite not_elem_of_cons. intros [Hne Hl]. simpl.
    rewrite decide_False by done. by apply IH. }
  apply elem_of_cons in Hin as [->|Hin].
  - rewrite decide_True by done. rewrite Hnone by done. apply app_nil_r.
  - rewrite decide_False by (intros ->; done). by apply IH.
Qed.

(** A saving loop that ends normally has sorted and written every
    group. *)
Lemma save_groups_Ok (groups : list (Path * list json))
    (files : list (Path * pystr)) (d : Path) (comments : list json) :
  (save3 groups files).2 = Ok () → (d, comments) ∈ groups →
  ∃ sorted written,
    sort_comments comments = Ok sorted
    ∧ write3 sorted [] = (written, Ok ())
    ∧ (output_file d, concat written) ∈ (save3 groups files).1.
Proof.
  revert files. induction groups as [|[g cs] rest IH]; intros files Hok Hin;
    [by apply elem_of_nil in Hin|].
  simpl in *.
  destruct (sort_comments cs) as [sorted|e] eqn:Hs; [|done].
  destruct (write3 sorted []) as [written [[]|e]] eqn:Hw; [|done].
  apply elem_of_cons in Hin as [[= -> ->]|Hin].
  - exists sorted, written. split; [done|]. split; [done|].
    destruct (save_groups_spec rest (files ++ [(output_file g, concat written)]))
      as (dg & _ & _ & -> & _).
    rewrite <- app_assoc. apply elem_of_app. right. apply elem_of_cons. by left.
  - by apply IH.
Qed.

(** The lines of a report whose written strings are single lines. *)
Lemma report_lines (comments : list json) (blocks : list (list pystr)) :
  comments ≠ [] →
  Forall2 (block_of str_lower py_repr) comments blocks →
  Forall (Forall single_line) blocks →
  ∃ lines,
    file_lines (concat (interleave report_separator blocks)) = lines ++ [[]]
    ∧ map (λ line, line ++ line_feed) lines
      = interleave report_separator blocks
    ∧ length lines = 4 * length comments + (length comments - 1)
    ∧ length (filter (λ line, line = separator_line) lines)
      = length comments - 1
    ∧ last lines ≠ Some separator_line.
Proof.
  intros Hne Hblocks Hsingle.
  change report_separator with separator. change line_feed with newline.
  destruct (report_file_lines blocks Hsingle) as (lines & Hmap & Hlines).
  symmetry in Hmap.
  exists lines. split; [done|]. split; [done|].
  pose proof (Forall2_length _ _ _ Hblocks) as Hlen.
  assert (Forall (λ block, length block = 4 ∧ separator ∉ block) blocks)
    as Hshape.
  { clear -Hblocks. induction Hblocks as [|c block ? ? Hb _ IH]; [done|].
    constructor; [|done]. destruct Hb as (? & _ & ->).
    rewrite <- comment_block_unfold. apply comment_block_shape. }
  assert (∀ l : list pystr,
            filter (λ w, w = separator) (map (λ line, line ++ newline) l)
            = map (λ line, line ++ newline)
                (filter (λ line, line = separator_line) l)) as Hfilter.
  { clear. induction l as [|x l IH]; [done|]. simpl.
    rewrite !filter_cons, IH. unfold separator, separator_line.
    destruct (decide (x = replicate 100 61%N)) as [->|Hx].
    - by rewrite decide_True.
    - rewrite decide_False; [done|]. by intros ?%app_inv_tail. }
  split; [|split].
  - rewrite <- (length_map (λ line, line ++ newline)), Hmap, Hlen.
    clear -Hshape Hne Hlen. destruct blocks as [|b blocks]; [by destruct comments|].
    clear Hne Hlen. revert b Hshape.
    induction blocks as [|b' blocks IH]; intros b Hshape.
    + apply Forall_cons in Hshape as [[Hb _] _].
      change (interleave separator [b]) with b. by rewrite Hb.
    + apply Forall_cons in Hshape as [[Hb _] Hshape].
      change (interleave separator (b :: b' :: blocks))
        with (b ++ separator :: interleave separator (b' :: blocks)).
      rewrite length_app, Hb, length_cons, (IH b' Hshape).
      rewrite !length_cons. lia.
  - rewrite <- (length_map (λ line, line ++ newline)), <- Hfilter, Hmap, Hlen.
    apply interleave_separators.
    by eapply Forall_impl; [exact Hshape|intros ? []].
  - intros Hlast.
    assert (last (map (λ line, line ++ newline) lines) = Some separator) as Hl.
    { change (last ((λ line, line ++ newline) <$> lines) = Some separator).
      by rewrite fmap_last, Hlast. }
    rewrite Hmap in Hl.
    rewrite interleave_last in Hl
      by (eapply Forall_impl; [exact Hshape|]; by intros [|] []).
    destruct (last blocks) as [block|] eqn:Eb; [|done]. simpl in Hl.
    apply last_Some_elem_of in Hl, Eb.
    rewrite Forall_forall in Hshape. by destruct (Hshape block Eb).
Qed.


End RunReports.

(** * More on the configuration *)

Lemma lstrip_by_id (p : N → bool) (s : pystr) :
  (∀ c, head s = Some c → p c = false) → lstrip_by p s = s.
Proof. destruct s as [|c s]; [done|]. simpl. intros H. by rewrite H. Qed.

Lemma strip_by_id (p : N → bool) (s : pystr) :
  (∀ c, head s = Some c → p c = false) →
  (∀ c, last s = Some c → p c = false) →
  strip_by p s = s.
Proof.
  intros Hh Hl. unfold strip_by, rstrip_by. rewrite (lstrip_by_id p s Hh).
  rewrite lstrip_by_id; [apply rev_involutive|].
  intros c Hc. apply Hl. rewrite <- Hc, rev_alt. symmetry. apply head_reverse.
Qed.

Lemma split_go_join (c : N) (fuel : nat) (pieces : list pystr) :
  pieces ≠ [] → Forall (λ piece, c ∉ piece) pieces →
  length (str_join [c] pieces) ≤ fuel →
  split_go fuel [c] (str_join [c] pieces) = pieces.
Proof.
  intros Hne Hall. revert fuel.
  induction Hall as [|piece rest Hp Hrest IH]; intros fuel Hlen; [done|].
  destruct rest as [|piece' rest'].
  - simpl. assert (str_find [c] piece = None) as F.
    { apply str_in_false. by apply str_in_fresh. }
    destruct fuel; simpl; [done|]. by rewrite F.
  - change (str_join [c] (piece :: piece' :: rest'))
      with (piece ++ c :: str_join [c] (piece' :: rest')) in *.
    rewrite length_app, length_cons in Hlen.
    destruct fuel as [|fuel]; [lia|]. cbn [split_go].
    rewrite str_find_char by done. f_equal. apply IH; [done|lia].
Qed.

(** Splitting undoes joining when no piece holds the separator. *)
Lemma str_split_join (c : N) (pieces : list pystr) :
  pieces ≠ [] → Forall (λ piece, c ∉ piece) pieces →
  str_split [c] (str_join [c] pieces) = pieces.
Proof. intros. by apply split_go_join. Qed.

Lemma head_str_join (sep : pystr) (piece : pystr) (rest : list pystr) :
  piece ≠ [] → head (str_join sep (piece :: rest)) = head piece.
Proof. intros ?. destruct rest, piece; done. Qed.

Lemma last_str_join (sep : pystr) (pieces : list pystr) :
  Forall (λ piece, piece ≠ []) pieces →
  last (str_join sep pieces) = last pieces ≫= last.
Proof.
  induction 1 as [|piece rest Hp Hrest IH]; [done|].
  destruct rest as [|piece' rest']; [done|].
  change (str_join sep (piece :: piece' :: rest'))
    with (piece ++ sep ++ str_join sep (piece' :: rest')).
  rewrite (last_cons_cons piece), <- IH.
  apply Forall_cons in Hrest as [Hp' _].
  assert (str_join sep (piece' :: rest') ≠ []) as Hj
    by (destruct rest', piece'; done).
  rewrite !last_app. by destruct (last (str_join sep (piece' :: rest'))) eqn:El;
    [|apply last_None in El].
Qed.

(** X15. Listing clean names with commas and reading the list back
    gives the same names: for names that are not empty, hold no comma
    and have no whitespace at either end, with no quote character at the
    very start or the very end of the list, the excluded authors of the
    comma-joined string are exactly these names. *)
Theorem exclude_authors_round_trip (names : list pystr) :
  Forall clean_name names →
  (∀ c, head names ≫= head = Some c → is_quote c = false) →
  (∀ c, last names ≫= last = Some c → is_quote c = false) →
  exclude_authors (str_join (u ",") names) = list_to_set names.
Proof.
  intros Hclean Hfirst Hlast. unfold exclude_authors.
  destruct names as [|name rest]; [done|].
  assert (Forall (λ piece, piece ≠ []) (name :: rest)) as Hne
    by (eapply Forall_impl; [exact Hclean|by intros ? []]).
  assert (str_strip_chars (u "'")
            (str_strip_chars dquote (str_join (u ",") (name :: rest)))
          = str_join (u ",") (name :: rest)) as ->.
  { assert (∀ c, head (str_join (u ",") (name :: rest)) = Some c →
              is_quote c = false) as Hh.
    { intros c. rewrite head_str_join by by inversion Hne. apply Hfirst. }
    assert (∀ c, last (str_join (u ",") (name :: rest)) = Some c →
              is_quote c = false) as Hl.
    { intros c. rewrite last_str_join by done. apply Hlast. }
    unfold str_strip_chars.
    rewrite (strip_by_id (char_in dquote)).
    - apply strip_by_id; intros c Hc; [apply Hh in Hc|apply Hl in Hc];
        unfold is_quote in Hc; apply orb_false_iff in Hc as [_ Hc];
        apply N.eqb_neq in Hc; apply bool_decide_eq_false_2;
        by intros ->%list_elem_of_singleton.
    - intros c Hc. apply Hh in Hc.
      unfold is_quote in Hc; apply orb_false_iff in Hc as [Hc _];
        apply N.eqb_neq in Hc; apply bool_decide_eq_false_2;
        by intros ->%list_elem_of_singleton.
    - intros c Hc. apply Hl in Hc.
      unfold is_quote in Hc; apply orb_false_iff in Hc as [Hc _];
        apply N.eqb_neq in Hc; apply bool_decide_eq_false_2;
        by intros ->%list_elem_of_singleton. }
  change (u ",") with [44%N]. rewrite str_split_join; [|done|].
  - f_equal.
    assert (∀ n, clean_name n → str_strip n = n) as Hstrip.
    { intros n (_ & _ & Hh & Hl). by apply strip_by_id. }
    clear -Hclean Hstrip.
    induction Hclean as [|n l Hn Hl IH]; [done|].
    rewrite filter_cons, decide_True by (rewrite (Hstrip n Hn); by destruct Hn).
    simpl. by rewrite (Hstrip n Hn), IH.
  - eapply Forall_impl; [exact Hclean|]. by intros ? (_ & ? & _).
Qed.

(** ** The override file *)

Lemma load_env_line_spec (line : pystr) (environ : gmap (list N) (list N)) :
  load_env_line line environ
  = match assignment_of line with
    | Some (key, value) => environ_set key value environ
    | None => Ok environ
    end.
Proof.
  unfold load_env_line, assignment_of, str_split1, str_in.
  destruct (bool_decide (str_strip line ≠ [])
            && negb (bool_decide (is_Some (strip_prefix (u "#") (str_strip line)))));
    simpl; [|done].
  by destruct (str_find (u "=") (str_strip line)) as [[key value]|].
Qed.

Lemma environ_set_storable (key value : pystr)
    (environ : gmap (list N) (list N)) :
  storable key value → environ_set key value environ = Ok (<[key := value]> environ).
Proof.
  intros (Hk & Hk0 & Hv0). unfold environ_set.
  by rewrite !bool_decide_eq_false_2.
Qed.

Lemma environ_set_refused (key value : pystr)
    (environ : gmap (list N) (list N)) :
  ¬ storable key value →
  environ_set key value environ
  = Raise (if bool_decide (0%N ∈ key ∨ 0%N ∈ value) then ValueError
           else OSError).
Proof.
  intros Hns. unfold environ_set, storable in *.
  repeat case_bool_decide; simpl; try done; try tauto.
Qed.

(** X16. What one line of config.env does.  A blank line, a line whose
    first non-blank character is "#" and a line without "=" leave the
    environment as it is.  Any other line is cut at its first "=": the
    name is what precedes it, trimmed of whitespace; the value is what
    follows it (further "=" included), trimmed of whitespace, then of
    double quotes, then of single quotes; the name is set to the value. *)
Theorem load_env_line_effect (line : pystr) (environ : gmap (list N) (list N)) :
  (str_strip line = [] ∨ is_Some (strip_prefix (u "#") (str_strip line))
   ∨ str_in (u "=") (str_strip line) = false →
   load_env_line line environ = Ok environ)
  ∧ (∀ name value,
       str_strip line = name ++ u "=" ++ value →
       (61%N ∉ name) →
       ¬ is_Some (strip_prefix (u "#") (str_strip line)) →
       let stored :=
         str_strip_chars (u "'") (str_strip_chars dquote (str_strip value)) in
       storable (str_strip name) stored →
       load_env_line line environ
       = Ok (<[str_strip name := stored]> environ)).
Proof.
  split.
  - intros Hskip. rewrite load_env_line_spec. unfold assignment_of.
    destruct Hskip as [-> |[Hc|Hno]].
    + by rewrite bool_decide_eq_false_2 by (by intros []).
    + rewrite (bool_decide_eq_true_2 (is_Some _)) by done.
      by rewrite andb_false_r.
    + apply str_in_false in Hno. rewrite Hno.
      by destruct (_ && _).
  - intros name value Hline Hname Hnc stored Hst.
    rewrite load_env_line_spec. unfold assignment_of. rewrite Hline.
    rewrite bool_decide_eq_true_2 by (by destruct name).
    rewrite <- Hline, (bool_decide_eq_false_2 (is_Some _)) by done.
    rewrite Hline. simpl andb. cbv iota.
    change (u "=") with [61%N].
    change (name ++ [61%N] ++ value) with (name ++ 61%N :: value).
    rewrite (str_find_char 61 name value Hname).
    by apply environ_set_storable.
Qed.

Lemma assignments_cons (line : pystr) (rest : list pystr) :
  assignments (line :: rest)
  = match assignment_of line with
    | Some kv => kv :: assignments rest
    | None => assignments rest
    end.
Proof. unfold assignments. simpl. by destruct (assignment_of line). Qed.

Lemma load_env_lines_fold (lines : list pystr)
    (environ : gmap (list N) (list N)) :
  Forall (λ kv, storable kv.1 kv.2) (assignments lines) →
  load_env_lines lines environ
  = Ok (foldl (λ e kv, <[kv.1 := kv.2]> e) environ (assignments lines)).
Proof.
  revert environ. induction lines as [|line rest IH]; intros environ; [done|].
  rewrite assignments_cons. simpl. rewrite load_env_line_spec.
  destruct (assignment_of line) as [[key value]|]; simpl.
  - intros [Hkv Hrest]%Forall_cons. rewrite environ_set_storable by done.
    simpl. by apply IH.
  - apply IH.
Qed.

Lemma last_assigned_cons (key : pystr) (kv : pystr * pystr)
    (kvs : list (pystr * pystr)) :
  last_assigned key (kv :: kvs)
  = match last_assigned key kvs with
    | Some v => Some v
    | None => if decide (kv.1 = key) then Some kv.2 else None
    end.
Proof.
  unfold last_assigned. rewrite filter_cons.
  destruct (decide (kv.1 = key)); [|by destruct (last _)].
  rewrite last_cons. by destruct (last _).
Qed.

Lemma foldl_insert_lookup (kvs : list (pystr * pystr))
    (environ : gmap (list N) (list N)) (key : pystr) :
  foldl (λ e kv, <[kv.1 := kv.2]> e) environ kvs !! key
  = match last_assigned key kvs with
    | Some v => Some v
    | None => environ !! key
    end.
Proof.
  revert environ. induction kvs as [|kv kvs IH]; intros environ; [done|].
  simpl. rewrite IH, last_assigned_cons.
  destruct (last_assigned key kvs); [done|].
  destruct (decide (kv.1 = key)) as [<-|Hne].
  - by rewrite lookup_insert_eq.
  - by rewrite lookup_insert_ne.
Qed.

(** X17. Loading config.env: a missing file changes nothing; otherwise,
    when every assignment of the file has a name and a value the
    environment takes, each name assigned in the file ends up with the
    value of its last assignment, replacing whatever the process
    environment held for it, and every other variable keeps its value. *)
Theorem load_env_file_lookup (lines : list pystr)
    (environ : gmap (list N) (list N)) :
  load_env_file None environ = Ok environ
  ∧ (Forall (λ kv, storable kv.1 kv.2) (assignments lines) →
     ∃ environ',
       load_env_file (Some lines) environ = Ok environ'
       ∧ ∀ key,
           environ' !! key
           = match last_assigned key (assignments lines) with
             | Some value => Some value
             | None => environ !! key
             end).
Proof.
  split; [done|]. intros Hall. eexists. split.
  - by apply load_env_lines_fold.
  - apply foldl_insert_lookup.
Qed.

(** X18. The first line whose assignment the environment does not take
    stops the loading, and the lines after it are not read: a NUL in the
    name or in the value raises [ValueError]; otherwise the name is
    empty, as in "=value", and [OSError] is raised. *)
Theorem load_env_file_refused_line (before after : list pystr) (line : pystr)
    (key value : pystr) (environ : gmap (list N) (list N)) :
  Forall (λ kv, storable kv.1 kv.2) (assignments before) →
  assignment_of line = Some (key, value) →
  ¬ storable key value →
  load_env_file (Some (before ++ line :: after)) environ
  = Raise (if bool_decide (0%N ∈ key ∨ 0%N ∈ value) then ValueError
           else OSError).
Proof.
  simpl. revert environ. induction before as [|l before IH]; intros environ.
  - intros _ Hline Hns. simpl. rewrite load_env_line_spec, Hline.
    by rewrite environ_set_refused.
  - rewrite assignments_cons. simpl. rewrite load_env_line_spec.
    destruct (assignment_of l) as [[k v]|]; simpl.
    + intros [Hkv Hrest]%Forall_cons. rewrite environ_set_storable by done.
      simpl. by apply IH.
    + apply IH.
Qed.

Lemma exclude_authors_round_trip_witness :
  exclude_authors (str_join (u ",") names_demo) = list_to_set names_demo.
Proof.
  apply exclude_authors_round_trip.
  - repeat constructor; try (vm_compute; discriminate);
      try refute_by_compute;
      intros c Hc; vm_compute in Hc; injection Hc as <-; reflexivity.
  - intros c Hc. vm_compute in Hc. injection Hc as <-. reflexivity.
  - intros c Hc. vm_compute in Hc. injection Hc as <-. reflexivity.
Defined.

Lemma load_env_line_effect_witness :
  load_env_line (u "  POSITIVE_THRESHOLD = '0.8'  " ++ newline) environ_demo
  = Ok (<[str_strip (u "POSITIVE_THRESHOLD ") :=
            str_strip_chars (u "'")
              (str_strip_chars dquote (str_strip (u " '0.8'")))]> environ_demo).
Proof.
  destruct (load_env_line_effect (u "  POSITIVE_THRESHOLD = '0.8'  " ++ newline)
              environ_demo) as [_ H].
  apply (H (u "POSITIVE_THRESHOLD ") (u " '0.8'")).
  - vm_compute. reflexivity.
  - refute_by_compute.
  - intros [r Hr]. vm_compute in Hr. discriminate.
  - split; [vm_compute; discriminate|]. split; refute_by_compute.
Defined.

Lemma load_env_file_lookup_witness :
  ∃ environ',
    load_env_file (Some env_lines_demo) environ_demo = Ok environ'
    ∧ ∀ key,
        environ' !! key
        = match last_assigned key (assignments env_lines_demo) with
          | Some value => Some value
          | None => environ_demo !! key
          end.
Proof.
  destruct (load_env_file_lookup env_lines_demo environ_demo) as [_ H].
  apply H. vm_compute.
  repeat constructor; simpl; try discriminate;
    intros Hin; repeat (apply elem_of_cons in Hin as [[=]|Hin]);
    by apply elem_of_nil in Hin.
Defined.

(** The file wins over the process environment, the later line over the
    earlier one, and the excluded authors are those of the file. *)
Example load_env_file_demo :
  match load_env_file (Some env_lines_demo) environ_demo with
  | Ok environ' =>
    environ' !! u "POSITIVE_THRESHOLD" = Some (u "0.8")
    ∧ environ' !! u "DEVICE" = Some (u "cpu")
    ∧ elements (EXCLUDE_AUTHORS_of environ') = [u "bot"; u "admin"]
  | Raise _ => False
  end.
Proof. vm_compute. repeat split; reflexivity. Qed.

Lemma load_env_file_refused_line_witness :
  load_env_file (Some ([u "DEVICE=cpu"] ++ u "=value" :: [u "MODEL_NAME=x"]))
    environ_demo
  = Raise (if bool_decide (0%N ∈ [] ∨ 0%N ∈ u "value") then ValueError
           else OSError).
Proof.
  apply (load_env_file_refused_line [u "DEVICE=cpu"] [u "MODEL_NAME=x"]
           (u "=value") [] (u "value")).
  - vm_compute. repeat constructor; simpl; try discriminate;
      intros Hin; repeat (apply elem_of_cons in Hin as [[=]|Hin]);
      by apply elem_of_nil in Hin.
  - vm_compute. reflexivity.
  - intros [Hk _]. by apply Hk.
Defined.

(** An empty name is refused by the system call, a NUL before that. *)
Example load_env_file_refusals :
  load_env_file (Some [u "DEVICE=cpu"; u "=value"]) environ_demo
  = Raise OSError
  ∧ load_env_file (Some [u "=" ++ [0%N]]) environ_demo = Raise ValueError
  ∧ load_env_file (Some [u "MODEL_NAME=a" ++ [0%N] ++ u "b"]) environ_demo
    = Raise ValueError.
Proof. vm_compute. repeat split; reflexivity. Qed.

(** * More on the positivity decision and on the writer *)

Section PolicyMoreFacts.

Context {score : Type}.
Variable score_geb : score → score → bool.
Variable argmax : list score → result nat.
Variable str_lower : pystr → pystr.

(** X19. How the label decides, for a text that reaches the model.  A
    label missing from [id2label] raises [KeyError].  With the label
    "positive" the verdict is the comparison of the score at index 2
    with the threshold, praise keywords playing no part, and a score
    array of fewer than three entries raises [IndexError].  With
    "neutral" the verdict is the keyword test and with any other label
    it is [False]; in both cases the scores are not read. *)
Theorem is_positive_comment_by_label (self : SentimentAnalyzer)
    (text author : pystr) (proba : list score) (k : nat) :
  author ∉ EXCLUDE_AUTHORS (config self) →
  (MIN_COMMENT_LENGTH (config self) ≤ Z.of_nat (length text))%Z →
  predict self (JStr text) = Ok proba →
  argmax proba = Ok k →
  let verdict :=
    is_positive_comment score_geb argmax str_lower self (JStr text) (JStr author) in
  (id2label self !! k = None → verdict = Raise KeyError)
  ∧ (id2label self !! k = Some (u "positive") →
     (length proba ≤ 2 → verdict = Raise IndexError)
     ∧ (∀ p2, proba !! 2 = Some p2 →
          verdict = Ok (score_geb p2 (POSITIVE_THRESHOLD (config self)))))
  ∧ (id2label self !! k = Some (u "neutral") →
     verdict = Ok (existsb (λ keyword, str_in keyword (str_lower text))
                     praise_keywords))
  ∧ (∀ label, id2label self !! k = Some label →
       label ≠ u "positive" → label ≠ u "neutral" → verdict = Ok false).
Proof.
  intros Hout Hlong Hp Hk verdict. subst verdict.
  unfold is_positive_comment. generalize praise_keywords. intros kws.
  cbn [py_in_set py_len mbind result_bind].
  rewrite bool_decide_eq_false_2 by done.
  apply Z.ltb_ge in Hlong. rewrite Hlong, Hp. cbn [mbind result_bind].
  rewrite Hk. cbn [mbind result_bind]. unfold dict_getitem, getitem.
  split; [|split; [|split]].
  - by intros ->.
  - intros ->. cbn [mbind result_bind].
    rewrite (bool_decide_eq_true_2 (u "positive" = u "positive")) by done.
    split.
    + intros Hlen. by rewrite (lookup_ge_None_2 proba 2) by lia.
    + intros p2 ->. cbn [mbind result_bind].
      destruct (score_geb p2 _); [done|].
      by rewrite (bool_decide_eq_false_2 (u "positive" = u "neutral"))
        by (intros E; vm_compute in E; discriminate).
  - intros ->. cbn [mbind result_bind].
    rewrite (bool_decide_eq_false_2 (u "neutral" = u "positive"))
      by (intros E; vm_compute in E; discriminate).
    cbn [mbind result_bind].
    rewrite (bool_decide_eq_true_2 (u "neutral" = u "neutral")) by done.
    cbn [as_str mbind result_bind]. by destruct (existsb _ kws).
  - intros label -> Hnp Hnn. cbn [mbind result_bind].
    rewrite (bool_decide_eq_false_2 _ Hnp). cbn [mbind result_bind].
    by rewrite (bool_decide_eq_false_2 _ Hnn).
Qed.

End PolicyMoreFacts.

Lemma is_positive_comment_by_label_witness :
  is_positive_comment score_geb_demo argmax_demo lower_basic
    analyzer_two_labels (JStr text_thanks) (JStr (u "reader"))
  = Raise IndexError.
Proof.
  destruct (is_positive_comment_by_label score_geb_demo argmax_demo
              lower_basic analyzer_two_labels text_thanks (u "reader")
              [100; 900]%Z 1) as (_ & H & _).
  - refute_by_compute.
  - vm_compute. discriminate.
  - reflexivity.
  - reflexivity.
  - apply H; [reflexivity|]. simpl. lia.
Defined.

Section WriterMoreFacts.

Variable str_lower : pystr → pystr.
Variable py_repr : json → pystr.

Lemma write_comments_interrupted' (good rest : list json)
    (fields : gmap (list N) json) (e : exn) (written : list pystr) :
  Forall (writable str_lower py_repr) good →
  get_comment_url str_lower py_repr
    (default (JStr []) (fields !! u "directory_name"))
    (default (JStr []) (fields !! u "article_url"))
    (py_str py_repr (default (JStr (u "unknown")) (fields !! u "id")))
  = Raise e →
  ∃ blocks,
    Forall2 (block_of str_lower py_repr) good blocks
    ∧ write_comments str_lower py_repr (good ++ JObj fields :: rest) written
      = (written ++ concat (map (λ block, block ++ [separator]) blocks),
         Raise e).
Proof.
  intros Hall Hbad. revert written.
  induction Hall as [|c good Hc _ IH]; intros written.
  - exists []. split; [constructor|].
    cbn [app write_comments dict_get mbind result_bind]. rewrite Hbad.
    cbn [mbind result_bind]. simpl. by rewrite app_nil_r.
  - destruct Hc as (Hobj & block & Hb & Henc).
    pose proof Hb as (comment_url & Hurl & Eb).
    destruct c as [| | | | | |m]; try discriminate.
    cbn [app write_comments dict_get mbind result_bind].
    simpl field_or in Hurl, Eb. rewrite Hurl. cbn [mbind result_bind].
    rewrite comment_block_unfold, <- Eb,
      (write_all_encodable block written Henc).
    destruct (IH ((written ++ block) ++ [separator])) as (blocks & Hbl & E).
    exists (block :: blocks). split; [by constructor|].
    destruct (good ++ JObj fields :: rest) eqn:Hl; [by destruct good|].
    rewrite E. simpl. by rewrite <- !app_assoc.
Qed.

(** A string that cannot be encoded stops the writing inside its block:
    the blocks before are written, each with its separator, then the
    lines of the block that precede the failing one. *)
Lemma write_comments_encoding_error' (good rest : list json) (c : json)
    (block : list pystr) (before after : list pystr) (bad : pystr)
    (written : list pystr) :
  Forall (writable str_lower py_repr) good →
  is_object c = true →
  block_of str_lower py_repr c block →
  block = before ++ bad :: after →
  Forall (λ w, utf8_encodable w = true) before →
  utf8_encodable bad = false →
  ∃ blocks,
    Forall2 (block_of str_lower py_repr) good blocks
    ∧ write_comments str_lower py_repr (good ++ c :: rest) written
      = (written ++ concat (map (λ block, block ++ [separator]) blocks)
           ++ before,
         Raise UnicodeEncodeError).
Proof.
  intros Hall Hobj Hblock Hcut Hbefore Hbad. revert written.
  induction Hall as [|c' good Hc _ IH]; intros written.
  - exists []. split; [constructor|].
    destruct Hblock as (comment_url & Hurl & Eb).
    destruct c as [| | | | | |m]; try discriminate.
    cbn [app write_comments dict_get mbind result_bind].
    simpl field_or in Hurl, Eb. rewrite Hurl. cbn [mbind result_bind].
    rewrite comment_block_unfold, <- Eb, Hcut,
      (write_all_stops before after written bad) by done.
    done.
  - destruct Hc as (Hobj' & block' & Hb & Henc).
    pose proof Hb as (comment_url & Hurl & Eb).
    destruct c' as [| | | | | |m]; try discriminate.
    cbn [app write_comments dict_get mbind result_bind].
    simpl field_or in Hurl, Eb. rewrite Hurl. cbn [mbind result_bind].
    rewrite comment_block_unfold, <- Eb,
      (write_all_encodable block' written Henc).
    destruct (IH ((written ++ block') ++ [separator])) as (blocks & Hbl & E).
    exists (block' :: blocks). split; [by constructor|].
    destruct (good ++ c :: rest) eqn:Hl; [by destruct good|].
    rewrite E. simpl. by rewrite <- !app_assoc.
Qed.

(** X20. An exception in the middle of a report leaves the file cut
    short.  Let the records before the failing one be written in full
    (their links can be built and their lines encoded): their blocks are
    in the file, each followed by the separator line.  When the link of
    the failing record cannot be built, nothing of that record is
    written and the file ends with a separator; when one of its four
    lines cannot be encoded as UTF-8, the lines of its block before that
    one are written and [UnicodeEncodeError] is raised.  Nothing of the
    records after it is written. *)
Theorem write_comments_interrupted (good rest : list json)
    (fields : gmap (list N) json) :
  Forall (writable str_lower py_repr) good →
  (∀ e,
     get_comment_url str_lower py_repr
       (default (JStr []) (fields !! u "directory_name"))
       (default (JStr []) (fields !! u "article_url"))
       (py_str py_repr (default (JStr (u "unknown")) (fields !! u "id")))
     = Raise e →
     ∃ blocks,
       Forall2 (block_of str_lower py_repr) good blocks
       ∧ write_comments str_lower py_repr (good ++ JObj fields :: rest) []
         = (concat (map (λ block, block ++ [separator]) blocks), Raise e))
  ∧ (∀ block before bad after,
       block_of str_lower py_repr (JObj fields) block →
       block = before ++ bad :: after →
       Forall (λ w, utf8_encodable w = true) before →
       utf8_encodable bad = false →
       ∃ blocks,
         Forall2 (block_of str_lower py_repr) good blocks
         ∧ write_comments str_lower py_repr (good ++ JObj fields :: rest) []
           = (concat (map (λ block, block ++ [separator]) blocks) ++ before,
              Raise UnicodeEncodeError)).
Proof.
  intros Hgood. split.
  - intros e He. by apply write_comments_interrupted'.
  - intros block before bad after Hb Hcut Hbefore Hbad.
    by apply (write_comments_encoding_error' good rest (JObj fields) block
                before after bad []).
Qed.

End WriterMoreFacts.

Lemma write_comments_interrupted_witness :
  ∃ blocks,
    Forall2 (block_of lower_basic repr_demo) [comment_hello] blocks
    ∧ write_comments lower_basic repr_demo
        ([comment_hello] ++ comment_bad_url :: [comment_thanks]) []
      = (concat (map (λ block, block ++ [separator]) blocks), Raise TypeError).
Proof.
  destruct (write_comments_interrupted lower_basic repr_demo [comment_hello]
              [comment_thanks]
              (list_to_map [field "id" (JInt 9);
                            field "author" (JStr (u "guest"));
                            field "text" (JStr text_thanks);
                            field "article_url" (JInt 5);
                            field "directory_name" (JStr (u "habr_comments"))]))
    as [H _].
  - repeat constructor. eexists. split.
    + eexists. split; [vm_compute; reflexivity|reflexivity].
    + repeat constructor; vm_compute; reflexivity.
  - apply (H TypeError). vm_compute. reflexivity.
Defined.

(** A lone surrogate in the author of the second record: the first block
    and its separator are written, then nothing. *)
Example write_comments_surrogate :
  write_comments lower_basic repr_demo
    [comment_hello; comment_surrogate; comment_thanks] []
  = ((write_comments lower_basic repr_demo [comment_hello] []).1
       ++ [separator],
     Raise UnicodeEncodeError).
Proof. vm_compute. reflexivity. Qed.

(** * The run and the ingestion on the stand-ins *)

Lemma process_json_file_filters_witness :
  process_json_file score_geb_demo argmax_demo lower_basic
    (Loaded (JObj fields_demo)) (u "1.json") analyzer_demo (u "habr_comments")
  = ([], Ok (map (annotate (default (JStr []) (fields_demo !! u "url"))
                    (u "habr_comments"))
               (filter (λ c, accepts score_geb_demo argmax_demo lower_basic
                               analyzer_demo c = true)
                  [comment_raw; comment_no_id]))).
Proof.
  apply process_json_file_filters.
  - vm_compute. reflexivity.
  - repeat constructor.
    + eexists. reflexivity.
    + intros _. exists true. vm_compute. reflexivity.
    + eexists. reflexivity.
    + intros H. vm_compute in H. discriminate.
Defined.

Lemma process_json_file_shape_errors_witness :
  process_json_file score_geb_demo argmax_demo lower_basic
    (Loaded (JObj fields_stray)) (u "1.json") analyzer_demo (u "habr_comments")
  = ([], Raise AttributeError).
Proof.
  destruct (process_json_file_shape_errors score_geb_demo argmax_demo
              lower_basic analyzer_demo (u "1.json") (u "habr_comments"))
    as [_ H].
  apply (H fields_stray [comment_raw] (JStr (u "oops")) []).
  - vm_compute. reflexivity.
  - repeat constructor.
    + eexists. reflexivity.
    + intros _. exists true. vm_compute. reflexivity.
  - reflexivity.
Defined.

Lemma raising_file_aborts_run_witness :
  files_written (main score_geb_demo argmax_demo lower_basic repr_demo
                   fs_array analyzer_demo) = []
  ∧ ∃ e', status (main score_geb_demo argmax_demo lower_basic repr_demo
                    fs_array analyzer_demo) = Raise e'.
Proof.
  apply (raising_file_aborts_run score_geb_demo argmax_demo lower_basic
           repr_demo fs_array analyzer_demo tj_dir tj_file AttributeError).
  - apply (list_elem_of_lookup_2 _ 2). vm_compute. reflexivity.
  - vm_compute. reflexivity.
  - apply (list_elem_of_lookup_2 _ 0). vm_compute. reflexivity.
  - vm_compute. reflexivity.
Defined.

Lemma run_without_json_files_witness :
  status (main score_geb_demo argmax_demo lower_basic repr_demo fs_empty
            analyzer_demo) = Raise (SystemExit 1)
  ∧ files_written (main score_geb_demo argmax_demo lower_basic repr_demo
                     fs_empty analyzer_demo) = [].
Proof.
  apply run_without_json_files. intros directory _. by left.
Defined.




(** The report of [fs_demo], line by line. *)
Example report_lines_demo :
  ∃ content,
    files_written (main score_geb_demo argmax_demo lower_basic repr_demo
                     fs_demo analyzer_demo)
    = [(output_file habr_dir, content)]
    ∧ file_lines content
      = [ u "Автор: reader";
          u "Дата: Дата неизвестна";
          u "Текст: I love this article a lot";
          u "Ссылка: https://habr.com/ru/articles/12345/comments/#comment_7";
          [] ].
Proof. eexists. vm_compute. split; reflexivity. Qed.

